(** * Car rating backend: the route handlers of [backend/server.py]

    The handlers are embedded as computations in a state-and-exception
    monad over a [World] that holds the [db.cars] collection, the two global
    agent slots, the log and a trace of every store access.  Everything the
    handlers obtain from outside (fresh uuids, the clock, driver failures,
    the [$sample] draw, the agents of [ai_agents.agents]) is read from an
    environment [Env], so that every statement below holds for all
    behaviours of those collaborators.

    Python floats are IEEE binary64 values ([spec_float] with [prec = 53],
    [emax = 1024]); integers are unbounded ([Z]). *)

From Stdlib Require Import ZArith String List Bool Lia.
From Stdlib Require Import Floats.SpecFloat DecimalString.
From stdpp Require Import base option list gmap strings.

Open Scope string_scope.
Open Scope Z_scope.

(** ** Python numbers *)

Module Binary64.

Definition prec : Z := 53.
Definition emax : Z := 1024.

Definition float := spec_float.

(** [float(z)]: the nearest double, ties to even. *)
Definition of_int (z : Z) : float := binary_normalize prec emax z 0 false.

(** An integer as an exact operand [z * 2^0] of a correctly rounded
    operation. *)
Definition operand (z : Z) : float :=
  match z with
  | Z0 => S754_zero false
  | Zpos p => S754_finite false p 0
  | Zneg p => S754_finite true p 0
  end.

Definition mul (x y : float) : float := SFmul prec emax x y.

Definition is_infinite (x : float) : bool :=
  match x with S754_infinity _ => true | _ => false end.

(** [num / den] rounded to the nearest integer, ties to even
    ([0 <= num], [0 < den]). *)
Definition round_half_even (num den : Z) : Z :=
  let (q, r) := Z.div_eucl num den in
  match 2 * r ?= den with
  | Lt => q
  | Gt => q + 1
  | Eq => if Z.even q then q else q + 1
  end.

(** The number of tenths nearest to [m * 2^e]. *)
Definition tenths (m : positive) (e : Z) : Z :=
  match e with
  | Zneg p => round_half_even (10 * Zpos m) (2 ^ Zpos p)
  | _ => 10 * Zpos m * 2 ^ e
  end.

(** The double written [k/10] in decimal, with sign [s]. *)
Definition of_tenths (s : bool) (k : Z) : float :=
  match k with
  | Zpos p => SFdiv prec emax (S754_finite s p 0) (S754_finite false 10 0)
  | _ => S754_zero s
  end.

(** [round(x, 1)] on a float: the exact binary value is rounded to one
    decimal with ties to even, and the decimal is read back as a double.
    Zeros, infinities and nans round to themselves. *)
Definition round1 (x : float) : float :=
  match x with
  | S754_finite s m e => of_tenths s (tenths m e)
  | _ => x
  end.

(** Structural equality of doubles (distinguishes the two zeros). *)
Definition same (a b : float) : bool :=
  match a, b with
  | S754_zero s, S754_zero s' => Bool.eqb s s'
  | S754_infinity s, S754_infinity s' => Bool.eqb s s'
  | S754_nan, S754_nan => true
  | S754_finite s m e, S754_finite s' m' e' =>
      Bool.eqb s s' && Pos.eqb m m' && Z.eqb e e'
  | _, _ => false
  end.

End Binary64.

Abbreviation float := Binary64.float.

(** A Python number: an [int] or a [float]. *)
Inductive pynum :=
| PyInt (z : Z)
| PyFloat (f : float).

(** Python's [==] on numbers.  An int is compared with a float through the
    float's exact value, without converting the int. *)
Definition int_eq_float (x : Z) (y : float) : bool :=
  match y with
  | S754_zero _ => Z.eqb x 0
  | S754_finite s m (Zneg p) => Z.eqb (x * 2 ^ Zpos p) (cond_Zopp s (Zpos m))
  | S754_finite s m e => Z.eqb x (cond_Zopp s (Zpos m) * 2 ^ e)
  | _ => false
  end.

Definition pynum_eqb (a b : pynum) : bool :=
  match a, b with
  | PyInt x, PyInt y => Z.eqb x y
  | PyFloat x, PyFloat y => SFeqb x y
  | PyInt x, PyFloat y => int_eq_float x y
  | PyFloat x, PyInt y => int_eq_float y x
  end.

(** Values found in an agent's [metadata] dict. *)
Inductive pyval :=
| PyNone
| PyBool (b : bool)
| PyNum (n : pynum)
| PyStr (s : string).

(** [str(z)] for an int. *)
Definition str_int (z : Z) : string := NilZero.string_of_int (Z.to_int z).

(** ** Data model

    One module per pydantic model, so that the fields keep their names. *)

(** [datetime] values, as the clock hands them out. *)
Definition datetime := Z.

Module Car.
Record t := mk {
  id : string;
  make : string;
  model : string;
  year : Z;
  image_url : string;
  hot_votes : Z;
  not_votes : Z;
  total_votes : Z;
  hot_percentage : pynum;
  created_at : datetime
}.
End Car.

Module CarCreate.
Record t := mk {
  make : string;
  model : string;
  year : Z;
  image_url : string
}.
End CarCreate.

Module CarResponse.
Record t := mk {
  id : string;
  make : string;
  model : string;
  year : Z;
  image_url : string;
  hot_votes : Z;
  not_votes : Z;
  total_votes : Z;
  hot_percentage : float
}.
End CarResponse.

Module VoteRequest.
Record t := mk {
  car_id : string;
  vote_type : string
}.
End VoteRequest.

Module VoteResponse.
Record t := mk {
  success : bool;
  car : CarResponse.t;
  message : string
}.
End VoteResponse.

Module ChatRequest.
Record t := mk {
  message : string;
  agent_type : string;
  context : option (gmap string pyval)
}.
End ChatRequest.

Module ChatResponse.
Record t := mk {
  success : bool;
  response : string;
  agent_type : string;
  capabilities : list string;
  metadata : gmap string pyval;
  error : option string
}.
End ChatResponse.

Module SearchRequest.
Record t := mk {
  query : string;
  max_results : Z
}.
End SearchRequest.

Module SearchResponse.
Record t := mk {
  success : bool;
  query : string;
  summary : string;
  search_results : option (gmap string pyval);
  sources_count : Z;
  error : option string
}.
End SearchResponse.

(** The dict returned by [initialize_cars]; [car_count] is present only
    after a seeding. *)
Module InitializeResult.
Record t := mk {
  message : string;
  initialized : bool;
  car_count : option Z
}.
End InitializeResult.

(** What [agent.execute] returns (class of [ai_agents.agents], known here
    only through the four attributes the handlers read). *)
Module AgentResponse.
Record t := mk {
  success : bool;
  content : string;
  metadata : gmap string pyval;
  error : option string
}.
End AgentResponse.

(** ** Exceptions and results *)

Inductive exn :=
| HTTPException (status_code : Z) (detail : string)
| Exception (msg : string).

Inductive result (A : Type) :=
| Return (a : A)
| Raise (e : exn).
Arguments Return {A} a.
Arguments Raise {A} e.

(** The exception a result carries, if any. *)
Definition raised {A} (r : result A) : option exn :=
  match r with
  | Return _ => None
  | Raise e => Some e
  end.

(** The status FastAPI answers with. *)
Definition http_status {A} (r : result A) : Z :=
  match r with
  | Return _ => 200
  | Raise (HTTPException s _) => s
  | Raise (Exception _) => 500
  end.

(** ** Agents *)

Inductive AgentKind := SearchAgent | ChatAgent.

(** An agent object: its class and the tick at which it was constructed. *)
Record Agent := mkAgent {
  agent_kind : AgentKind;
  agent_serial : nat
}.

(** ** The world *)

(** Store accesses, as issued to the driver. *)
Inductive DbOp :=
| Aggregate_sample
| Find_one (car_id : string)
| Update_one (car_id : string) (hot_votes not_votes total_votes : Z)
             (hot_percentage : pynum)
| Insert_one (doc : Car.t)
| Insert_many (docs : list Car.t)
| Count_documents.

Inductive AgentCall :=
| Construct (k : AgentKind)
| Execute (a : Agent) (message : string) (use_tools : option bool)
| Get_capabilities (a : Agent).

Record World := mkWorld {
  cars : list Car.t;              (* db.cars, in natural order *)
  search_agent : option Agent;    (* global search_agent *)
  chat_agent : option Agent;      (* global chat_agent *)
  ticks : nat;                    (* interactions with the outside so far *)
  (* store accesses, latest first, each with the failure the driver raised *)
  db_trace : list (DbOp * option string);
  (* agent calls, latest first, each with the exception the call raised *)
  agent_trace : list (AgentCall * option exn);
  logged : list string            (* logger.error lines, latest first *)
}.

(** Everything the handlers receive from outside, indexed by the tick at
    which it is asked for. *)
Record Env := mkEnv {
  uuid4 : nat -> string;
  utcnow : nat -> datetime;
  (* the driver raises on the access made at this tick, with this str(e) *)
  db_fault : nat -> option string;
  (* the random draw of $sample *)
  sample_draw : nat -> nat;
  (* SearchAgent(agent_config) / ChatAgent(agent_config) raises *)
  agent_init : AgentKind -> nat -> option exn;
  agent_execute : Agent -> string -> option bool -> nat -> result AgentResponse.t;
  agent_get_capabilities : Agent -> nat -> result (list string);
  (* str(e) of an HTTPException *)
  http_exception_str : Z -> string -> string;
  (* repr of a float inside an f-string *)
  float_repr : float -> string;
  (* pydantic's coercion to int of a value that is not an int *)
  coerce_int : pyval -> result Z
}.

(** ** The handler monad: state passing over [World], with exceptions *)

Definition M (A : Type) : Type := World -> result A * World.

Definition ret {A} (a : A) : M A := fun w => (Return a, w).

Definition raise {A} (e : exn) : M A := fun w => (Raise e, w).

Definition lift {A} (r : result A) : M A := fun w => (r, w).

Definition bind {A B} (c : M A) (k : A -> M B) : M B :=
  fun w =>
    match c w with
    | (Return a, w') => k a w'
    | (Raise e, w') => (Raise e, w')
    end.

(** [try: body / except Exception as e: handler e].  Every exception of the
    model is an instance of [Exception], [HTTPException] included. *)
Definition try_except {A} (body : M A) (handler : exn -> M A) : M A :=
  fun w =>
    match body w with
    | (Return a, w') => (Return a, w')
    | (Raise e, w') => handler e w'
    end.

Notation "x <- c ;; k" := (bind c (fun x => k))
  (at level 100, c at next level, right associativity).
Notation "c ;;; k" := (bind c (fun _ => k))
  (at level 100, right associativity).

(** ** World updates *)

Definition with_cars (cs : list Car.t) (w : World) : World :=
  mkWorld cs (search_agent w) (chat_agent w) (ticks w) (db_trace w)
          (agent_trace w) (logged w).

Definition with_search_agent (a : option Agent) (w : World) : World :=
  mkWorld (cars w) a (chat_agent w) (ticks w) (db_trace w)
          (agent_trace w) (logged w).

Definition with_chat_agent (a : option Agent) (w : World) : World :=
  mkWorld (cars w) (search_agent w) a (ticks w) (db_trace w)
          (agent_trace w) (logged w).

Definition tick (w : World) : World :=
  mkWorld (cars w) (search_agent w) (chat_agent w) (S (ticks w)) (db_trace w)
          (agent_trace w) (logged w).

Definition record_db (op : DbOp) (failure : option string) (w : World) : World :=
  mkWorld (cars w) (search_agent w) (chat_agent w) (ticks w)
          ((op, failure) :: db_trace w) (agent_trace w) (logged w).

Definition record_agent (c : AgentCall) (failure : option exn) (w : World) : World :=
  mkWorld (cars w) (search_agent w) (chat_agent w) (ticks w) (db_trace w)
          ((c, failure) :: agent_trace w) (logged w).

Definition record_log (line : string) (w : World) : World :=
  mkWorld (cars w) (search_agent w) (chat_agent w) (ticks w) (db_trace w)
          (agent_trace w) (line :: logged w).

(** ** Pure helpers of the handlers *)

(** [a / b] on ints: the correctly rounded quotient; [ZeroDivisionError]
    and [OverflowError] as Python raises them. *)
Definition int_truediv (a b : Z) : result float :=
  if Z.eqb b 0 then Raise (Exception "division by zero")
  else
    let q := SFdiv Binary64.prec Binary64.emax
                   (Binary64.operand a) (Binary64.operand b) in
    if Binary64.is_infinite q
    then Raise (Exception "integer division result too large for a float")
    else Return q.

(** The two counters after a vote: [(new_hot_votes, new_not_votes)]. *)
Definition new_counters (vote_type : string) (car : Car.t) : Z * Z :=
  if String.eqb vote_type "hot"
  then (Car.hot_votes car + 1, Car.not_votes car)
  else (Car.hot_votes car, Car.not_votes car + 1).

(** [(new_hot_votes / new_total_votes * 100) if new_total_votes > 0 else 0] *)
Definition hot_percentage_of (new_hot_votes new_total_votes : Z) : result pynum :=
  if (0 <? new_total_votes)%Z
  then
    match int_truediv new_hot_votes new_total_votes with
    | Return q => Return (PyFloat (Binary64.mul q (Binary64.of_int 100)))
    | Raise e => Raise e
    end
  else Return (PyInt 0).

(** [round(x, 1)]: an int is returned as it is. *)
Definition round_1 (x : pynum) : pynum :=
  match x with
  | PyInt z => PyInt z
  | PyFloat f => PyFloat (Binary64.round1 f)
  end.

(** pydantic's validation of a [float] field. *)
Definition validate_float (x : pynum) : result float :=
  match x with
  | PyFloat f => Return f
  | PyInt z =>
      let f := Binary64.of_int z in
      if Binary64.is_infinite f
      then Raise (Exception "int too large to convert to float")
      else Return f
  end.

(** The fixed sample list of [initialize_cars]. *)
Definition sample_cars : list CarCreate.t :=
  [ CarCreate.mk "Ferrari" "488 GTB" 2020
      "https://images.unsplash.com/photo-1544636331-e26879cd4d9b?w=800&h=450&fit=crop&crop=center";
    CarCreate.mk "Lamborghini" "Huracan" 2021
      "https://images.unsplash.com/photo-1563720223185-11003d516935?w=800&h=450&fit=crop&crop=center";
    CarCreate.mk "Porsche" "911 GT3" 2022
      "https://images.unsplash.com/photo-1503376780353-7e6692767b70?w=800&h=450&fit=crop&crop=center";
    CarCreate.mk "McLaren" "720S" 2020
      "https://images.unsplash.com/photo-1558618666-fcd25c85cd64?w=800&h=450&fit=crop&crop=center";
    CarCreate.mk "Bugatti" "Chiron" 2021
      "https://images.unsplash.com/photo-1525609004556-c46c7d6cf023?w=800&h=450&fit=crop&crop=center";
    CarCreate.mk "Aston Martin" "DBS Superleggera" 2020
      "https://images.unsplash.com/photo-1570618834314-ec2ec95d4d7c?w=800&h=450&fit=crop&crop=center";
    CarCreate.mk "BMW" "M4" 2021
      "https://images.unsplash.com/photo-1555215695-3004980ad54e?w=800&h=450&fit=crop&crop=center";
    CarCreate.mk "Mercedes" "AMG GT" 2020
      "https://images.unsplash.com/photo-1563707346-8d5c8dd7e63a?w=800&h=450&fit=crop&crop=center";
    CarCreate.mk "Audi" "R8" 2021
      "https://images.unsplash.com/photo-1544636331-e26879cd4d9b?w=800&h=450&fit=crop&crop=center";
    CarCreate.mk "Tesla" "Model S Plaid" 2022
      "https://images.unsplash.com/photo-1560958089-b8a1929cea89?w=800&h=450&fit=crop&crop=center";
    CarCreate.mk "Chevrolet" "Corvette C8" 2021
      "https://images.unsplash.com/photo-1552519507-da3b142c6e3d?w=800&h=450&fit=crop&crop=center";
    CarCreate.mk "Ford" "Mustang Shelby GT500" 2020
      "https://images.unsplash.com/photo-1494976688153-d4c7c48bbcdb?w=800&h=450&fit=crop&crop=center" ].

(** [$set] of the four tally fields on a stored document. *)
Definition set_tallies (h n t : Z) (p : pynum) (c : Car.t) : Car.t :=
  Car.mk (Car.id c) (Car.make c) (Car.model c) (Car.year c) (Car.image_url c)
         h n t p (Car.created_at c).

(** The filter [{"id": car_id}]: position and value of the first match. *)
Definition first_match (car_id : string) (cs : list Car.t) : option (nat * Car.t) :=
  list_find (fun c => Car.id c = car_id) cs.

(** ** The handlers *)

Section Handlers.

Variable E : Env.

(** [str(e)] *)
Definition str_exn (e : exn) : string :=
  match e with
  | HTTPException s d => http_exception_str E s d
  | Exception msg => msg
  end.

Definition logger_error (line : string) : M unit :=
  fun w => (Return tt, record_log line w).

Definition fresh_uuid : M string :=
  fun w => (Return (uuid4 E (ticks w)), tick w).

Definition now : M datetime :=
  fun w => (Return (utcnow E (ticks w)), tick w).

(** One access to [db.cars].  The driver either raises, leaving the
    collection as it was, or performs [f] on the collection. *)
Definition db_call {A} (op : DbOp) (f : nat -> list Car.t -> A * list Car.t) : M A :=
  fun w =>
    let w1 := tick (record_db op (db_fault E (ticks w)) w) in
    match db_fault E (ticks w) with
    | Some msg => (Raise (Exception msg), w1)
    | None => let '(a, cs) := f (ticks w) (cars w) in (Return a, with_cars cs w1)
    end.

(** [db.cars.aggregate([{"$sample": {"size": 1}}]).to_list(1)] *)
Definition aggregate_sample : M (list Car.t) :=
  db_call Aggregate_sample
    (fun t cs =>
       (match cs with
        | [] => []
        | c :: _ => [nth (sample_draw E t mod length cs)%nat cs c]
        end, cs)).

(** [db.cars.find_one({"id": car_id})] *)
Definition find_one (car_id : string) : M (option Car.t) :=
  db_call (Find_one car_id)
    (fun _ cs => (option_map snd (first_match car_id cs), cs)).

(** [db.cars.update_one({"id": car_id}, {"$set": {...}})] *)
Definition update_one (car_id : string) (h n t : Z) (p : pynum) : M unit :=
  db_call (Update_one car_id h n t p)
    (fun _ cs =>
       (tt, match first_match car_id cs with
            | Some (i, c) => <[i := set_tallies h n t p c]> cs
            | None => cs
            end)).

(** [db.cars.insert_one(doc)] *)
Definition insert_one (doc : Car.t) : M unit :=
  db_call (Insert_one doc) (fun _ cs => (tt, (cs ++ [doc])%list)).

(** [db.cars.insert_many(docs)], returning [len(result.inserted_ids)] *)
Definition insert_many (docs : list Car.t) : M Z :=
  db_call (Insert_many docs) (fun _ cs => (Z.of_nat (length docs), (cs ++ docs)%list)).

(** [db.cars.count_documents({})] *)
Definition count_documents : M Z :=
  db_call Count_documents (fun _ cs => (Z.of_nat (length cs), cs)).

(** [Car] built from [car_data]: the two default factories run in field
    order. *)
Definition new_Car (d : CarCreate.t) : M Car.t :=
  i <- fresh_uuid ;;
  t <- now ;;
  ret (Car.mk i (CarCreate.make d) (CarCreate.model d) (CarCreate.year d)
              (CarCreate.image_url d) 0 0 0 (PyFloat (S754_zero false)) t).

(** [CarResponse(...)], with the validation of its float field. *)
Definition new_CarResponse (i mk md : string) (y : Z) (url : string)
           (h n t : Z) (p : pynum) : M CarResponse.t :=
  f <- lift (validate_float p) ;;
  ret (CarResponse.mk i mk md y url h n t f).

(** GET /cars/random *)
Definition get_random_car : M CarResponse.t :=
  try_except
    (cs <- aggregate_sample ;;
     match cs with
     | [] => raise (HTTPException 404 "No cars found in database")
     | car :: _ =>
         new_CarResponse (Car.id car) (Car.make car) (Car.model car)
                         (Car.year car) (Car.image_url car)
                         (Car.hot_votes car) (Car.not_votes car)
                         (Car.total_votes car) (Car.hot_percentage car)
     end)
    (fun e =>
       logger_error ("Error getting random car: " +:+ str_exn e) ;;;
       raise (HTTPException 500 "Failed to get random car")).

Definition vote_for_car_body (car_id : string) (vote_request : VoteRequest.t)
  : M VoteResponse.t :=
  if negb (existsb (String.eqb (VoteRequest.vote_type vote_request)) ["hot"; "not"])
  then raise (HTTPException 400 "Vote type must be 'hot' or 'not'")
  else
    found <- find_one car_id ;;
    match found with
    | None => raise (HTTPException 404 "Car not found")
    | Some car =>
        let '(new_hot_votes, new_not_votes) :=
          new_counters (VoteRequest.vote_type vote_request) car in
        let new_total_votes := new_hot_votes + new_not_votes in
        new_hot_percentage <-
          lift (hot_percentage_of new_hot_votes new_total_votes) ;;
        update_one car_id new_hot_votes new_not_votes new_total_votes
                   (round_1 new_hot_percentage) ;;;
        updated_car <-
          new_CarResponse (Car.id car) (Car.make car) (Car.model car)
                          (Car.year car) (Car.image_url car)
                          new_hot_votes new_not_votes new_total_votes
                          (round_1 new_hot_percentage) ;;
        ret (VoteResponse.mk true updated_car
               ("Vote recorded! This car is "
                  +:+ float_repr E (CarResponse.hot_percentage updated_car)
                  +:+ "% hot."))
    end.

(** POST /cars/{car_id}/vote.  [except HTTPException: raise] comes before
    the catch-all. *)
Definition vote_for_car (car_id : string) (vote_request : VoteRequest.t)
  : M VoteResponse.t :=
  try_except (vote_for_car_body car_id vote_request)
    (fun e =>
       match e with
       | HTTPException _ _ => raise e
       | Exception _ =>
           logger_error ("Error voting for car: " +:+ str_exn e) ;;;
           raise (HTTPException 500 "Failed to record vote")
       end).

(** POST /cars *)
Definition create_car (car_data : CarCreate.t) : M CarResponse.t :=
  try_except
    (car_obj <- new_Car car_data ;;
     insert_one car_obj ;;;
     new_CarResponse (Car.id car_obj) (Car.make car_obj) (Car.model car_obj)
                     (Car.year car_obj) (Car.image_url car_obj)
                     (Car.hot_votes car_obj) (Car.not_votes car_obj)
                     (Car.total_votes car_obj) (Car.hot_percentage car_obj))
    (fun e =>
       logger_error ("Error creating car: " +:+ str_exn e) ;;;
       raise (HTTPException 500 "Failed to create car")).

(** The loop that fills [cars_to_insert]. *)
Fixpoint cars_to_insert (ds : list CarCreate.t) : M (list Car.t) :=
  match ds with
  | [] => ret []
  | car_data :: rest =>
      car_obj <- new_Car car_data ;;
      more <- cars_to_insert rest ;;
      ret (car_obj :: more)
  end.

(** POST /cars/initialize *)
Definition initialize_cars : M InitializeResult.t :=
  try_except
    (existing_count <- count_documents ;;
     if (0 <? existing_count)%Z
     then ret (InitializeResult.mk
                 ("Database already has " +:+ str_int existing_count +:+ " cars")
                 false None)
     else
       docs <- cars_to_insert sample_cars ;;
       inserted <- insert_many docs ;;
       ret (InitializeResult.mk
              ("Successfully initialized " +:+ str_int inserted +:+ " cars")
              true (Some inserted)))
    (fun e =>
       logger_error ("Error initializing cars: " +:+ str_exn e) ;;;
       raise (HTTPException 500 "Failed to initialize cars")).

(** *** Agent routes *)

Definition get_search_agent : M (option Agent) :=
  fun w => (Return (search_agent w), w).

Definition get_chat_agent : M (option Agent) :=
  fun w => (Return (chat_agent w), w).

Definition set_search_agent (a : Agent) : M unit :=
  fun w => (Return tt, with_search_agent (Some a) w).

Definition set_chat_agent (a : Agent) : M unit :=
  fun w => (Return tt, with_chat_agent (Some a) w).

(** [SearchAgent(agent_config)] / [ChatAgent(agent_config)] *)
Definition construct (k : AgentKind) : M Agent :=
  fun w =>
    let w1 := tick (record_agent (Construct k) (agent_init E k (ticks w)) w) in
    match agent_init E k (ticks w) with
    | Some e => (Raise e, w1)
    | None => (Return (mkAgent k (ticks w)), w1)
    end.

(** [await agent.execute(message)], [use_tools] when it is passed *)
Definition execute (a : Agent) (message : string) (use_tools : option bool)
  : M AgentResponse.t :=
  fun w =>
    let r := agent_execute E a message use_tools (ticks w) in
    (r, tick (record_agent (Execute a message use_tools) (raised r) w)).

(** [agent.get_capabilities()] *)
Definition get_capabilities (a : Agent) : M (list string) :=
  fun w =>
    let r := agent_get_capabilities E a (ticks w) in
    (r, tick (record_agent (Get_capabilities a) (raised r) w)).

(** pydantic's validation of an [int] field. *)
Definition validate_int (v : pyval) : result Z :=
  match v with
  | PyNum (PyInt z) => Return z
  | _ => coerce_int E v
  end.

Definition is_none {A} (o : option A) : bool :=
  match o with None => true | Some _ => false end.

Definition chat_with_agent_body (request : ChatRequest.t) : M ChatResponse.t :=
  let agent_type := ChatRequest.agent_type request in
  sa <- get_search_agent ;;
  ca <- get_chat_agent ;;
  (if String.eqb agent_type "search" && is_none sa
   then a <- construct SearchAgent ;; set_search_agent a
   else if String.eqb agent_type "chat" && is_none ca
   then a <- construct ChatAgent ;; set_chat_agent a
   else ret tt) ;;;
  selected <- (if String.eqb agent_type "search"
               then get_search_agent else get_chat_agent) ;;
  match selected with
  | None => raise (HTTPException 500 "Failed to initialize agent")
  | Some agent =>
      response <- execute agent (ChatRequest.message request) None ;;
      capabilities <- get_capabilities agent ;;
      ret (ChatResponse.mk (AgentResponse.success response)
                           (AgentResponse.content response)
                           agent_type
                           capabilities
                           (AgentResponse.metadata response)
                           (AgentResponse.error response))
  end.

(** POST /chat *)
Definition chat_with_agent (request : ChatRequest.t) : M ChatResponse.t :=
  try_except (chat_with_agent_body request)
    (fun e =>
       logger_error ("Error in chat endpoint: " +:+ str_exn e) ;;;
       ret (ChatResponse.mk false EmptyString (ChatRequest.agent_type request) []
                            ∅ (Some (str_exn e)))).

Definition search_prompt (query : string) : string :=
  "Search for information about: " +:+ query
    +:+ ". Provide a comprehensive summary with key findings.".

Definition search_and_summarize_body (request : SearchRequest.t)
  : M SearchResponse.t :=
  sa <- get_search_agent ;;
  agent <- match sa with
           | None => a <- construct SearchAgent ;; set_search_agent a ;;; ret a
           | Some a => ret a
           end ;;
  result <- execute agent (search_prompt (SearchRequest.query request))
                    (Some true) ;;
  if AgentResponse.success result
  then
    sources_count <-
      lift (validate_int
              (default (PyNum (PyInt 0))
                       (AgentResponse.metadata result !! "tools_used"))) ;;
    ret (SearchResponse.mk true (SearchRequest.query request)
                           (AgentResponse.content result)
                           (Some (AgentResponse.metadata result))
                           sources_count None)
  else
    ret (SearchResponse.mk false (SearchRequest.query request) EmptyString
                           None 0 (AgentResponse.error result)).

(** POST /search *)
Definition search_and_summarize (request : SearchRequest.t)
  : M SearchResponse.t :=
  try_except (search_and_summarize_body request)
    (fun e =>
       logger_error ("Error in search endpoint: " +:+ str_exn e) ;;;
       ret (SearchResponse.mk false (SearchRequest.query request) EmptyString
                              None 0 (Some (str_exn e)))).

End Handlers.

(** ** The stated properties, as predicates on records *)

(** The percentage the handler stores and returns:
    [round(hot / total * 100, 1)] when [total > 0], else [round(0, 1)]. *)
Definition stored_hot_percentage (hot total : Z) : result pynum :=
  match hot_percentage_of hot total with
  | Return p => Return (round_1 p)
  | Raise e => Raise e
  end.

(** The percentage as the specification words it:
    [round(100 * hot / total, 1)] when [total > 0], else [0.0]. *)
Definition stated_hot_percentage (hot total : Z) : result pynum :=
  if (0 <? total)%Z
  then
    match int_truediv (100 * hot) total with
    | Return q => Return (PyFloat (Binary64.round1 q))
    | Raise e => Raise e
    end
  else Return (PyFloat (S754_zero false)).

(** The two invariants of a stored record, for a given percentage formula:
    [total_votes == hot_votes + not_votes], and [hot_percentage] equal
    (Python's [==]) to the formula when [total_votes > 0] and to [0.0] when
    [total_votes == 0]. *)
Definition tally_invariant (formula : Z -> Z -> result pynum) (c : Car.t) : bool :=
  (Car.total_votes c =? Car.hot_votes c + Car.not_votes c)%Z
  && (if (0 <? Car.total_votes c)%Z
      then match formula (Car.hot_votes c) (Car.total_votes c) with
           | Return p => pynum_eqb (Car.hot_percentage c) p
           | Raise _ => false
           end
      else if (Car.total_votes c =? 0)%Z
           then pynum_eqb (Car.hot_percentage c) (PyFloat (S754_zero false))
           else true).

(** Tallies [(0, 0, 0, 0.0)]. *)
Definition zero_tallies (c : Car.t) : Prop :=
  Car.hot_votes c = 0 /\ Car.not_votes c = 0 /\ Car.total_votes c = 0
  /\ Car.hot_percentage c = PyFloat (S754_zero false).

(** The four tallies of a response. *)
Definition tallies_of (r : CarResponse.t) : Z * Z * Z * float :=
  (CarResponse.hot_votes r, CarResponse.not_votes r,
   CarResponse.total_votes r, CarResponse.hot_percentage r).

(** A stored record built from sample data [d], with zero tallies. *)
Definition seeded_from (d : CarCreate.t) (c : Car.t) : Prop :=
  Car.make c = CarCreate.make d /\ Car.model c = CarCreate.model d
  /\ Car.year c = CarCreate.year d /\ Car.image_url c = CarCreate.image_url d
  /\ zero_tallies c.

(** ** Vocabulary of the statements *)

(** The stored and the stated percentage are the same double. *)
Definition same_percentage (hot total : Z) : bool :=
  match stored_hot_percentage hot total, stated_hot_percentage hot total with
  | Return (PyFloat x), Return (PyFloat y) => Binary64.same x y
  | _, _ => false
  end.

(** [same_percentage] on every [0 <= hot <= total] with [1 <= total <= n]. *)
Definition same_percentage_upto (n : nat) : bool :=
  forallb (fun t => forallb (fun h => same_percentage (Z.of_nat h) (Z.of_nat t))
                            (seq 0 (S t)))
          (seq 1 n).

(** The world after a vote has been recorded for the car at position [i]. *)
Definition after_vote (car_id : string) (i : nat) (car : Car.t)
           (h n t : Z) (p : pynum) (w : World) : World :=
  with_cars (<[i := set_tallies h n t p car]> (cars w))
            (tick (record_db (Update_one car_id h n t p) None
                             (tick (record_db (Find_one car_id) None w)))).

(** The response of a recorded vote. *)
Definition vote_response (E : Env) (car : Car.t) (h n t : Z) (f : float) : VoteResponse.t :=
  VoteResponse.mk true
    (CarResponse.mk (Car.id car) (Car.make car) (Car.model car) (Car.year car)
                    (Car.image_url car) h n t f)
    ("Vote recorded! This car is " +:+ float_repr E f +:+ "% hot.").

(** The tallies [h], [n], [t] and [pct] a vote of type [vote_type] on
    [car] answers with: one counter more, their sum, and the rounded
    percentage as the handler computes it. *)
Definition vote_tallies_spec (vote_type : string) (car : Car.t)
           (h n t : Z) (pct : float) : Prop :=
  (vote_type = "hot" -> h = Car.hot_votes car + 1 /\ n = Car.not_votes car)
  /\ (vote_type = "not" -> h = Car.hot_votes car /\ n = Car.not_votes car + 1)
  /\ t = h + n
  /\ (0 < t ->
      exists q, int_truediv h t = Return q
                /\ pct = Binary64.round1 (Binary64.mul q (Binary64.of_int 100)))
  /\ (t <= 0 -> pct = S754_zero false).

(** The stored record [c] carries the tallies of the response [r]. *)
Definition stored_tallies (c : Car.t) (r : CarResponse.t) : Prop :=
  Car.hot_votes c = CarResponse.hot_votes r
  /\ Car.not_votes c = CarResponse.not_votes r
  /\ Car.total_votes c = CarResponse.total_votes r
  /\ pynum_eqb (Car.hot_percentage c) (PyFloat (CarResponse.hot_percentage r)) = true.

(** Every stored record satisfies the two invariants. *)
Definition store_ok (formula : Z -> Z -> result pynum) (w : World) : Prop :=
  Forall (fun c => tally_invariant formula c = true) (cars w).

(** The record [Car] builds from [d] when its factories run at ticks [t]
    and [t + 1]. *)
Definition built_Car (E : Env) (d : CarCreate.t) (t : nat) : Car.t :=
  Car.mk (uuid4 E t) (CarCreate.make d) (CarCreate.model d) (CarCreate.year d)
         (CarCreate.image_url d) 0 0 0 (PyFloat (S754_zero false)) (utcnow E (S t)).

(** The response of [create_car] for the record [c]. *)
Definition created_response (c : Car.t) : CarResponse.t :=
  CarResponse.mk (Car.id c) (Car.make c) (Car.model c) (Car.year c)
                 (Car.image_url c) 0 0 0 (S754_zero false).

(** The documents the seeding loop builds from tick [t] on. *)
Fixpoint built_Cars (E : Env) (ds : list CarCreate.t) (t : nat) : list Car.t :=
  match ds with
  | [] => []
  | d :: rest => built_Car E d t :: built_Cars E rest (S (S t))
  end.

(** [k] interactions later, nothing else changed. *)
Fixpoint ticked (k : nat) (w : World) : World :=
  match k with
  | O => w
  | S k' => ticked k' (tick w)
  end.

(** The world after a successful [count_documents]. *)
Definition after_count (w : World) : World :=
  with_cars (cars w) (tick (record_db Count_documents None w)).

(** The documents [initialize_cars] inserts when it starts in [w]. *)
Definition seed_docs (E : Env) (w : World) : list Car.t :=
  built_Cars E sample_cars (S (ticks w)).

(** A computation propagates failures: whatever it adds to the two traces,
    a call that raised is the exception the computation ends with. *)
Definition propagates {A} (c : M A) : Prop :=
  forall w, exists r w' calls ops,
    c w = (r, w')
    /\ agent_trace w' = (calls ++ agent_trace w)%list
    /\ db_trace w' = (ops ++ db_trace w)%list
    /\ (forall call e, In (call, Some e) calls -> r = Raise e)
    /\ (forall op msg, In (op, Some msg) ops -> r = Raise (Exception msg)).

(** A car handler surfaces store failures: a store access that raised
    during the run makes the handler answer HTTP 500. *)
Definition surfaces_store_failures {A} (handler : M A) : Prop :=
  forall w, exists r w' ops,
    handler w = (r, w')
    /\ db_trace w' = (ops ++ db_trace w)%list
    /\ forall op msg, In (op, Some msg) ops -> http_status r = 500.

(** An agent handler contains agent failures: it always returns a response
    (HTTP 200), and an agent call that raised [e] during the run makes the
    response a failure carrying [str(e)]. *)
Definition contains_agent_failures {Req Resp} (E : Env) (handler : Req -> M Resp)
           (success : Resp -> bool) (error : Resp -> option string) : Prop :=
  forall request w, exists resp w' calls,
    handler request w = (Return resp, w')
    /\ http_status (fst (handler request w)) = 200
    /\ agent_trace w' = (calls ++ agent_trace w)%list
    /\ forall call e, In (call, Some e) calls ->
                      success resp = false /\ error resp = Some (str_exn E e).

(** The response of [chat_with_agent] when its body raised [e]. *)
Definition chat_failure (E : Env) (request : ChatRequest.t) (e : exn) : ChatResponse.t :=
  ChatResponse.mk false EmptyString (ChatRequest.agent_type request) [] ∅ (Some (str_exn E e)).

(** The response of [chat_with_agent] relaying an agent's answer. *)
Definition chat_success (request : ChatRequest.t) (response : AgentResponse.t)
           (capabilities : list string) : ChatResponse.t :=
  ChatResponse.mk (AgentResponse.success response) (AgentResponse.content response)
                  (ChatRequest.agent_type request) capabilities
                  (AgentResponse.metadata response) (AgentResponse.error response).

(** The agent a search runs on and the tick of its [execute] call, when the
    agent exists or can be constructed. *)
Definition search_call (E : Env) (w : World) : option (Agent * nat) :=
  match search_agent w with
  | Some a => Some (a, ticks w)
  | None =>
      match agent_init E SearchAgent (ticks w) with
      | None => Some (mkAgent SearchAgent (ticks w), S (ticks w))
      | Some _ => None
      end
  end.

(** ** A concrete environment and concrete worlds *)

Module Demo.

(** The decimal text of a double that carries one decimal. *)
Definition repr_one_decimal (f : float) : string :=
  match f with
  | S754_zero s => (if s then "-" else EmptyString) +:+ "0.0"
  | S754_finite s m e =>
      let k := Binary64.tenths m e in
      (if s then "-" else EmptyString) +:+ str_int (k / 10) +:+ "." +:+ str_int (k mod 10)
  | S754_infinity s => if s then "-inf" else "inf"
  | S754_nan => "nan"
  end.

(** An agent's answer: it echoes the message and reports two tool uses. *)
Definition answer (a : Agent) (message : string) : AgentResponse.t :=
  AgentResponse.mk true ("echo: " +:+ message)
                   {[ "tools_used" := PyNum (PyInt 2) ]} None.

(** A well-behaved outside: the store never fails, agents answer. *)
Definition env : Env :=
  mkEnv (fun n => "uuid-" +:+ str_int (Z.of_nat n))
        (fun n => Z.of_nat n)
        (fun _ => None)
        (fun n => n)
        (fun _ _ => None)
        (fun a message _ _ => Return (answer a message))
        (fun a _ => Return ["conversation"])
        (fun s d => str_int s +:+ ": " +:+ d)
        repr_one_decimal
        (fun _ => Raise (Exception "value is not a valid integer")).

(** The same outside with a store that fails on every access. *)
Definition env_store_down : Env :=
  mkEnv (uuid4 env) (utcnow env) (fun _ => Some "connection refused")
        (sample_draw env) (agent_init env) (agent_execute env)
        (agent_get_capabilities env) (http_exception_str env)
        (float_repr env) (coerce_int env).

(** The same outside with agents that cannot be constructed. *)
Definition env_agents_down : Env :=
  mkEnv (uuid4 env) (utcnow env) (db_fault env) (sample_draw env)
        (fun _ _ => Some (Exception "missing API key"))
        (agent_execute env) (agent_get_capabilities env)
        (http_exception_str env) (float_repr env) (coerce_int env).

(** A fresh process on an empty database. *)
Definition empty_world : World := mkWorld [] None None 0 [] [] [].

(** A stored car with the given tallies. *)
Definition car (h n t : Z) (p : pynum) : Car.t :=
  Car.mk "car-1" "Ferrari" "488 GTB" 2020 "https://example.org/488.jpg"
         h n t p 0.

(** A fresh process on a database holding [cs]. *)
Definition world_of (cs : list Car.t) : World := mkWorld cs None None 0 [] [] [].

Definition fresh_car : Car.t := car 0 0 0 (PyFloat (S754_zero false)).

Definition vote (vote_type : string) : VoteRequest.t :=
  VoteRequest.mk "car-1" vote_type.

(** The doubles written 28.7, 28.8, 50.0 and 100.0. *)
Definition f28_7 : float := Binary64.of_tenths false 287.
Definition f28_8 : float := Binary64.of_tenths false 288.
Definition f50_0 : float := Binary64.of_int 50.
Definition f100_0 : float := Binary64.of_int 100.

End Demo.

(** ** The remaining routes

    The capability route of the agents, and the two status routes, which
    work on the second collection of the database, [db.status_checks]. *)

Module StatusCheck.
Record t := mk {
  id : string;
  client_name : string;
  timestamp : datetime
}.
End StatusCheck.

Module StatusCheckCreate.
Record t := mk {
  client_name : string
}.
End StatusCheckCreate.

(** The sub-dict [capabilities] of the capability route. *)
Module Capabilities.
Record t := mk {
  search_agent : list string;
  chat_agent : list string
}.
End Capabilities.

(** The dict returned by [get_agent_capabilities]: [capabilities] on
    success, [error] on failure. *)
Module CapabilitiesResult.
Record t := mk {
  success : bool;
  capabilities : option Capabilities.t;
  error : option string
}.
End CapabilitiesResult.

(** Accesses to [db.status_checks]. *)
Inductive StatusOp :=
| Status_insert_one (doc : StatusCheck.t)
| Status_find (limit : nat).

(** The process and its database with both collections. *)
Record Site := mkSite {
  car_side : World;                    (* db.cars, agents, clock, log *)
  status_checks : list StatusCheck.t;  (* db.status_checks, natural order *)
  status_trace : list (StatusOp * option string)
}.

(** Handlers that also reach [db.status_checks]. *)
Definition MS (A : Type) : Type := Site -> result A * Site.

Definition bindS {A B} (c : MS A) (k : A -> MS B) : MS B :=
  fun s =>
    match c s with
    | (Return a, s') => k a s'
    | (Raise e, s') => (Raise e, s')
    end.

Definition retS {A} (a : A) : MS A := fun s => (Return a, s).

(** A computation on the car side, run inside a site. *)
Definition on_car_side {A} (c : M A) : MS A :=
  fun s =>
    let '(r, w') := c (car_side s) in
    (r, mkSite w' (status_checks s) (status_trace s)).

Section MoreHandlers.

Variable E : Env.

(** What the database keeps of a [datetime] (BSON dates have millisecond
    precision). *)
Variable bson_datetime : datetime -> datetime.

(** GET /agents/capabilities.  The two entries of the dict display are
    evaluated in order, each on an agent constructed for this call. *)
Definition get_agent_capabilities : M CapabilitiesResult.t :=
  try_except
    (sa <- construct E SearchAgent ;;
     search_capabilities <- get_capabilities E sa ;;
     ca <- construct E ChatAgent ;;
     chat_capabilities <- get_capabilities E ca ;;
     ret (CapabilitiesResult.mk
            true
            (Some (Capabilities.mk search_capabilities chat_capabilities))
            None))
    (fun e =>
       logger_error ("Error getting capabilities: " +:+ str_exn E e) ;;;
       ret (CapabilitiesResult.mk false None (Some (str_exn E e)))).

(** One access to [db.status_checks]; the driver raises as for
    [db.cars]. *)
Definition status_call {A} (op : StatusOp)
           (f : list StatusCheck.t -> A * list StatusCheck.t) : MS A :=
  fun s =>
    let w := car_side s in
    let trace := (op, db_fault E (ticks w)) :: status_trace s in
    match db_fault E (ticks w) with
    | Some msg => (Raise (Exception msg), mkSite (tick w) (status_checks s) trace)
    | None =>
        let '(a, docs) := f (status_checks s) in
        (Return a, mkSite (tick w) docs trace)
    end.

(** [StatusCheck] built from the request: id, then timestamp. *)
Definition new_StatusCheck (input : StatusCheckCreate.t) : MS StatusCheck.t :=
  bindS (on_car_side (fresh_uuid E)) (fun i =>
  bindS (on_car_side (now E)) (fun t =>
  retS (StatusCheck.mk i (StatusCheckCreate.client_name input) t))).

(** The document [status_obj.dict()] as the collection holds it. *)
Definition stored_StatusCheck (status_obj : StatusCheck.t) : StatusCheck.t :=
  StatusCheck.mk (StatusCheck.id status_obj) (StatusCheck.client_name status_obj)
                 (bson_datetime (StatusCheck.timestamp status_obj)).

(** POST /status.  There is no [try]: what the driver raises leaves the
    handler as it is. *)
Definition create_status_check (input : StatusCheckCreate.t) : MS StatusCheck.t :=
  bindS (new_StatusCheck input) (fun status_obj =>
  bindS (status_call (Status_insert_one status_obj)
                     (fun docs => (tt, (docs ++ [stored_StatusCheck status_obj])%list)))
        (fun _ =>
  retS status_obj)).

(** GET /status: [find().to_list(1000)], each document read back as a
    [StatusCheck]. *)
Definition get_status_checks : MS (list StatusCheck.t) :=
  status_call (Status_find 1000) (fun docs => (firstn 1000 docs, docs)).

End MoreHandlers.

(** ** More vocabulary *)

(** The view of a stored car that the car routes answer with, when its
    percentage validates as the float [f]. *)
Definition view_of (c : Car.t) (f : float) : CarResponse.t :=
  CarResponse.mk (Car.id c) (Car.make c) (Car.model c) (Car.year c)
                 (Car.image_url c) (Car.hot_votes c) (Car.not_votes c)
                 (Car.total_votes c) f.

(** A computation leaves the observation [f] of the world as it was. *)
Definition keeps {A X} (f : World -> X) (c : M A) : Prop :=
  forall w, f (snd (c w)) = f w.

(** The world after the votes [votes] on [car_id], one request after the
    other. *)
Fixpoint cast_votes (E : Env) (car_id : string) (votes : list VoteRequest.t)
         (w : World) : World :=
  match votes with
  | [] => w
  | v :: rest => cast_votes E car_id rest (snd (vote_for_car E car_id v w))
  end.

(** How many of the votes are of type [vote_type]. *)
Definition votes_of_type (vote_type : string) (votes : list VoteRequest.t) : Z :=
  Z.of_nat (length (filter (fun v => VoteRequest.vote_type v = vote_type) votes)).

(** The store never fails. *)
Definition store_answers (E : Env) : Prop := forall t, db_fault E t = None.

(** A fresh process on a database with empty collections. *)
Definition empty_site : Site := mkSite Demo.empty_world [] [].

(** A site whose status collection already holds [n] documents. *)
Definition full_site (n : nat) : Site :=
  mkSite Demo.empty_world
         (repeat (StatusCheck.mk "status-0" "boot" 0) n) [].

(** ** Vocabulary of the further properties *)

(** The observations of the agent side, and those of the store. *)
Definition agent_side (w : World) :=
  (search_agent w, chat_agent w, agent_trace w).

Definition store_side (w : World) :=
  (cars w, db_trace w).

(** The position [$sample] draws at in [w]. *)
Definition drawn_position (E : Env) (w : World) : nat :=
  (sample_draw E (ticks w) mod length (cars w))%nat.

(** The stored cars carry pairwise distinct ids. *)
Definition unique_ids (w : World) : Prop := NoDup (map Car.id (cars w)).

(** The global slot a chat request selects. *)
Definition selected_agent (request : ChatRequest.t) (w : World) : option Agent :=
  if String.eqb (ChatRequest.agent_type request) "search"
  then search_agent w else chat_agent w.

(** The calls [calls], latest first, are an [execute] on [a] with
    [message], followed by nothing but [get_capabilities] on [a]. *)
Definition runs_on (a : Agent) (message : string) (use_tools : option bool)
           (calls : list (AgentCall * option exn)) : Prop :=
  exists later outcome,
    calls = (later ++ [(Execute a message use_tools, outcome)])%list
    /\ forall call o, In (call, o) later -> call = Get_capabilities a.

(** [chat_with_agent] from the [execute] call on, once the agent [a] is
    selected. *)
Definition relay_chat (E : Env) (request : ChatRequest.t) (a : Agent) : M ChatResponse.t :=
  try_except
    (response <- execute E a (ChatRequest.message request) None ;;
     capabilities <- get_capabilities E a ;;
     ret (chat_success request response capabilities))
    (fun e =>
       logger_error ("Error in chat endpoint: " +:+ str_exn E e) ;;;
       ret (chat_failure E request e)).

(** [search_and_summarize] from the [execute] call on. *)
Definition relay_search (E : Env) (request : SearchRequest.t) (a : Agent)
  : M SearchResponse.t :=
  try_except
    (result <- execute E a (search_prompt (SearchRequest.query request)) (Some true) ;;
     if AgentResponse.success result
     then
       sources_count <-
         lift (validate_int E
                 (default (PyNum (PyInt 0))
                          (AgentResponse.metadata result !! "tools_used"))) ;;
       ret (SearchResponse.mk true (SearchRequest.query request)
                              (AgentResponse.content result)
                              (Some (AgentResponse.metadata result))
                              sources_count None)
     else
       ret (SearchResponse.mk false (SearchRequest.query request) EmptyString
                              None 0 (AgentResponse.error result)))
    (fun e =>
       logger_error ("Error in search endpoint: " +:+ str_exn E e) ;;;
       ret (SearchResponse.mk false (SearchRequest.query request) EmptyString
                              None 0 (Some (str_exn E e)))).

(** The world after a successful construction of an agent of kind [k],
    before it is stored. *)
Definition constructed (k : AgentKind) (w : World) : World :=
  tick (record_agent (Construct k) None w).

(** What [sources_count] is read from. *)
Definition tools_used (result : AgentResponse.t) : pyval :=
  default (PyNum (PyInt 0)) (AgentResponse.metadata result !! "tools_used").

(** The agent class a chat request of this type constructs on first use. *)
Definition kind_of (agent_type : string) : option AgentKind :=
  if String.eqb agent_type "search" then Some SearchAgent
  else if String.eqb agent_type "chat" then Some ChatAgent
  else None.

Definition slot (k : AgentKind) (w : World) : option Agent :=
  match k with
  | SearchAgent => search_agent w
  | ChatAgent => chat_agent w
  end.

Definition other_slot (k : AgentKind) (w : World) : option Agent :=
  match k with
  | SearchAgent => chat_agent w
  | ChatAgent => search_agent w
  end.

(** The response of the capability route when an exception was caught. *)
Definition capabilities_failure (E : Env) (e : exn) : CapabilitiesResult.t :=
  CapabilitiesResult.mk false None (Some (str_exn E e)).

(** The [StatusCheck] that POST /status builds in [s]. *)
Definition built_StatusCheck (E : Env) (input : StatusCheckCreate.t) (s : Site)
  : StatusCheck.t :=
  StatusCheck.mk (uuid4 E (ticks (car_side s)))
                 (StatusCheckCreate.client_name input)
                 (utcnow E (S (ticks (car_side s)))).

(** ** Facts on binary64 rounding

    The handlers divide, multiply and round doubles.  The lemmas below show
    that these operations stay within the finite doubles on the counters of
    the data model, and never produce a nan. *)

Section BinaryRounding.

Import Binary64.

Lemma iter_pos_invariant {A} (f : A -> A) (P : A -> Prop) :
  (forall x, P x -> P (f x)) -> forall p x, P x -> P (SpecFloat.iter_pos f p x).
Proof.
  intros Hf p. induction p as [p IH | p IH | ]; intros x Hx; simpl; auto.
Qed.

Lemma shr_1_bounds (r : shr_record) :
  0 <= shr_m r -> 0 <= shr_m (shr_1 r) <= shr_m r.
Proof.
  destruct r as [m r s]. simpl. intros Hm.
  destruct m as [ | [p | p | ] | p ]; simpl; lia.
Qed.

Lemma shr_bounds (r : shr_record) (e n : Z) :
  0 <= shr_m r -> 0 <= shr_m (fst (shr r e n)) <= shr_m r.
Proof.
  intros Hm. destruct n as [ | p | p ]; simpl; try lia.
  apply (iter_pos_invariant shr_1 (fun x => 0 <= shr_m x <= shr_m r)); [ | lia].
  intros x Hx. pose proof (shr_1_bounds x). lia.
Qed.

Lemma shr_exponent (r : shr_record) (e n : Z) :
  snd (shr r e n) = Z.max e (e + n).
Proof. destruct n; simpl; lia. Qed.

Lemma shr_record_of_loc_m (m : Z) (l : location) :
  shr_m (shr_record_of_loc m l) = m.
Proof. destruct l as [ | [ | | ]]; reflexivity. Qed.

Lemma shr_fexp_bounds (m e : Z) (l : location) :
  0 <= m -> 0 <= shr_m (fst (shr_fexp prec emax m e l)) <= m.
Proof.
  intros Hm. unfold shr_fexp.
  pose proof (shr_bounds (shr_record_of_loc m l) e
                (fexp prec emax (Zdigits2 m + e) - e)) as H.
  rewrite shr_record_of_loc_m in H. auto.
Qed.

Lemma shr_fexp_exponent (m e : Z) (l : location) :
  snd (shr_fexp prec emax m e l) = Z.max e (fexp prec emax (Zdigits2 m + e)).
Proof. unfold shr_fexp. rewrite shr_exponent. lia. Qed.

Lemma round_nearest_even_bounds (m : Z) (l : location) :
  0 <= m -> 0 <= round_nearest_even m l <= m + 1.
Proof.
  intros Hm. destruct l as [ | [ | | ]]; simpl; try lia.
  destruct (Z.even m); lia.
Qed.

(** Rounding a non-negative mantissa never produces a nan. *)
Lemma binary_round_aux_not_nan (s : bool) (mx ex : Z) (lx : location) :
  0 <= mx -> binary_round_aux prec emax s mx ex lx <> S754_nan.
Proof.
  intros Hm. unfold binary_round_aux.
  pose proof (shr_fexp_bounds mx ex lx Hm) as H1.
  destruct (shr_fexp prec emax mx ex lx) as [mrs1 e1]. simpl in H1.
  pose proof (round_nearest_even_bounds (shr_m mrs1) (loc_of_shr_record mrs1)) as H2.
  pose proof (shr_fexp_bounds
                (round_nearest_even (shr_m mrs1) (loc_of_shr_record mrs1))
                e1 loc_Exact) as H3.
  destruct (shr_fexp prec emax _ e1 loc_Exact) as [mrs2 e2]. simpl in H3.
  destruct (shr_m mrs2) as [ | p | p ]; try discriminate.
  - destruct (e2 <=? emax - prec); discriminate.
  - lia.
Qed.

Lemma digits2_pos_size (p : positive) : digits2_pos p = Pos.size p.
Proof. induction p; simpl; congruence. Qed.

Lemma Zdigits2_log2 (m : Z) : 0 < m -> Zdigits2 m = Z.log2 m + 1.
Proof.
  destruct m as [ | p | p ]; try lia. intros _. simpl.
  rewrite digits2_pos_size. destruct p; simpl; lia.
Qed.

Lemma Zdigits2_nonneg (m : Z) : 0 <= Zdigits2 m.
Proof. destruct m; simpl; lia. Qed.

Lemma Zdigits2_le (a b : Z) : 0 <= a <= b -> Zdigits2 a <= Zdigits2 b.
Proof.
  intros H. destruct (Z.eq_dec a 0) as [-> | Ha].
  - apply Zdigits2_nonneg.
  - rewrite !Zdigits2_log2 by lia.
    pose proof (Z.log2_le_mono a b). lia.
Qed.

Lemma Zdigits2_bound (m k : Z) : 0 <= k -> 0 <= m < 2 ^ k -> Zdigits2 m <= k.
Proof.
  intros Hk H. destruct (Z.eq_dec m 0) as [-> | Hm]; [simpl; lia | ].
  rewrite Zdigits2_log2 by lia.
  assert (Z.log2 m < k) by (apply Z.log2_lt_pow2; lia). lia.
Qed.

Lemma fexp_le (x y : Z) : x <= y -> fexp prec emax x <= fexp prec emax y.
Proof. unfold fexp, emin, prec, emax. lia. Qed.

(** A sufficient condition for a rounding not to overflow. *)
Lemma binary_round_aux_finite (s : bool) (mx ex : Z) (lx : location) (D B : Z) :
  0 <= mx -> Zdigits2 (mx + 1) <= D ->
  ex <= B -> fexp prec emax (D + ex) <= B ->
  B <= emax - prec -> D + B <= emax ->
  is_infinite (binary_round_aux prec emax s mx ex lx) = false.
Proof.
  intros Hm HD Hex Hf HB HDB. unfold binary_round_aux.
  pose proof (shr_fexp_bounds mx ex lx Hm) as H1.
  pose proof (shr_fexp_exponent mx ex lx) as E1.
  destruct (shr_fexp prec emax mx ex lx) as [mrs1 e1]. simpl in H1, E1.
  pose proof (round_nearest_even_bounds (shr_m mrs1) (loc_of_shr_record mrs1)) as H2.
  set (m1 := round_nearest_even (shr_m mrs1) (loc_of_shr_record mrs1)) in *.
  pose proof (shr_fexp_exponent m1 e1 loc_Exact) as E2.
  destruct (shr_fexp prec emax m1 e1 loc_Exact) as [mrs2 e2]. simpl in E2.
  destruct (shr_m mrs2) as [ | p | p ]; try reflexivity.
  assert (Zdigits2 mx <= D).
  { pose proof (Zdigits2_le mx (mx + 1)). lia. }
  assert (Zdigits2 m1 <= D).
  { pose proof (Zdigits2_le m1 (mx + 1)). lia. }
  assert (e1 <= B).
  { pose proof (fexp_le (Zdigits2 mx + ex) (D + ex)). lia. }
  assert (fexp prec emax (Zdigits2 m1 + e1) <= emax - prec).
  { pose proof (fexp_le (Zdigits2 m1 + e1) emax).
    unfold fexp, emin, prec, emax in *. lia. }
  destruct (Z.leb_spec e2 (emax - prec)); [reflexivity | lia].
Qed.

Lemma SFdiv_core_binary_spec (m1 e1 m2 e2 : Z) :
  exists m' e',
    e' = Z.min (fexp prec emax (Zdigits2 m1 + e1 - (Zdigits2 m2 + e2))) (e1 - e2)
    /\ m' = match e1 - e2 - e' with
            | Zpos _ => Z.shiftl m1 (e1 - e2 - e')
            | Z0 => m1
            | Zneg _ => 0
            end
    /\ SFdiv_core_binary prec emax m1 e1 m2 e2
       = (m' / m2, e', new_location m2 (m' mod m2)).
Proof.
  eexists. eexists. split; [reflexivity | ]. split; [reflexivity | ].
  unfold SFdiv_core_binary, Z.div, Z.modulo.
  destruct (Z.div_eucl _ m2). reflexivity.
Qed.

Lemma SFdiv_core_binary_nonneg (m1 e1 m2 e2 : Z) :
  0 <= m1 -> 0 < m2 ->
  0 <= fst (fst (SFdiv_core_binary prec emax m1 e1 m2 e2)).
Proof.
  intros H1 H2.
  destruct (SFdiv_core_binary_spec m1 e1 m2 e2) as (m' & e' & _ & Hm & ->).
  simpl. apply Z.div_pos; [ | lia].
  subst m'. destruct (e1 - e2 - e'); try lia.
  apply Z.shiftl_nonneg. lia.
Qed.

(** The quotient of two finite doubles is never a nan. *)
Lemma SFdiv_finite_not_nan (sx sy : bool) (mx my : positive) (ex ey : Z) :
  SFdiv prec emax (S754_finite sx mx ex) (S754_finite sy my ey) <> S754_nan.
Proof.
  unfold SFdiv.
  pose proof (SFdiv_core_binary_nonneg (Zpos mx) ex (Zpos my) ey) as H.
  destruct (SFdiv_core_binary prec emax (Zpos mx) ex (Zpos my) ey) as [[mz ez] lz].
  simpl in H. apply binary_round_aux_not_nan. lia.
Qed.

(** The quotient of two positive ints [a <= b] does not overflow. *)
Lemma SFdiv_operands_finite (a b : positive) :
  (a <= b)%positive ->
  is_infinite (SFdiv prec emax (S754_finite false a 0) (S754_finite false b 0))
  = false.
Proof.
  intros Hab. unfold SFdiv.
  destruct (SFdiv_core_binary_spec (Zpos a) 0 (Zpos b) 0) as (m' & e' & He & Hm & ->).
  assert (Hd : Zdigits2 (Zpos a) <= Zdigits2 (Zpos b)) by (apply Zdigits2_le; lia).
  assert (He' : -1074 <= e' <= -53).
  { subst e'. unfold fexp, emin, prec, emax. lia. }
  assert (Hm' : m' = Zpos a * 2 ^ (- e')).
  { subst m'. replace (0 - 0 - e') with (- e') by lia.
    destruct (- e') eqn:Hs; try lia. rewrite Z.shiftl_mul_pow2; lia. }
  assert (Hq : 0 <= m' / Zpos b <= 2 ^ (- e')).
  { split.
    - apply Z.div_pos; lia.
    - apply Z.div_le_upper_bound; [lia | ]. subst m'. nia. }
  assert (Hp : 2 <= 2 ^ (- e')).
  { change 2 with (2 ^ 1) at 1. apply Z.pow_le_mono_r; lia. }
  apply (binary_round_aux_finite _ _ _ _ (- e' + 1) (- 52)).
  - lia.
  - apply Zdigits2_bound; [lia | ].
    rewrite Z.pow_add_r by lia. lia.
  - lia.
  - replace (- e' + 1 + e') with 1 by lia.
    unfold fexp, emin, prec, emax. lia.
  - unfold prec, emax. lia.
  - unfold emax. lia.
Qed.

End BinaryRounding.

(** The division of the handler succeeds on the counters of the data
    model. *)
Lemma int_truediv_total (a b : Z) :
  0 <= a <= b -> 0 < b -> exists q, int_truediv a b = Return q.
Proof.
  intros Ha Hb. unfold int_truediv.
  destruct (Z.eqb_spec b 0) as [-> | _]; [lia | ].
  destruct b as [ | pb | pb ]; try lia.
  destruct a as [ | pa | pa ]; try lia.
  - simpl. eauto.
  - simpl Binary64.operand.
    rewrite SFdiv_operands_finite by lia. eauto.
Qed.

Lemma int_truediv_not_nan (a b : Z) (q : float) :
  int_truediv a b = Return q -> q <> S754_nan.
Proof.
  unfold int_truediv.
  destruct (Z.eqb_spec b 0) as [-> | Hb]; [discriminate | ].
  destruct (Binary64.is_infinite _) eqn:Hi; [discriminate | ].
  intros [= <-].
  destruct a, b; cbv [Binary64.operand]; try congruence;
    first [apply SFdiv_finite_not_nan | discriminate].
Qed.

Lemma of_tenths_not_nan (s : bool) (k : Z) : Binary64.of_tenths s k <> S754_nan.
Proof.
  destruct k; simpl; try discriminate. apply SFdiv_finite_not_nan.
Qed.

Lemma round1_not_nan (x : float) : x <> S754_nan -> Binary64.round1 x <> S754_nan.
Proof.
  destruct x; simpl; auto. intros _. apply of_tenths_not_nan.
Qed.

Lemma mul_100_not_nan (q : float) :
  q <> S754_nan -> Binary64.mul q (Binary64.of_int 100) <> S754_nan.
Proof.
  intros Hq.
  change (Binary64.of_int 100) with (S754_finite false 7036874417766400 (-46)).
  destruct q; simpl; try discriminate; try congruence.
  apply binary_round_aux_not_nan. lia.
Qed.

Lemma SFeqb_refl (x : float) : x <> S754_nan -> SFeqb x x = true.
Proof.
  unfold SFeqb. destruct x as [ s | s | | s m e ]; simpl; try congruence.
  - destruct s; reflexivity.
  - rewrite Z.compare_refl, Pos.compare_cont_refl. destruct s; reflexivity.
Qed.

(** What the handler stores is a number equal to itself. *)
Lemma stored_hot_percentage_eq (h t : Z) (p : pynum) :
  stored_hot_percentage h t = Return p -> pynum_eqb p p = true.
Proof.
  unfold stored_hot_percentage, hot_percentage_of.
  destruct (0 <? t).
  - destruct (int_truediv h t) as [q | e] eqn:Hq; [ | discriminate].
    intros [= <-]. simpl. apply SFeqb_refl, round1_not_nan, mul_100_not_nan.
    eapply int_truediv_not_nan; eauto.
  - intros [= <-]. reflexivity.
Qed.

(** ** Where the two percentage formulas agree *)

Lemma same_eq (x y : float) : Binary64.same x y = true -> x = y.
Proof.
  destruct x as [s | s | | s m e], y as [s' | s' | | s' m' e']; simpl; try discriminate.
  - intros H. apply Bool.eqb_prop in H. congruence.
  - intros H. apply Bool.eqb_prop in H. congruence.
  - reflexivity.
  - rewrite !andb_true_iff. intros [[Hs Hm] He].
    apply Bool.eqb_prop in Hs. apply Pos.eqb_eq in Hm. apply Z.eqb_eq in He.
    congruence.
Qed.

Lemma same_percentage_eq (hot total : Z) :
  same_percentage hot total = true ->
  stored_hot_percentage hot total = stated_hot_percentage hot total.
Proof.
  unfold same_percentage.
  destruct (stored_hot_percentage hot total) as [[z | x] | e]; try discriminate.
  destruct (stated_hot_percentage hot total) as [[z | y] | e]; try discriminate.
  intros H. apply same_eq in H. congruence.
Qed.

Lemma same_percentage_upto_spec (n : nat) (hot total : Z) :
  same_percentage_upto n = true ->
  0 <= hot <= total -> 0 < total <= Z.of_nat n ->
  same_percentage hot total = true.
Proof.
  unfold same_percentage_upto. intros Hall Hh Ht.
  rewrite forallb_forall in Hall.
  specialize (Hall (Z.to_nat total)). rewrite in_seq in Hall.
  assert (Hin : (1 <= Z.to_nat total < 1 + n)%nat) by lia.
  specialize (Hall Hin). rewrite forallb_forall in Hall.
  specialize (Hall (Z.to_nat hot)). rewrite in_seq in Hall.
  assert (Hin' : (0 <= Z.to_nat hot < 0 + S (Z.to_nat total))%nat) by lia.
  specialize (Hall Hin'). rewrite !Z2Nat.id in Hall by lia. exact Hall.
Qed.

(** Below 80 votes the wording of the specification and the code agree;
    80 is the first total at which they differ. *)
Lemma stated_percentage_below_80 (hot total : Z) :
  0 <= hot <= total -> 0 < total < 80 ->
  stored_hot_percentage hot total = stated_hot_percentage hot total.
Proof.
  intros Hh Ht. apply same_percentage_eq.
  apply (same_percentage_upto_spec 79); [vm_compute; reflexivity | lia | lia].
Qed.

(** ** Running the primitive operations *)

Lemma db_call_ok {A} (E : Env) (op : DbOp) (f : nat -> list Car.t -> A * list Car.t) (w : World) :
  db_fault E (ticks w) = None ->
  db_call E op f w
  = (Return (fst (f (ticks w) (cars w))),
     with_cars (snd (f (ticks w) (cars w))) (tick (record_db op None w))).
Proof.
  intros H. unfold db_call. rewrite H. destruct (f (ticks w) (cars w)). reflexivity.
Qed.

Lemma db_call_fault {A} (E : Env) (op : DbOp) (f : nat -> list Car.t -> A * list Car.t)
      (w : World) (msg : string) :
  db_fault E (ticks w) = Some msg ->
  db_call E op f w = (Raise (Exception msg), tick (record_db op (Some msg) w)).
Proof. intros H. unfold db_call. rewrite H. reflexivity. Qed.

Lemma vote_type_check (vt : string) :
  existsb (String.eqb vt) ["hot"; "not"] = true <-> vt = "hot" \/ vt = "not".
Proof.
  simpl. rewrite orb_false_r, orb_true_iff, !String.eqb_eq. tauto.
Qed.

Lemma first_match_none (car_id : string) (cs : list Car.t) :
  first_match car_id cs = None <-> (forall c, In c cs -> Car.id c <> car_id).
Proof.
  unfold first_match. rewrite list_find_None, Forall_forall.
  split; intros H c Hc; apply H; [apply list_elem_of_In | apply list_elem_of_In in Hc]; auto.
Qed.

(** C3.  A vote whose [vote_type] is neither "hot" nor "not" is refused
    with HTTP 400: [vote_for_car] raises the [HTTPException] and leaves
    the world exactly as it found it, so the store has been neither read
    nor written (the trace of store accesses has not grown) when the
    validation fails. *)
Theorem vote_invalid_type_rejected (E : Env) (car_id : string)
        (vote_request : VoteRequest.t) (w : World) :
  VoteRequest.vote_type vote_request <> "hot" ->
  VoteRequest.vote_type vote_request <> "not" ->
  vote_for_car E car_id vote_request w
  = (Raise (HTTPException 400 "Vote type must be 'hot' or 'not'"), w)
  /\ http_status (fst (vote_for_car E car_id vote_request w)) = 400
  /\ db_trace (snd (vote_for_car E car_id vote_request w)) = db_trace w
  /\ cars (snd (vote_for_car E car_id vote_request w)) = cars w.
Proof.
  intros Hh Hn.
  assert (Hrun : vote_for_car E car_id vote_request w
                 = (Raise (HTTPException 400 "Vote type must be 'hot' or 'not'"), w)).
  { unfold vote_for_car, try_except, vote_for_car_body.
    destruct (existsb _ _) eqn:Hv.
    - apply vote_type_check in Hv. tauto.
    - reflexivity. }
  rewrite Hrun. auto.
Qed.

Lemma vote_invalid_type_rejected_witness :
  vote_for_car Demo.env "car-1" (Demo.vote "meh") (Demo.world_of [Demo.fresh_car])
  = (Raise (HTTPException 400 "Vote type must be 'hot' or 'not'"),
     Demo.world_of [Demo.fresh_car]).
Proof.
  apply (vote_invalid_type_rejected Demo.env "car-1" (Demo.vote "meh")).
  - simpl. discriminate.
  - simpl. discriminate.
Defined.

Lemma vote_for_car_absent_run (E : Env) (car_id : string)
      (vote_request : VoteRequest.t) (w : World) :
  In (VoteRequest.vote_type vote_request) ["hot"; "not"] ->
  first_match car_id (cars w) = None ->
  db_fault E (ticks w) = None ->
  vote_for_car E car_id vote_request w
  = (Raise (HTTPException 404 "Car not found"),
     tick (record_db (Find_one car_id) None w)).
Proof.
  intros Hv Habsent Hf.
  assert (Hc : existsb (String.eqb (VoteRequest.vote_type vote_request)) ["hot"; "not"] = true).
  { apply vote_type_check. simpl in Hv. intuition. }
  unfold vote_for_car, try_except, vote_for_car_body. rewrite Hc. simpl (negb _). cbv iota.
  unfold bind at 1. unfold find_one. rewrite db_call_ok by assumption.
  simpl. rewrite Habsent. simpl. destruct w; reflexivity.
Qed.

Lemma vote_for_car_lookup_fault_run (E : Env) (car_id : string)
      (vote_request : VoteRequest.t) (w : World) (msg : string) :
  In (VoteRequest.vote_type vote_request) ["hot"; "not"] ->
  db_fault E (ticks w) = Some msg ->
  vote_for_car E car_id vote_request w
  = (Raise (HTTPException 500 "Failed to record vote"),
     record_log ("Error voting for car: " +:+ msg)
                (tick (record_db (Find_one car_id) (Some msg) w))).
Proof.
  intros Hv Hf.
  assert (Hc : existsb (String.eqb (VoteRequest.vote_type vote_request)) ["hot"; "not"] = true).
  { apply vote_type_check. simpl in Hv. intuition. }
  unfold vote_for_car, try_except, vote_for_car_body. rewrite Hc. simpl (negb _). cbv iota.
  unfold bind at 1. unfold find_one. rewrite (db_call_fault _ _ _ _ msg) by assumption.
  reflexivity.
Qed.

(** C4.  A vote with a valid [vote_type] on a [car_id] that no stored
    car carries never changes the collection; when the lookup itself
    succeeds, the handler answers HTTP 404 "Car not found" and the one
    store access of the run is that lookup, a read. *)
Theorem vote_unknown_car_not_found (E : Env) (car_id : string)
        (vote_request : VoteRequest.t) (w : World) :
  In (VoteRequest.vote_type vote_request) ["hot"; "not"] ->
  (forall c, In c (cars w) -> Car.id c <> car_id) ->
  cars (snd (vote_for_car E car_id vote_request w)) = cars w
  /\ (db_fault E (ticks w) = None ->
      fst (vote_for_car E car_id vote_request w)
      = Raise (HTTPException 404 "Car not found")
      /\ http_status (fst (vote_for_car E car_id vote_request w)) = 404
      /\ db_trace (snd (vote_for_car E car_id vote_request w))
         = (Find_one car_id, None) :: db_trace w).
Proof.
  intros Hv Habsent. apply first_match_none in Habsent.
  destruct (db_fault E (ticks w)) as [msg | ] eqn:Hf.
  - rewrite (vote_for_car_lookup_fault_run E car_id vote_request w msg) by assumption.
    split; [reflexivity | discriminate].
  - rewrite vote_for_car_absent_run by assumption.
    split; [reflexivity | ]. intros _. auto.
Qed.

Lemma vote_unknown_car_not_found_witness :
  cars (snd (vote_for_car Demo.env "car-2" (Demo.vote "hot")
                          (Demo.world_of [Demo.fresh_car])))
  = [Demo.fresh_car]
  /\ fst (vote_for_car Demo.env "car-2" (Demo.vote "hot")
                       (Demo.world_of [Demo.fresh_car]))
     = Raise (HTTPException 404 "Car not found").
Proof.
  destruct (vote_unknown_car_not_found Demo.env "car-2" (Demo.vote "hot")
              (Demo.world_of [Demo.fresh_car])) as [Hcars Hnf].
  - simpl. auto.
  - simpl. intros c [<- | []]. simpl. discriminate.
  - split; [exact Hcars | ]. apply Hnf. reflexivity.
Defined.

Lemma vote_for_car_run (E : Env) (car_id : string) (vote_request : VoteRequest.t)
      (w : World) (i : nat) (car : Car.t) (p : pynum) (f : float) :
  let vt := VoteRequest.vote_type vote_request in
  let h := fst (new_counters vt car) in
  let n := snd (new_counters vt car) in
  In vt ["hot"; "not"] ->
  first_match car_id (cars w) = Some (i, car) ->
  db_fault E (ticks w) = None ->
  db_fault E (S (ticks w)) = None ->
  hot_percentage_of h (h + n) = Return p ->
  validate_float (round_1 p) = Return f ->
  vote_for_car E car_id vote_request w
  = (Return (vote_response E car h n (h + n) f),
     after_vote car_id i car h n (h + n) (round_1 p) w).
Proof.
  intros vt h n Hv Hfound Hf1 Hf2 Hp Hfl.
  assert (Hc : existsb (String.eqb vt) ["hot"; "not"] = true).
  { apply vote_type_check. simpl in Hv. intuition. }
  unfold vote_for_car, try_except, vote_for_car_body. fold vt. rewrite Hc.
  cbn [negb]. unfold bind at 1. unfold find_one. rewrite db_call_ok by assumption.
  rewrite Hfound. cbn [fst snd option_map].
  destruct (new_counters vt car) as [h' n'] eqn:Hnc. subst h n. cbn [fst snd] in *.
  unfold bind at 1. unfold lift at 1. rewrite Hp.
  unfold bind at 1. unfold update_one. rewrite db_call_ok by (simpl; assumption).
  cbn [fst snd].
  unfold bind at 1. unfold new_CarResponse. unfold bind at 1. unfold lift at 1.
  rewrite Hfl. unfold ret. simpl cars. rewrite Hfound.
  reflexivity.
Qed.

Lemma vote_type_valid (vt : string) :
  In vt ["hot"; "not"] -> existsb (String.eqb vt) ["hot"; "not"] = true.
Proof. intros H. apply vote_type_check. simpl in H. intuition. Qed.

Ltac vote_prefix Hv Hfound Hf1 :=
  unfold vote_for_car, try_except, vote_for_car_body;
  rewrite (vote_type_valid _ Hv);
  cbn [negb]; unfold bind at 1; unfold find_one;
  rewrite db_call_ok by exact Hf1;
  rewrite Hfound; cbn [fst snd option_map].

Lemma vote_for_car_percentage_raise_run (E : Env) (car_id : string)
      (vote_request : VoteRequest.t) (w : World) (i : nat) (car : Car.t) (e : exn) :
  let vt := VoteRequest.vote_type vote_request in
  let h := fst (new_counters vt car) in
  let n := snd (new_counters vt car) in
  In vt ["hot"; "not"] ->
  first_match car_id (cars w) = Some (i, car) ->
  db_fault E (ticks w) = None ->
  hot_percentage_of h (h + n) = Raise e ->
  exists e' w', vote_for_car E car_id vote_request w = (Raise e', w')
                /\ cars w' = cars w.
Proof.
  intros vt h n Hv Hfound Hf1 Hp. subst h n vt.
  vote_prefix Hv Hfound Hf1.
  destruct (new_counters _ car) as [h' n'] eqn:Hnc. cbn [fst snd] in *.
  unfold bind at 1. unfold lift at 1. rewrite Hp.
  destruct e; simpl; eauto.
Qed.

Lemma vote_for_car_update_fault_run (E : Env) (car_id : string)
      (vote_request : VoteRequest.t) (w : World) (i : nat) (car : Car.t)
      (p : pynum) (msg : string) :
  let vt := VoteRequest.vote_type vote_request in
  let h := fst (new_counters vt car) in
  let n := snd (new_counters vt car) in
  In vt ["hot"; "not"] ->
  first_match car_id (cars w) = Some (i, car) ->
  db_fault E (ticks w) = None ->
  db_fault E (S (ticks w)) = Some msg ->
  hot_percentage_of h (h + n) = Return p ->
  vote_for_car E car_id vote_request w
  = (Raise (HTTPException 500 "Failed to record vote"),
     record_log ("Error voting for car: " +:+ msg)
       (tick (record_db (Update_one car_id h n (h + n) (round_1 p)) (Some msg)
                        (with_cars (cars w)
                           (tick (record_db (Find_one car_id) None w)))))).
Proof.
  intros vt h n Hv Hfound Hf1 Hf2 Hp. subst h n vt.
  vote_prefix Hv Hfound Hf1.
  destruct (new_counters _ car) as [h' n'] eqn:Hnc. cbn [fst snd] in *.
  unfold bind at 1. unfold lift at 1. rewrite Hp.
  unfold bind at 1. unfold update_one.
  rewrite (db_call_fault _ _ _ _ msg) by (simpl; assumption).
  reflexivity.
Qed.

Lemma validate_stored_percentage (h t : Z) (p : pynum) :
  hot_percentage_of h t = Return p ->
  exists f, validate_float (round_1 p) = Return f
            /\ pynum_eqb (round_1 p) (PyFloat f) = true.
Proof.
  intros Hp.
  pose proof (stored_hot_percentage_eq h t (round_1 p)) as Heq.
  unfold stored_hot_percentage in Heq. rewrite Hp in Heq. specialize (Heq eq_refl).
  unfold hot_percentage_of in Hp. destruct (0 <? t).
  - destruct (int_truediv h t); [ | discriminate]. injection Hp as <-.
    simpl. eexists. split; [reflexivity | ]. exact Heq.
  - injection Hp as <-. simpl. eexists. split; reflexivity.
Qed.

(** Every run of [vote_for_car] either raises and leaves the collection as
    it was, or is the recorded vote described by [vote_for_car_run]. *)
Lemma vote_for_car_cases (E : Env) (car_id : string) (vote_request : VoteRequest.t)
      (w : World) :
  let vt := VoteRequest.vote_type vote_request in
  (exists e w', vote_for_car E car_id vote_request w = (Raise e, w')
                /\ cars w' = cars w)
  \/ (exists i car p f,
         let h := fst (new_counters vt car) in
         let n := snd (new_counters vt car) in
         In vt ["hot"; "not"]
         /\ first_match car_id (cars w) = Some (i, car)
         /\ db_fault E (ticks w) = None
         /\ db_fault E (S (ticks w)) = None
         /\ hot_percentage_of h (h + n) = Return p
         /\ validate_float (round_1 p) = Return f
         /\ vote_for_car E car_id vote_request w
            = (Return (vote_response E car h n (h + n) f),
               after_vote car_id i car h n (h + n) (round_1 p) w)).
Proof.
  intros vt.
  destruct (existsb (String.eqb vt) ["hot"; "not"]) eqn:Hc.
  2: { left. unfold vote_for_car, try_except, vote_for_car_body. fold vt.
       rewrite Hc. simpl. eauto. }
  assert (Hv : In vt ["hot"; "not"]).
  { apply vote_type_check in Hc. simpl. intuition. }
  destruct (db_fault E (ticks w)) as [msg | ] eqn:Hf1.
  { left. rewrite (vote_for_car_lookup_fault_run E car_id vote_request w msg) by assumption.
    eauto. }
  destruct (first_match car_id (cars w)) as [[i car] | ] eqn:Hfound.
  2: { left. rewrite vote_for_car_absent_run by assumption. eauto. }
  destruct (hot_percentage_of (fst (new_counters vt car))
              (fst (new_counters vt car) + snd (new_counters vt car)))
    as [p | e] eqn:Hp.
  2: { left. eapply vote_for_car_percentage_raise_run; eauto. }
  destruct (db_fault E (S (ticks w))) as [msg | ] eqn:Hf2.
  { left. rewrite (vote_for_car_update_fault_run E car_id vote_request w i car p msg)
      by assumption. eauto. }
  destruct (validate_stored_percentage _ _ _ Hp) as (f & Hfl & _).
  right. exists i, car, p, f. cbv zeta.
  repeat (split; [first [assumption | reflexivity] | ]).
  apply vote_for_car_run; assumption.
Qed.

Lemma new_counters_spec (vt : string) (car : Car.t) :
  In vt ["hot"; "not"] ->
  (vt = "hot" -> new_counters vt car = (Car.hot_votes car + 1, Car.not_votes car))
  /\ (vt = "not" -> new_counters vt car = (Car.hot_votes car, Car.not_votes car + 1)).
Proof.
  intros Hv. unfold new_counters. split; intros ->; reflexivity.
Qed.

Lemma first_match_lookup (car_id : string) (cs : list Car.t) (i : nat) (c : Car.t) :
  first_match car_id cs = Some (i, c) -> cs !! i = Some c /\ Car.id c = car_id.
Proof.
  unfold first_match. intros H. apply list_find_Some in H. tauto.
Qed.

Lemma percentage_cases (h t : Z) (p : pynum) (f : float) :
  hot_percentage_of h t = Return p ->
  validate_float (round_1 p) = Return f ->
  (0 < t -> exists q, int_truediv h t = Return q
                      /\ f = Binary64.round1 (Binary64.mul q (Binary64.of_int 100)))
  /\ (t <= 0 -> f = S754_zero false).
Proof.
  unfold hot_percentage_of. destruct (Z.ltb_spec 0 t) as [Ht | Ht].
  - destruct (int_truediv h t) as [q | e]; [ | discriminate].
    intros [= <-]. simpl. intros [= <-]. split; [ | lia]. eauto.
  - intros [= <-]. simpl. intros [= <-]. split; [lia | reflexivity].
Qed.

Lemma hot_percentage_of_total (h n : Z) :
  0 <= h -> 0 <= n -> 0 < h + n -> exists p, hot_percentage_of h (h + n) = Return p.
Proof.
  intros Hh Hn Ht. unfold hot_percentage_of.
  destruct (Z.ltb_spec 0 (h + n)); [ | lia].
  destruct (int_truediv_total h (h + n)) as [q ->]; try lia. eauto.
Qed.

Lemma first_match_insert (car_id : string) (cs : list Car.t) (i : nat) (c c' : Car.t) :
  first_match car_id cs = Some (i, c) -> Car.id c' = car_id ->
  first_match car_id (<[i := c']> cs) = Some (i, c').
Proof.
  unfold first_match. intros H Hid.
  apply list_find_Some in H as (Hi & _ & Hbefore).
  apply list_find_Some. split; [ | split]; [ | assumption | ].
  - apply list_lookup_insert_eq. eapply lookup_lt_Some; eauto.
  - intros j y Hj Hlt. rewrite list_lookup_insert_ne in Hj by lia. eauto.
Qed.

(** A returned vote, read back: position [i] of the collection holds the
    tallies of the response. *)
Lemma vote_for_car_returns (E : Env) (car_id : string) (vote_request : VoteRequest.t)
      (w : World) (i : nat) (car : Car.t) (resp : VoteResponse.t) (w' : World) :
  let vt := VoteRequest.vote_type vote_request in
  let r := VoteResponse.car resp in
  first_match car_id (cars w) = Some (i, car) ->
  vote_for_car E car_id vote_request w = (Return resp, w') ->
  In vt ["hot"; "not"]
  /\ vote_tallies_spec vt car (CarResponse.hot_votes r) (CarResponse.not_votes r)
                       (CarResponse.total_votes r) (CarResponse.hot_percentage r)
  /\ exists p,
      pynum_eqb p (PyFloat (CarResponse.hot_percentage r)) = true
      /\ cars w' = <[i := set_tallies (CarResponse.hot_votes r) (CarResponse.not_votes r)
                                      (CarResponse.total_votes r) p car]> (cars w).
Proof.
  intros vt r Hfound Hrun. subst vt r.
  destruct (vote_for_car_cases E car_id vote_request w)
    as [(e & w1 & Hraise & _) | (i' & car' & p & f & Hv & Hfound' & _ & _ & Hp & Hfl & Hret)].
  { rewrite Hraise in Hrun. discriminate. }
  rewrite Hfound in Hfound'. injection Hfound' as <- <-.
  rewrite Hret in Hrun. injection Hrun as <- <-.
  cbv zeta in Hp.
  destruct (new_counters_spec _ car Hv) as [Hhot Hnot].
  destruct (percentage_cases _ _ _ _ Hp Hfl) as [Hpos Hzero].
  destruct (validate_stored_percentage _ _ _ Hp) as (f' & Hfl' & Heq).
  rewrite Hfl in Hfl'. injection Hfl' as <-.
  cbn [vote_response VoteResponse.car CarResponse.hot_votes
                CarResponse.not_votes CarResponse.total_votes
                CarResponse.hot_percentage].
  split; [assumption | ]. split.
  - unfold vote_tallies_spec.
    split; [intros Hvt; rewrite (Hhot Hvt); auto | ].
    split; [intros Hvt; rewrite (Hnot Hvt); auto | ].
    split; [reflexivity | ]. split; [exact Hpos | exact Hzero].
  - exists (round_1 p). split; [exact Heq | reflexivity].
Qed.

Lemma vote_for_car_total (E : Env) (car_id : string) (vote_request : VoteRequest.t)
      (w : World) (i : nat) (car : Car.t) :
  In (VoteRequest.vote_type vote_request) ["hot"; "not"] ->
  first_match car_id (cars w) = Some (i, car) ->
  db_fault E (ticks w) = None ->
  db_fault E (S (ticks w)) = None ->
  0 <= Car.hot_votes car -> 0 <= Car.not_votes car ->
  exists resp w', vote_for_car E car_id vote_request w = (Return resp, w').
Proof.
  intros Hv Hfound Hf1 Hf2 Hh Hn.
  set (vt := VoteRequest.vote_type vote_request) in *.
  destruct (hot_percentage_of_total (fst (new_counters vt car)) (snd (new_counters vt car)))
    as [p Hp].
  1-3: unfold new_counters; destruct (String.eqb vt "hot"); simpl; lia.
  destruct (validate_stored_percentage _ _ _ Hp) as (f & Hfl & _).
  eexists. eexists. apply (vote_for_car_run E car_id vote_request w i car p f); assumption.
Qed.

(** The scenario of a stored car without votes: a "hot" vote, then a "not"
    vote on the world the first vote left. *)
Lemma vote_scenario (E : Env) (car_id : string) (hot_vote not_vote : VoteRequest.t)
      (w : World) (i : nat) (car : Car.t) :
  VoteRequest.vote_type hot_vote = "hot" ->
  VoteRequest.vote_type not_vote = "not" ->
  first_match car_id (cars w) = Some (i, car) ->
  Car.hot_votes car = 0 -> Car.not_votes car = 0 ->
  (forall k, (k < 4)%nat -> db_fault E (k + ticks w) = None) ->
  exists r1 w1 r2 w2,
    vote_for_car E car_id hot_vote w = (Return r1, w1)
    /\ tallies_of (VoteResponse.car r1) = (1, 0, 1, Binary64.of_int 100)
    /\ vote_for_car E car_id not_vote w1 = (Return r2, w2)
    /\ tallies_of (VoteResponse.car r2) = (1, 1, 2, Binary64.of_int 50).
Proof.
  intros Hhot Hnot Hfound Hh Hn Hf.
  destruct (first_match_lookup _ _ _ _ Hfound) as [_ Hid].
  pose proof (vote_for_car_run E car_id hot_vote w i car
                (PyFloat (Binary64.of_int 100)) (Binary64.of_int 100)) as H1.
  cbv zeta in H1. rewrite Hhot in H1. unfold new_counters in H1.
  rewrite Hh, Hn in H1. cbn [String.eqb Ascii.eqb Bool.eqb fst snd] in H1.
  change (0 + 1 + 0) with 1 in H1. change (0 + 1) with 1 in H1.
  specialize (H1 ltac:(simpl; auto) Hfound (Hf 0%nat ltac:(lia)) (Hf 1%nat ltac:(lia))
                 ltac:(vm_compute; reflexivity) ltac:(vm_compute; reflexivity)).
  set (c1 := set_tallies 1 0 1 (round_1 (PyFloat (Binary64.of_int 100))) car) in *.
  set (w1 := after_vote car_id i car 1 0 1 _ w) in *.
  assert (Hfound1 : first_match car_id (cars w1) = Some (i, c1)).
  { subst w1. simpl. apply first_match_insert with (c := car); assumption. }
  pose proof (vote_for_car_run E car_id not_vote w1 i c1
                (PyFloat (Binary64.of_int 50)) (Binary64.of_int 50)) as H2.
  cbv zeta in H2. rewrite Hnot in H2. unfold new_counters in H2.
  cbn [String.eqb Ascii.eqb Bool.eqb fst snd c1 set_tallies Car.hot_votes Car.not_votes] in H2.
  change (1 + (0 + 1)) with 2 in H2. change (0 + 1) with 1 in H2.
  specialize (H2 ltac:(simpl; auto) Hfound1 (Hf 2%nat ltac:(lia)) (Hf 3%nat ltac:(lia))
                 ltac:(vm_compute; reflexivity) ltac:(vm_compute; reflexivity)).
  eexists. exists w1. eexists. eexists.
  split; [exact H1 | ]. split; [reflexivity | ]. split; [exact H2 | reflexivity].
Qed.

(** C1, amended.  For a stored car and a vote "hot" or "not", with a store
    that answers: a returned response has exactly one of the two counters
    incremented by one and the other unchanged, [total_votes] equal to
    their sum, and [hot_percentage] equal to
    [round(hot_votes / total_votes * 100, 1)] in binary64 arithmetic (the
    quotient first, then the product) when [total_votes > 0], and to zero
    otherwise; the same tallies are written to the stored record.  The
    handler does return such a response when the car's counters are not
    negative.  On a car without votes a "hot" vote answers
    [(1, 0, 1, 100.0)] and a following "not" vote [(1, 1, 2, 50.0)]. *)
Theorem vote_for_car_tallies (E : Env) (car_id : string)
        (vote_request : VoteRequest.t) (w : World) (i : nat) (car : Car.t) :
  In (VoteRequest.vote_type vote_request) ["hot"; "not"] ->
  first_match car_id (cars w) = Some (i, car) ->
  db_fault E (ticks w) = None ->
  db_fault E (S (ticks w)) = None ->
  (forall resp w',
      vote_for_car E car_id vote_request w = (Return resp, w') ->
      let r := VoteResponse.car resp in
      vote_tallies_spec (VoteRequest.vote_type vote_request) car
                        (CarResponse.hot_votes r) (CarResponse.not_votes r)
                        (CarResponse.total_votes r) (CarResponse.hot_percentage r)
      /\ exists c', cars w' !! i = Some c' /\ stored_tallies c' r)
  /\ (0 <= Car.hot_votes car -> 0 <= Car.not_votes car ->
      exists resp w', vote_for_car E car_id vote_request w = (Return resp, w'))
  /\ (Car.hot_votes car = 0 -> Car.not_votes car = 0 ->
      VoteRequest.vote_type vote_request = "hot" ->
      forall not_vote,
        VoteRequest.vote_type not_vote = "not" ->
        db_fault E (S (S (ticks w))) = None ->
        db_fault E (S (S (S (ticks w)))) = None ->
        exists r1 w1 r2 w2,
          vote_for_car E car_id vote_request w = (Return r1, w1)
          /\ tallies_of (VoteResponse.car r1) = (1, 0, 1, Binary64.of_int 100)
          /\ vote_for_car E car_id not_vote w1 = (Return r2, w2)
          /\ tallies_of (VoteResponse.car r2) = (1, 1, 2, Binary64.of_int 50)).
Proof.
  intros Hv Hfound Hf1 Hf2. split; [ | split].
  - intros resp w' Hrun r.
    destruct (vote_for_car_returns E car_id vote_request w i car resp w' Hfound Hrun)
      as (_ & Hspec & p & Heq & Hcars).
    split; [exact Hspec | ].
    exists (set_tallies (CarResponse.hot_votes r) (CarResponse.not_votes r)
                        (CarResponse.total_votes r) p car).
    split.
    + rewrite Hcars. apply list_lookup_insert_eq.
      destruct (first_match_lookup _ _ _ _ Hfound) as [Hi _].
      eapply lookup_lt_Some; eauto.
    + unfold stored_tallies. simpl. auto.
  - intros Hh Hn. eapply vote_for_car_total; eauto.
  - intros Hh Hn Hhot not_vote Hnot Hf3 Hf4.
    apply (vote_scenario E car_id vote_request not_vote w i car); try assumption.
    intros k Hk.
    destruct k as [ | [ | [ | [ | k]]]]; simpl; try assumption; lia.
Qed.

Lemma vote_for_car_tallies_witness :
  exists r1 w1 r2 w2,
    vote_for_car Demo.env "car-1" (Demo.vote "hot") (Demo.world_of [Demo.fresh_car])
    = (Return r1, w1)
    /\ tallies_of (VoteResponse.car r1) = (1, 0, 1, Demo.f100_0)
    /\ vote_for_car Demo.env "car-1" (Demo.vote "not") w1 = (Return r2, w2)
    /\ tallies_of (VoteResponse.car r2) = (1, 1, 2, Demo.f50_0).
Proof.
  destruct (vote_for_car_tallies Demo.env "car-1" (Demo.vote "hot")
              (Demo.world_of [Demo.fresh_car]) 0%nat Demo.fresh_car)
    as (_ & _ & Hscenario).
  - simpl. auto.
  - reflexivity.
  - reflexivity.
  - reflexivity.
  - apply (Hscenario eq_refl eq_refl eq_refl (Demo.vote "not")); reflexivity.
Defined.

(** C1 as stated fails: the 23rd "hot" vote of 80 answers 28.7, while
    [round(100 * 23 / 80, 1)] is 28.8. *)
Lemma vote_percentage_not_as_stated :
  exists resp w',
    vote_for_car Demo.env "car-1" (Demo.vote "hot")
                 (Demo.world_of [Demo.car 22 57 79 (PyFloat (Binary64.of_tenths false 278))])
    = (Return resp, w')
    /\ tallies_of (VoteResponse.car resp) = (23, 57, 80, Demo.f28_7)
    /\ stated_hot_percentage 23 80 = Return (PyFloat Demo.f28_8)
    /\ pynum_eqb (PyFloat Demo.f28_7) (PyFloat Demo.f28_8) = false.
Proof.
  eexists. eexists. split; [vm_compute; reflexivity | ].
  split; [vm_compute; reflexivity | ].
  split; vm_compute; reflexivity.
Qed.

(** ** Creation and seeding *)

Lemma new_Car_run (E : Env) (d : CarCreate.t) (w : World) :
  new_Car E d w = (Return (built_Car E d (ticks w)), tick (tick w)).
Proof. reflexivity. Qed.

Lemma built_Car_seeded (E : Env) (d : CarCreate.t) (t : nat) :
  seeded_from d (built_Car E d t).
Proof. unfold seeded_from, zero_tallies. simpl. auto 10. Qed.

Lemma zero_tallies_invariant (formula : Z -> Z -> result pynum) (c : Car.t) :
  zero_tallies c -> tally_invariant formula c = true.
Proof.
  intros (Hh & Hn & Ht & Hp). unfold tally_invariant.
  rewrite Hh, Hn, Ht, Hp. reflexivity.
Qed.

Lemma create_car_ok_run (E : Env) (car_data : CarCreate.t) (w : World) :
  db_fault E (S (S (ticks w))) = None ->
  let c := built_Car E car_data (ticks w) in
  create_car E car_data w
  = (Return (created_response c),
     with_cars (cars w ++ [c])%list
               (tick (record_db (Insert_one c) None (tick (tick w))))).
Proof.
  intros Hf c. unfold create_car, try_except.
  unfold bind at 1. rewrite new_Car_run. fold c.
  unfold bind at 1. unfold insert_one. rewrite db_call_ok by (simpl; assumption).
  reflexivity.
Qed.

Lemma create_car_fault_run (E : Env) (car_data : CarCreate.t) (w : World) (msg : string) :
  db_fault E (S (S (ticks w))) = Some msg ->
  let c := built_Car E car_data (ticks w) in
  create_car E car_data w
  = (Raise (HTTPException 500 "Failed to create car"),
     record_log ("Error creating car: " +:+ msg)
                (tick (record_db (Insert_one c) (Some msg) (tick (tick w))))).
Proof.
  intros Hf c. unfold create_car, try_except.
  unfold bind at 1. rewrite new_Car_run. fold c.
  unfold bind at 1. unfold insert_one.
  rewrite (db_call_fault _ _ _ _ msg) by (simpl; assumption).
  reflexivity.
Qed.

Lemma cars_to_insert_run (E : Env) (ds : list CarCreate.t) (w : World) :
  cars_to_insert E ds w
  = (Return (built_Cars E ds (ticks w)), ticked (2 * length ds) w).
Proof.
  revert w. induction ds as [ | d rest IH]; intros w; [reflexivity | ].
  cbn [cars_to_insert]. unfold bind at 1. rewrite new_Car_run.
  unfold bind at 1. rewrite IH. cbn [ret built_Cars].
  replace (2 * length (d :: rest))%nat with (S (S (2 * length rest))) by (simpl; lia).
  reflexivity.
Qed.

Lemma ticked_fields (k : nat) (w : World) :
  cars (ticked k w) = cars w /\ ticks (ticked k w) = (k + ticks w)%nat
  /\ db_trace (ticked k w) = db_trace w
  /\ agent_trace (ticked k w) = agent_trace w.
Proof.
  revert w. induction k as [ | k IH]; intros w; simpl; [auto | ].
  destruct (IH (tick w)) as (H1 & H2 & H3 & H4). rewrite H1, H2, H3, H4. simpl.
  repeat split; lia.
Qed.

Lemma built_Cars_seeded (E : Env) (ds : list CarCreate.t) (t : nat) :
  Forall2 seeded_from ds (built_Cars E ds t).
Proof.
  revert t. induction ds; intros t; simpl; constructor; auto using built_Car_seeded.
Qed.

Lemma built_Cars_length (E : Env) (ds : list CarCreate.t) (t : nat) :
  length (built_Cars E ds t) = length ds.
Proof. revert t. induction ds; intros t; simpl; auto. Qed.

Lemma initialize_cars_count_fault_run (E : Env) (w : World) (msg : string) :
  db_fault E (ticks w) = Some msg ->
  initialize_cars E w
  = (Raise (HTTPException 500 "Failed to initialize cars"),
     record_log ("Error initializing cars: " +:+ msg)
                (tick (record_db Count_documents (Some msg) w))).
Proof.
  intros Hf. unfold initialize_cars, try_except.
  unfold bind at 1. unfold count_documents.
  rewrite (db_call_fault _ _ _ _ msg) by assumption. reflexivity.
Qed.

Lemma initialize_cars_existing_run (E : Env) (w : World) :
  db_fault E (ticks w) = None ->
  cars w <> [] ->
  initialize_cars E w
  = (Return (InitializeResult.mk
               ("Database already has " +:+ str_int (Z.of_nat (length (cars w)))
                                        +:+ " cars")
               false None),
     after_count w).
Proof.
  intros Hf Hne. unfold initialize_cars, try_except.
  unfold bind at 1. unfold count_documents.
  rewrite db_call_ok by assumption. cbn [fst snd].
  destruct (Z.ltb_spec 0 (Z.of_nat (length (cars w)))) as [_ | Hlen].
  - reflexivity.
  - destruct (cars w); [congruence | simpl in Hlen; lia].
Qed.

Lemma initialize_cars_seed_run (E : Env) (w : World) :
  db_fault E (ticks w) = None ->
  cars w = [] ->
  db_fault E (25 + ticks w)%nat = None ->
  initialize_cars E w
  = (Return (InitializeResult.mk "Successfully initialized 12 cars" true (Some 12)),
     with_cars (seed_docs E w)
       (tick (record_db (Insert_many (seed_docs E w)) None
                        (ticked 24 (after_count w))))).
Proof.
  intros Hf Hempty Hf2. unfold initialize_cars, try_except.
  unfold bind at 1. unfold count_documents.
  rewrite db_call_ok by assumption. cbn [fst snd].
  fold (after_count w).
  destruct (Z.ltb_spec 0 (Z.of_nat (length (cars w)))) as [Hlen | _].
  { rewrite Hempty in Hlen. simpl in Hlen. lia. }
  unfold bind at 1. rewrite cars_to_insert_run.
  change (2 * length sample_cars)%nat with 24%nat.
  change (ticks (after_count w)) with (S (ticks w)).
  fold (seed_docs E w).
  unfold bind at 1. unfold insert_many.
  rewrite db_call_ok by exact Hf2. cbn [fst snd].
  unfold ret. unfold seed_docs at 1 2. rewrite built_Cars_length.
  change (length sample_cars) with 12%nat.
  change (cars (ticked 24 (after_count w))) with (cars w). rewrite Hempty.
  reflexivity.
Qed.

Lemma initialize_cars_insert_fault_run (E : Env) (w : World) (msg : string) :
  db_fault E (ticks w) = None ->
  cars w = [] ->
  db_fault E (25 + ticks w)%nat = Some msg ->
  initialize_cars E w
  = (Raise (HTTPException 500 "Failed to initialize cars"),
     record_log ("Error initializing cars: " +:+ msg)
       (tick (record_db (Insert_many (seed_docs E w)) (Some msg)
                        (ticked 24 (after_count w))))).
Proof.
  intros Hf Hempty Hf2. unfold initialize_cars, try_except.
  unfold bind at 1. unfold count_documents.
  rewrite db_call_ok by assumption. cbn [fst snd].
  fold (after_count w).
  destruct (Z.ltb_spec 0 (Z.of_nat (length (cars w)))) as [Hlen | _].
  { rewrite Hempty in Hlen. simpl in Hlen. lia. }
  unfold bind at 1. rewrite cars_to_insert_run.
  change (2 * length sample_cars)%nat with 24%nat.
  change (ticks (after_count w)) with (S (ticks w)).
  fold (seed_docs E w).
  unfold bind at 1. unfold insert_many.
  rewrite (db_call_fault _ _ _ _ msg) by exact Hf2.
  reflexivity.
Qed.

Lemma seed_docs_seeded (E : Env) (w : World) :
  Forall2 seeded_from sample_cars (seed_docs E w).
Proof. apply built_Cars_seeded. Qed.

Lemma seed_docs_nonempty (E : Env) (w : World) : seed_docs E w <> [].
Proof. unfold seed_docs. simpl. discriminate. Qed.

(** Every run of [initialize_cars] either leaves the collection as it was
    and does not report a seeding, or starts from an empty collection and
    leaves exactly the seeded documents. *)
Lemma initialize_cars_cases (E : Env) (w : World) :
  (exists r w', initialize_cars E w = (r, w') /\ cars w' = cars w
                /\ forall x, r = Return x -> InitializeResult.initialized x = false)
  \/ (cars w = []
      /\ exists w', initialize_cars E w
                    = (Return (InitializeResult.mk "Successfully initialized 12 cars"
                                                   true (Some 12)), w')
                    /\ cars w' = seed_docs E w).
Proof.
  destruct (db_fault E (ticks w)) as [msg | ] eqn:Hf.
  { left. rewrite (initialize_cars_count_fault_run E w msg Hf).
    eexists. eexists. split; [reflexivity | ]. split; [reflexivity | discriminate]. }
  destruct (cars w) as [ | c cs] eqn:Hcars.
  2: { left. rewrite initialize_cars_existing_run by (assumption || congruence).
       eexists. eexists. split; [reflexivity | ]. split; [exact Hcars | ].
       intros x [= <-]. reflexivity. }
  destruct (db_fault E (25 + ticks w)%nat) as [msg | ] eqn:Hf2.
  { left. rewrite (initialize_cars_insert_fault_run E w msg Hf Hcars Hf2).
    eexists. eexists. split; [reflexivity | ]. split; [exact Hcars | discriminate]. }
  right. split; [reflexivity | ].
  rewrite (initialize_cars_seed_run E w Hf Hcars Hf2).
  eexists. split; reflexivity.
Qed.

(** C6.  Seeding is idempotent.  On a collection that holds a car,
    [initialize_cars] inserts nothing and, when the count succeeds, reports
    [initialized = False].  On an empty collection with a store that
    answers, it inserts one zero-tallied record per entry of the sample
    list, in order, and reports [initialized = True] with the number
    inserted.  Of two calls in a row at most one inserts, and a call that
    follows a reported seeding leaves the collection as it is and cannot
    report [initialized = True]. *)
Theorem initialize_cars_idempotent (E : Env) (w : World) :
  (cars w <> [] ->
   cars (snd (initialize_cars E w)) = cars w
   /\ (db_fault E (ticks w) = None ->
       exists r, fst (initialize_cars E w) = Return r
                 /\ InitializeResult.initialized r = false))
  /\ (cars w = [] ->
      db_fault E (ticks w) = None ->
      db_fault E (25 + ticks w)%nat = None ->
      exists r w',
        initialize_cars E w = (Return r, w')
        /\ InitializeResult.initialized r = true
        /\ InitializeResult.car_count r = Some (Z.of_nat (length sample_cars))
        /\ Forall2 seeded_from sample_cars (cars w'))
  /\ (forall r1 w1 r2 w2,
         initialize_cars E w = (r1, w1) ->
         initialize_cars E w1 = (r2, w2) ->
         (cars w1 = cars w \/ cars w2 = cars w1)
         /\ (forall x1, r1 = Return x1 -> InitializeResult.initialized x1 = true ->
             cars w2 = cars w1
             /\ forall x2, r2 = Return x2 -> InitializeResult.initialized x2 = false)).
Proof.
  split; [ | split].
  - intros Hne. split.
    + destruct (initialize_cars_cases E w)
        as [(r & w' & Hrun & Hsame & _) | (Hempty & _)]; [ | congruence].
      rewrite Hrun. exact Hsame.
    + intros Hf. rewrite initialize_cars_existing_run by assumption.
      eexists. split; reflexivity.
  - intros Hempty Hf Hf2. rewrite (initialize_cars_seed_run E w Hf Hempty Hf2).
    eexists. eexists. split; [reflexivity | ].
    split; [reflexivity | ]. split; [reflexivity | ]. apply seed_docs_seeded.
  - intros r1 w1 r2 w2 Hrun1 Hrun2.
    assert (Hsecond : cars w1 <> [] ->
                      cars w2 = cars w1
                      /\ forall x2, r2 = Return x2 -> InitializeResult.initialized x2 = false).
    { intros Hne.
      destruct (initialize_cars_cases E w1)
        as [(r & w' & Hrun & Hsame & Hflag) | (Hempty & _)]; [ | congruence].
      rewrite Hrun2 in Hrun. injection Hrun as <- <-. auto. }
    destruct (initialize_cars_cases E w)
      as [(r & w' & Hrun & Hsame & Hflag) | (Hempty & w' & Hrun & Hseed)];
      rewrite Hrun1 in Hrun; injection Hrun as -> ->.
    + split; [left; exact Hsame | ].
      intros x1 Hx1 Hinit. rewrite (Hflag x1 Hx1) in Hinit. discriminate.
    + assert (Hne : cars w' <> []).
      { rewrite Hseed. apply seed_docs_nonempty. }
      split; [right; apply Hsecond; exact Hne | ].
      intros _ _ _. apply Hsecond; exact Hne.
Qed.

Lemma initialize_cars_idempotent_witness :
  exists r1 w1 r2 w2,
    initialize_cars Demo.env Demo.empty_world = (Return r1, w1)
    /\ InitializeResult.initialized r1 = true
    /\ InitializeResult.car_count r1 = Some 12
    /\ length (cars w1) = 12%nat
    /\ initialize_cars Demo.env w1 = (Return r2, w2)
    /\ InitializeResult.initialized r2 = false
    /\ cars w2 = cars w1.
Proof.
  destruct (initialize_cars_idempotent Demo.env Demo.empty_world)
    as (_ & Hseed & Htwice).
  destruct (Hseed eq_refl eq_refl eq_refl) as (r1 & w1 & Hrun1 & Hinit & Hcount & Hdocs).
  destruct (initialize_cars Demo.env w1) as [r2 w2] eqn:Hrun2.
  destruct (Htwice (Return r1) w1 r2 w2 Hrun1 Hrun2) as (_ & Hsecond).
  destruct (Hsecond r1 eq_refl Hinit) as (Hsame & Hflag).
  assert (Hr2 : exists x2, r2 = Return x2).
  { destruct (initialize_cars_idempotent Demo.env w1) as (Hexisting & _).
    destruct Hexisting as (_ & Hret).
    - apply Forall2_length in Hdocs. destruct (cars w1); [discriminate | discriminate].
    - destruct (Hret eq_refl) as (x2 & Hx2 & _). rewrite Hrun2 in Hx2. eauto. }
  destruct Hr2 as (x2 & ->).
  exists r1, w1, x2, w2.
  split; [exact Hrun1 | ]. split; [exact Hinit | ]. split; [exact Hcount | ].
  split; [apply Forall2_length in Hdocs; symmetry; exact Hdocs | ].
  split; [exact Hrun2 | ]. split; [apply Hflag; reflexivity | exact Hsame].
Defined.

(** ** The invariants of stored records *)

Lemma recorded_vote_invariant (h n : Z) (p : pynum) (car : Car.t) :
  hot_percentage_of h (h + n) = Return p ->
  tally_invariant stored_hot_percentage (set_tallies h n (h + n) (round_1 p) car) = true.
Proof.
  intros Hp. unfold tally_invariant. simpl.
  rewrite Z.eqb_refl. simpl.
  pose proof (stored_hot_percentage_eq h (h + n) (round_1 p)) as Heq.
  unfold stored_hot_percentage in *. rewrite Hp in *.
  destruct (Z.ltb_spec 0 (h + n)) as [Hpos | Hle].
  - apply Heq. reflexivity.
  - unfold hot_percentage_of in Hp.
    destruct (Z.ltb_spec 0 (h + n)); [lia | ]. injection Hp as <-.
    destruct (h + n =? 0); reflexivity.
Qed.

Lemma vote_for_car_store_ok (E : Env) (car_id : string) (vote_request : VoteRequest.t)
      (w : World) :
  store_ok stored_hot_percentage w ->
  store_ok stored_hot_percentage (snd (vote_for_car E car_id vote_request w)).
Proof.
  unfold store_ok. intros Hok.
  destruct (vote_for_car_cases E car_id vote_request w)
    as [(e & w1 & -> & Hsame) | (i & car & p & f & _ & _ & _ & _ & Hp & _ & ->)].
  - simpl. rewrite Hsame. exact Hok.
  - simpl. apply Forall_insert; [exact Hok | ].
    apply recorded_vote_invariant. exact Hp.
Qed.

Lemma create_car_cases (E : Env) (car_data : CarCreate.t) (w : World) :
  (exists e w', create_car E car_data w = (Raise e, w') /\ cars w' = cars w)
  \/ (exists c w', create_car E car_data w = (Return (created_response c), w')
                   /\ seeded_from car_data c
                   /\ cars w' = (cars w ++ [c])%list).
Proof.
  destruct (db_fault E (S (S (ticks w)))) as [msg | ] eqn:Hf.
  - left. rewrite (create_car_fault_run E car_data w msg Hf). eauto.
  - right. rewrite (create_car_ok_run E car_data w Hf).
    eexists. eexists. split; [reflexivity | ].
    split; [apply built_Car_seeded | reflexivity].
Qed.

Lemma seeded_zero_tallies (ds : list CarCreate.t) (cs : list Car.t) :
  Forall2 seeded_from ds cs -> Forall zero_tallies cs.
Proof.
  induction 1 as [ | d c ds cs Hd _ IH]; constructor; auto.
  destruct Hd as (_ & _ & _ & _ & Hz). exact Hz.
Qed.

Lemma store_ok_app (w : World) (added : list Car.t) (cs : list Car.t) :
  store_ok stored_hot_percentage w ->
  Forall zero_tallies added ->
  cs = (cars w ++ added)%list ->
  Forall (fun c => tally_invariant stored_hot_percentage c = true) cs.
Proof.
  intros Hok Hz ->. apply Forall_app. split; [exact Hok | ].
  eapply Forall_impl; [exact Hz | ]. intros c. apply zero_tallies_invariant.
Qed.

(** C2, amended.  [create_car], [initialize_cars] and [vote_for_car]
    preserve, on every stored record, [total_votes == hot_votes +
    not_votes] and [hot_percentage == round(hot_votes / total_votes * 100,
    1)] (binary64, quotient first) when [total_votes > 0] and
    [hot_percentage == 0.0] when [total_votes == 0], whatever the outside
    does.  What [create_car] and [initialize_cars] add to the collection
    has tallies [(0, 0, 0, 0.0)], and so has the response of
    [create_car]. *)
Theorem tally_invariants_preserved (E : Env) (w : World) :
  store_ok stored_hot_percentage w ->
  (forall car_data,
      let w' := snd (create_car E car_data w) in
      store_ok stored_hot_percentage w'
      /\ forall r, fst (create_car E car_data w) = Return r ->
                   tallies_of r = (0, 0, 0, S754_zero false)
                   /\ exists c, cars w' = (cars w ++ [c])%list /\ zero_tallies c)
  /\ (let w' := snd (initialize_cars E w) in
      store_ok stored_hot_percentage w'
      /\ exists added, cars w' = (cars w ++ added)%list /\ Forall zero_tallies added)
  /\ (forall car_id vote_request,
         store_ok stored_hot_percentage (snd (vote_for_car E car_id vote_request w))).
Proof.
  intros Hok. split; [ | split].
  - intros car_data w'. subst w'.
    destruct (create_car_cases E car_data w)
      as [(e & w1 & -> & Hsame) | (c & w1 & -> & Hseed & Happ)]; simpl.
    + split; [unfold store_ok; rewrite Hsame; exact Hok | discriminate].
    + destruct Hseed as (_ & _ & _ & _ & Hz). split.
      * unfold store_ok. eapply store_ok_app; [exact Hok | | exact Happ].
        constructor; auto.
      * intros r [= <-]. split; [reflexivity | eauto].
  - intros w'. subst w'.
    destruct (initialize_cars_cases E w)
      as [(r & w1 & -> & Hsame & _) | (Hempty & w1 & -> & Hseed)]; simpl.
    + split; [unfold store_ok; rewrite Hsame; exact Hok | ].
      exists []. rewrite app_nil_r. auto.
    + assert (Hz : Forall zero_tallies (seed_docs E w)).
      { eapply seeded_zero_tallies. apply seed_docs_seeded. }
      assert (Happ : cars w1 = (cars w ++ seed_docs E w)%list).
      { rewrite Hseed, Hempty. reflexivity. }
      split; [unfold store_ok; eapply store_ok_app; eauto | eauto].
  - intros car_id vote_request. apply vote_for_car_store_ok. exact Hok.
Qed.

Lemma tally_invariants_preserved_witness :
  store_ok stored_hot_percentage
           (snd (vote_for_car Demo.env "car-1" (Demo.vote "hot")
                   (Demo.world_of [Demo.car 22 57 79 (PyFloat (Binary64.of_tenths false 278))]))).
Proof.
  apply (tally_invariants_preserved Demo.env
           (Demo.world_of [Demo.car 22 57 79 (PyFloat (Binary64.of_tenths false 278))])).
  repeat constructor.
Defined.

(** C2 as stated fails: a store that satisfies the invariant written
    with [round(100 * hot_votes / total_votes, 1)] no longer does after
    the 23rd "hot" vote of 80. *)
Lemma stated_invariant_broken_by_vote :
  let w := Demo.world_of [Demo.car 22 57 79 (PyFloat (Binary64.of_tenths false 278))] in
  store_ok stated_hot_percentage w
  /\ ~ store_ok stated_hot_percentage
       (snd (vote_for_car Demo.env "car-1" (Demo.vote "hot") w)).
Proof.
  split.
  - repeat constructor.
  - intros H. apply Forall_inv in H. vm_compute in H. discriminate.
Qed.

(** ** The random car *)

Lemma get_random_car_empty_run (E : Env) (w : World) :
  cars w = [] ->
  db_fault E (ticks w) = None ->
  get_random_car E w
  = (Raise (HTTPException 500 "Failed to get random car"),
     record_log ("Error getting random car: "
                   +:+ str_exn E (HTTPException 404 "No cars found in database"))
                (with_cars [] (tick (record_db Aggregate_sample None w)))).
Proof.
  intros Hempty Hf. unfold get_random_car, try_except.
  unfold bind at 1. unfold aggregate_sample.
  rewrite db_call_ok by assumption. rewrite Hempty. reflexivity.
Qed.

Lemma get_random_car_fault_run (E : Env) (w : World) (msg : string) :
  db_fault E (ticks w) = Some msg ->
  get_random_car E w
  = (Raise (HTTPException 500 "Failed to get random car"),
     record_log ("Error getting random car: " +:+ msg)
                (tick (record_db Aggregate_sample (Some msg) w))).
Proof.
  intros Hf. unfold get_random_car, try_except.
  unfold bind at 1. unfold aggregate_sample.
  rewrite (db_call_fault _ _ _ _ msg) by assumption. reflexivity.
Qed.

(** C5, on the code.  On an empty collection [get_random_car] answers
    HTTP 500 "Failed to get random car", not 404: the [HTTPException] with
    status 404 that the handler raises is caught by its own
    [except Exception] and logged. *)
Theorem get_random_car_empty_store (E : Env) (w : World) :
  cars w = [] ->
  fst (get_random_car E w) = Raise (HTTPException 500 "Failed to get random car")
  /\ http_status (fst (get_random_car E w)) = 500
  /\ (db_fault E (ticks w) = None ->
      logged (snd (get_random_car E w))
      = ("Error getting random car: "
           +:+ str_exn E (HTTPException 404 "No cars found in database"))
          :: logged w).
Proof.
  intros Hempty. destruct (db_fault E (ticks w)) as [msg | ] eqn:Hf.
  - rewrite (get_random_car_fault_run E w msg Hf). simpl.
    split; [reflexivity | ]. split; [reflexivity | discriminate].
  - rewrite (get_random_car_empty_run E w Hempty Hf). simpl. auto.
Qed.

Lemma get_random_car_empty_store_witness :
  get_random_car Demo.env Demo.empty_world
  = (Raise (HTTPException 500 "Failed to get random car"),
     mkWorld [] None None 1 [(Aggregate_sample, None)] []
             ["Error getting random car: 404: No cars found in database"]).
Proof.
  pose proof (get_random_car_empty_store Demo.env Demo.empty_world eq_refl) as H.
  destruct (get_random_car Demo.env Demo.empty_world) as [r w'] eqn:Hrun.
  destruct H as (Hr & _ & _). simpl in Hr. subst r.
  vm_compute in Hrun. injection Hrun as <-. reflexivity.
Defined.

(** ** The frame of a vote *)

(** C9.  A vote that returns a response rewrites exactly one stored
    record, the first one whose [id] is [car_id]: its [id], [make],
    [model], [year], [image_url] and [created_at] are as before, every
    other position of the collection holds what it held, the collection
    keeps its length, and the run made one lookup and one update of that
    [car_id]. *)
Theorem vote_for_car_frame (E : Env) (car_id : string) (vote_request : VoteRequest.t)
        (w : World) (resp : VoteResponse.t) (w' : World) :
  vote_for_car E car_id vote_request w = (Return resp, w') ->
  exists i car car',
    first_match car_id (cars w) = Some (i, car)
    /\ cars w' = <[i := car']> (cars w)
    /\ cars w' !! i = Some car'
    /\ Car.id car' = Car.id car
    /\ Car.make car' = Car.make car
    /\ Car.model car' = Car.model car
    /\ Car.year car' = Car.year car
    /\ Car.image_url car' = Car.image_url car
    /\ Car.created_at car' = Car.created_at car
    /\ (forall j, j <> i -> cars w' !! j = cars w !! j)
    /\ length (cars w') = length (cars w)
    /\ exists h n t p,
        db_trace w'
        = (Update_one car_id h n t p, None) :: (Find_one car_id, None) :: db_trace w.
Proof.
  intros Hrun.
  destruct (vote_for_car_cases E car_id vote_request w)
    as [(e & w1 & Hraise & _) | (i & car & p & f & _ & Hfound & _ & _ & _ & _ & Hret)].
  { rewrite Hraise in Hrun. discriminate. }
  rewrite Hret in Hrun. injection Hrun as _ <-.
  destruct (first_match_lookup _ _ _ _ Hfound) as [Hi _].
  eexists i, car, _. split; [exact Hfound | ].
  split; [reflexivity | ].
  split; [apply list_lookup_insert_eq; eapply lookup_lt_Some; eauto | ].
  do 6 (split; [reflexivity | ]).
  split; [intros j Hj; apply list_lookup_insert_ne; auto | ].
  split; [apply length_insert | ].
  eexists _, _, _, _. reflexivity.
Qed.

Lemma vote_for_car_frame_witness :
  exists resp w' car',
    vote_for_car Demo.env "car-1" (Demo.vote "hot") (Demo.world_of [Demo.fresh_car])
    = (Return resp, w')
    /\ cars w' = [car']
    /\ Car.id car' = "car-1"
    /\ Car.make car' = "Ferrari"
    /\ Car.created_at car' = 0.
Proof.
  destruct (vote_for_car Demo.env "car-1" (Demo.vote "hot")
              (Demo.world_of [Demo.fresh_car])) as [r w'] eqn:Hrun.
  assert (Hr : exists resp, r = Return resp).
  { vm_compute in Hrun. injection Hrun as <- _. eauto. }
  destruct Hr as (resp & ->).
  destruct (vote_for_car_frame Demo.env "car-1" (Demo.vote "hot")
              (Demo.world_of [Demo.fresh_car]) resp w' Hrun)
    as (i & car & car' & Hfound & Hcars & _ & Hid & Hmake & _ & _ & _ & Hcreated & _).
  vm_compute in Hfound. injection Hfound as <- <-.
  exists resp, w', car'. simpl in Hcars. auto.
Defined.

(** ** Failures of the collaborators surface in the result *)

Lemma propagates_silent {A} (c : M A) :
  (forall w, agent_trace (snd (c w)) = agent_trace w
             /\ db_trace (snd (c w)) = db_trace w) ->
  propagates c.
Proof.
  intros H w. destruct (H w) as [Ha Hd]. destruct (c w) as [r w'].
  exists r, w', [], []. simpl in *. repeat split; auto; intros ? ? [].
Qed.

Lemma propagates_ret {A} (a : A) : propagates (ret a).
Proof. apply propagates_silent. intros w. simpl. auto. Qed.

Lemma propagates_raise {A} (e : exn) : propagates (@raise A e).
Proof. apply propagates_silent. intros w. simpl. auto. Qed.

Lemma propagates_lift {A} (r : result A) : propagates (lift r).
Proof. apply propagates_silent. intros w. simpl. auto. Qed.

Lemma propagates_bind {A B} (c : M A) (k : A -> M B) :
  propagates c -> (forall a, propagates (k a)) -> propagates (bind c k).
Proof.
  intros Hc Hk w. unfold bind.
  destruct (Hc w) as (r & w1 & calls1 & ops1 & -> & Ha1 & Hd1 & Hfa1 & Hfd1).
  destruct r as [a | e].
  - destruct (Hk a w1) as (r2 & w2 & calls2 & ops2 & -> & Ha2 & Hd2 & Hfa2 & Hfd2).
    exists r2, w2, (calls2 ++ calls1)%list, (ops2 ++ ops1)%list.
    split; [reflexivity | ].
    split; [rewrite Ha2, Ha1; apply app_assoc | ].
    split; [rewrite Hd2, Hd1; apply app_assoc | ].
    split.
    + intros call e Hin. apply in_app_or in Hin as [Hin | Hin]; [eauto | ].
      specialize (Hfa1 _ _ Hin). discriminate.
    + intros op msg Hin. apply in_app_or in Hin as [Hin | Hin]; [eauto | ].
      specialize (Hfd1 _ _ Hin). discriminate.
  - exists (Raise e), w1, calls1, ops1.
    split; [reflexivity | ]. split; [exact Ha1 | ]. split; [exact Hd1 | ].
    split.
    + intros call e0 Hin. specialize (Hfa1 _ _ Hin). injection Hfa1 as ->. reflexivity.
    + intros op msg Hin. specialize (Hfd1 _ _ Hin). injection Hfd1 as ->. reflexivity.
Qed.

Lemma propagates_db_call {A} (E : Env) (op : DbOp)
      (f : nat -> list Car.t -> A * list Car.t) :
  propagates (db_call E op f).
Proof.
  intros w. unfold db_call.
  destruct (db_fault E (ticks w)) as [msg | ] eqn:Hf.
  - exists (Raise (Exception msg)), (tick (record_db op (Some msg) w)),
      [], [(op, Some msg)].
    simpl. repeat split; auto.
    + intros ? ? [].
    + intros op' msg' [[= <- <-] | []]. reflexivity.
  - destruct (f (ticks w) (cars w)) as [a cs].
    exists (Return a), (with_cars cs (tick (record_db op None w))), [], [(op, None)].
    simpl. repeat split; auto.
    + intros ? ? [].
    + intros op' msg' [[=] | []].
Qed.

Lemma propagates_construct (E : Env) (k : AgentKind) : propagates (construct E k).
Proof.
  intros w. unfold construct.
  destruct (agent_init E k (ticks w)) as [e | ] eqn:Hi.
  - exists (Raise e), (tick (record_agent (Construct k) (Some e) w)),
      [(Construct k, Some e)], [].
    simpl. repeat split; auto.
    + intros c' e' [[= <- <-] | []]. reflexivity.
    + intros ? ? [].
  - eexists (Return _), (tick (record_agent (Construct k) None w)),
      [(Construct k, None)], [].
    simpl. repeat split; auto.
    + intros c' e' [[=] | []].
    + intros ? ? [].
Qed.

Lemma propagates_execute (E : Env) (a : Agent) (message : string)
      (use_tools : option bool) :
  propagates (execute E a message use_tools).
Proof.
  intros w. unfold execute.
  set (r := agent_execute E a message use_tools (ticks w)).
  exists r, (tick (record_agent (Execute a message use_tools) (raised r) w)),
    [(Execute a message use_tools, raised r)], [].
  simpl. repeat split; auto.
  - intros c' e' [[= <- Hr] | []]. destruct r; simpl in Hr; congruence.
  - intros ? ? [].
Qed.

Lemma propagates_get_capabilities (E : Env) (a : Agent) :
  propagates (get_capabilities E a).
Proof.
  intros w. unfold get_capabilities.
  set (r := agent_get_capabilities E a (ticks w)).
  exists r, (tick (record_agent (Get_capabilities a) (raised r) w)),
    [(Get_capabilities a, raised r)], [].
  simpl. repeat split; auto.
  - intros c' e' [[= <- Hr] | []]. destruct r; simpl in Hr; congruence.
  - intros ? ? [].
Qed.

Ltac silent := apply propagates_silent; intros ?; simpl; auto.

Lemma propagates_cars_to_insert (E : Env) (ds : list CarCreate.t) :
  propagates (cars_to_insert E ds).
Proof.
  apply propagates_silent. intros w. rewrite cars_to_insert_run.
  cbn [snd]. destruct (ticked_fields (2 * length ds) w) as (_ & _ & H1 & H2).
  auto.
Qed.

Ltac propagate :=
  repeat first
    [ apply propagates_bind
    | apply propagates_ret
    | apply propagates_raise
    | apply propagates_lift
    | apply propagates_db_call
    | apply propagates_construct
    | apply propagates_execute
    | apply propagates_get_capabilities
    | apply propagates_cars_to_insert
    | progress intros
    | match goal with
      | |- propagates (match ?x with _ => _ end) => destruct x
      | |- propagates _ => silent
      end ].

Lemma propagates_get_random_car_body (E : Env) :
  propagates
    (cs <- aggregate_sample E ;;
     match cs with
     | [] => raise (HTTPException 404 "No cars found in database")
     | car :: _ =>
         new_CarResponse (Car.id car) (Car.make car) (Car.model car)
                         (Car.year car) (Car.image_url car)
                         (Car.hot_votes car) (Car.not_votes car)
                         (Car.total_votes car) (Car.hot_percentage car)
     end).
Proof. unfold aggregate_sample, new_CarResponse. propagate. Qed.

Lemma propagates_vote_for_car_body (E : Env) (car_id : string)
      (vote_request : VoteRequest.t) :
  propagates (vote_for_car_body E car_id vote_request).
Proof.
  unfold vote_for_car_body, find_one, update_one, new_CarResponse. propagate.
Qed.

Lemma propagates_chat_with_agent_body (E : Env) (request : ChatRequest.t) :
  propagates (chat_with_agent_body E request).
Proof. unfold chat_with_agent_body. propagate. Qed.

Lemma propagates_search_and_summarize_body (E : Env) (request : SearchRequest.t) :
  propagates (search_and_summarize_body E request).
Proof. unfold search_and_summarize_body. propagate. Qed.

Lemma try_except_surfaces {A} (body : M A) (handler : exn -> M A) :
  propagates body ->
  (forall e w, db_trace (snd (handler e w)) = db_trace w) ->
  (forall msg w, http_status (fst (handler (Exception msg) w)) = 500) ->
  surfaces_store_failures (try_except body handler).
Proof.
  intros Hb Htrace Hstatus w. unfold try_except.
  destruct (Hb w) as (r & w1 & calls & ops & -> & _ & Hd & _ & Hfd).
  destruct r as [a | e].
  - exists (Return a), w1, ops. split; [reflexivity | ]. split; [exact Hd | ].
    intros op msg Hin. specialize (Hfd _ _ Hin). discriminate.
  - specialize (Htrace e w1). destruct (handler e w1) as [r' w'] eqn:Hh.
    exists r', w', ops. split; [reflexivity | ].
    split; [simpl in Htrace; rewrite Htrace; exact Hd | ].
    intros op msg Hin. specialize (Hfd _ _ Hin). injection Hfd as ->.
    specialize (Hstatus msg w1). rewrite Hh in Hstatus. exact Hstatus.
Qed.

Lemma try_except_contains {A} (E : Env) (body : M A) (line : exn -> string)
      (failure : string -> A) :
  propagates body ->
  forall w, exists resp w' calls,
    try_except body (fun e => logger_error (line e) ;;; ret (failure (str_exn E e))) w
    = (Return resp, w')
    /\ agent_trace w' = (calls ++ agent_trace w)%list
    /\ forall call e, In (call, Some e) calls -> resp = failure (str_exn E e).
Proof.
  intros Hb w. unfold try_except.
  destruct (Hb w) as (r & w1 & calls & ops & -> & Ha & _ & Hfa & _).
  destruct r as [a | e].
  - exists a, w1, calls. split; [reflexivity | ]. split; [exact Ha | ].
    intros call e Hin. specialize (Hfa _ _ Hin). discriminate.
  - exists (failure (str_exn E e)), (record_log (line e) w1), calls.
    split; [reflexivity | ]. split; [exact Ha | ].
    intros call e' Hin. specialize (Hfa _ _ Hin). injection Hfa as ->. reflexivity.
Qed.

(** C7.  [chat_with_agent] and [search_and_summarize] always return a
    response (HTTP 200), and an agent construction, [execute] or
    [get_capabilities] call that raised [e] during the run makes that
    response [success = False] with [error = str(e)].  The four car
    handlers answer HTTP 500 whenever a store access of the run raised. *)
Theorem agent_failures_contained (E : Env) :
  contains_agent_failures E (chat_with_agent E)
                          ChatResponse.success ChatResponse.error
  /\ contains_agent_failures E (search_and_summarize E)
                             SearchResponse.success SearchResponse.error
  /\ surfaces_store_failures (get_random_car E)
  /\ (forall car_id vote_request,
         surfaces_store_failures (vote_for_car E car_id vote_request))
  /\ (forall car_data, surfaces_store_failures (create_car E car_data))
  /\ surfaces_store_failures (initialize_cars E).
Proof.
  split; [ | split; [ | split; [ | split; [ | split]]]].
  - intros request w. unfold chat_with_agent.
    destruct (try_except_contains E (chat_with_agent_body E request)
                (fun e => "Error in chat endpoint: " +:+ str_exn E e)
                (fun s => ChatResponse.mk false EmptyString (ChatRequest.agent_type request)
                                          [] ∅ (Some s))
                (propagates_chat_with_agent_body E request) w)
      as (resp & w' & calls & Hrun & Htrace & Hfail).
    exists resp, w', calls. rewrite Hrun.
    split; [reflexivity | ]. split; [reflexivity | ]. split; [exact Htrace | ].
    intros call e Hin. rewrite (Hfail _ _ Hin). split; reflexivity.
  - intros request w. unfold search_and_summarize.
    destruct (try_except_contains E (search_and_summarize_body E request)
                (fun e => "Error in search endpoint: " +:+ str_exn E e)
                (fun s => SearchResponse.mk false (SearchRequest.query request) EmptyString
                                            None 0 (Some s))
                (propagates_search_and_summarize_body E request) w)
      as (resp & w' & calls & Hrun & Htrace & Hfail).
    exists resp, w', calls. rewrite Hrun.
    split; [reflexivity | ]. split; [reflexivity | ]. split; [exact Htrace | ].
    intros call e Hin. rewrite (Hfail _ _ Hin). split; reflexivity.
  - unfold get_random_car. apply try_except_surfaces.
    + apply propagates_get_random_car_body.
    + intros e w. reflexivity.
    + intros msg w. reflexivity.
  - intros car_id vote_request. unfold vote_for_car. apply try_except_surfaces.
    + apply propagates_vote_for_car_body.
    + intros [s d | msg] w; reflexivity.
    + intros msg w. reflexivity.
  - intros car_data. unfold create_car. apply try_except_surfaces.
    + unfold new_Car, insert_one, new_CarResponse. propagate.
    + intros e w. reflexivity.
    + intros msg w. reflexivity.
  - unfold initialize_cars. apply try_except_surfaces.
    + unfold count_documents, insert_many. propagate.
    + intros e w. reflexivity.
    + intros msg w. reflexivity.
Qed.

Lemma agent_failures_contained_witness :
  (exists resp w',
      chat_with_agent Demo.env_agents_down (ChatRequest.mk "hi" "chat" None)
                      Demo.empty_world = (Return resp, w')
      /\ ChatResponse.success resp = false
      /\ ChatResponse.error resp = Some "missing API key")
  /\ http_status (fst (get_random_car Demo.env_store_down Demo.empty_world)) = 500.
Proof.
  split.
  - destruct (agent_failures_contained Demo.env_agents_down) as (Hchat & _).
    destruct (Hchat (ChatRequest.mk "hi" "chat" None) Demo.empty_world)
      as (resp & w' & calls & Hrun & _ & Htrace & Hfail).
    assert (Hw : agent_trace w'
                 = [(Construct ChatAgent, Some (Exception "missing API key"))]).
    { replace w' with (snd (chat_with_agent Demo.env_agents_down
                              (ChatRequest.mk "hi" "chat" None) Demo.empty_world))
        by (rewrite Hrun; reflexivity).
      vm_compute. reflexivity. }
    rewrite Hw in Htrace. simpl in Htrace. rewrite app_nil_r in Htrace. subst calls.
    exists resp, w'. split; [exact Hrun | ].
    apply (Hfail (Construct ChatAgent) (Exception "missing API key")).
    left. reflexivity.
  - destruct (agent_failures_contained Demo.env_store_down) as (_ & _ & Hrandom & _).
    destruct (Hrandom Demo.empty_world) as (r & w' & ops & Hrun & Htrace & Hfail).
    assert (Hw : db_trace w' = [(Aggregate_sample, Some "connection refused")]).
    { replace w' with (snd (get_random_car Demo.env_store_down Demo.empty_world))
        by (rewrite Hrun; reflexivity).
      vm_compute. reflexivity. }
    rewrite Hw in Htrace. simpl in Htrace. rewrite app_nil_r in Htrace. subst ops.
    rewrite Hrun. simpl. apply (Hfail Aggregate_sample "connection refused").
    left. reflexivity.
Defined.

(** ** The chat fallback *)

Lemma unknown_agent_type (t : string) :
  t <> "search" -> t <> "chat" -> String.eqb t "search" = false /\ String.eqb t "chat" = false.
Proof. intros H1 H2. split; apply String.eqb_neq; assumption. Qed.

(** C8, amended.  A chat request whose [agent_type] is neither "search"
    nor "chat" selects the global chat agent and constructs nothing.  When
    no chat agent has been constructed yet, nothing is executed and the
    response is [success = False] with the text of the HTTP 500 "Failed to
    initialize agent" as [error].  When a chat agent exists, the message is
    executed against it, and the response relays the agent's answer and
    capabilities. *)
Theorem chat_unknown_agent_type (E : Env) (request : ChatRequest.t) (w : World) :
  ChatRequest.agent_type request <> "search" ->
  ChatRequest.agent_type request <> "chat" ->
  (chat_agent w = None ->
   chat_with_agent E request w
   = (Return (chat_failure E request (HTTPException 500 "Failed to initialize agent")),
      record_log ("Error in chat endpoint: "
                    +:+ str_exn E (HTTPException 500 "Failed to initialize agent")) w))
  /\ (forall agent,
         chat_agent w = Some agent ->
         exists resp w' later,
           chat_with_agent E request w = (Return resp, w')
           /\ agent_trace w'
              = (later ++ (Execute agent (ChatRequest.message request) None,
                           raised (agent_execute E agent (ChatRequest.message request)
                                                 None (ticks w)))
                       :: agent_trace w)%list
           /\ (forall call outcome, In (call, outcome) later ->
                                    call = Get_capabilities agent)
           /\ chat_agent w' = Some agent
           /\ search_agent w' = search_agent w
           /\ forall response capabilities,
               agent_execute E agent (ChatRequest.message request) None (ticks w)
               = Return response ->
               agent_get_capabilities E agent (S (ticks w)) = Return capabilities ->
               resp = chat_success request response capabilities).
Proof.
  intros Hs Hc. destruct (unknown_agent_type _ Hs Hc) as [Es Ec].
  split.
  - intros Hnone. unfold chat_with_agent, try_except, chat_with_agent_body.
    rewrite Es, Ec. cbn [andb]. unfold get_search_agent, get_chat_agent.
    unfold bind at 1. unfold bind at 1. unfold bind at 1. unfold ret at 1.
    unfold bind at 1. rewrite Hnone. reflexivity.
  - intros agent Hsome. unfold chat_with_agent, try_except, chat_with_agent_body.
    rewrite Es, Ec. cbn [andb]. unfold get_search_agent, get_chat_agent.
    unfold bind at 1. unfold bind at 1. unfold bind at 1. unfold ret at 1.
    unfold bind at 1. rewrite Hsome.
    unfold bind at 1. unfold execute at 1. cbv zeta.
    destruct (agent_execute E agent (ChatRequest.message request) None (ticks w))
      as [response | e] eqn:Hexec.
    + unfold bind at 1. unfold get_capabilities.
      cbn [ticks tick record_agent].
      destruct (agent_get_capabilities E agent (S (ticks w))) as [caps | e] eqn:Hcaps.
      * eexists _, _, [(Get_capabilities agent, None)].
        split; [reflexivity | ]. split; [reflexivity | ].
        split; [intros call outcome [[= <- _] | []]; reflexivity | ].
        split; [exact Hsome | ]. split; [reflexivity | ].
        intros response' caps' [= <-] [= <-]. reflexivity.
      * eexists _, _, [(Get_capabilities agent, Some e)].
        split; [reflexivity | ]. split; [reflexivity | ].
        split; [intros call outcome [[= <- _] | []]; reflexivity | ].
        split; [exact Hsome | ]. split; [reflexivity | ].
        intros response' caps' _ [=].
    + eexists _, _, [].
      split; [reflexivity | ]. split; [reflexivity | ].
      split; [intros call outcome [] | ].
      split; [exact Hsome | ]. split; [reflexivity | ].
      intros response' caps' [=].
Qed.

Lemma chat_unknown_agent_type_witness :
  exists resp w',
    chat_with_agent Demo.env (ChatRequest.mk "hi" "bogus" None)
                    (mkWorld [] None (Some (mkAgent ChatAgent 0)) 1 []
                             [(Construct ChatAgent, None)] [])
    = (Return resp, w')
    /\ ChatResponse.success resp = true
    /\ ChatResponse.response resp = "echo: hi"
    /\ ChatResponse.agent_type resp = "bogus".
Proof.
  destruct (chat_unknown_agent_type Demo.env (ChatRequest.mk "hi" "bogus" None)
              (mkWorld [] None (Some (mkAgent ChatAgent 0)) 1 []
                       [(Construct ChatAgent, None)] []))
    as (_ & Hready).
  - simpl. discriminate.
  - simpl. discriminate.
  - destruct (Hready (mkAgent ChatAgent 0) eq_refl)
      as (resp & w' & later & Hrun & _ & _ & _ & _ & Hresp).
    exists resp, w'. split; [exact Hrun | ].
    rewrite (Hresp _ _ eq_refl eq_refl). repeat split.
Defined.

(** C8 as stated fails: before any chat agent exists, a request of type
    "bogus" executes nothing. *)
Lemma bogus_agent_type_executes_nothing :
  exists resp w',
    chat_with_agent Demo.env (ChatRequest.mk "hi" "bogus" None) Demo.empty_world
    = (Return resp, w')
    /\ ChatResponse.success resp = false
    /\ ChatResponse.error resp = Some "500: Failed to initialize agent"
    /\ agent_trace w' = []
    /\ chat_agent w' = None.
Proof.
  eexists. eexists. split; [reflexivity | ]. repeat split.
Qed.

(** ** The search response *)

(** C10.  [search_and_summarize] always returns a response whose [query]
    is the request's query.  When the response is a failure, its [summary]
    is empty and its [sources_count] is 0; the response is a failure both
    when the body raised and when the agent's result is unsuccessful. *)
Theorem search_response_echoes_query (E : Env) (request : SearchRequest.t) (w : World) :
  exists resp w',
    search_and_summarize E request w = (Return resp, w')
    /\ SearchResponse.query resp = SearchRequest.query request
    /\ (SearchResponse.success resp = false ->
        SearchResponse.summary resp = EmptyString /\ SearchResponse.sources_count resp = 0)
    /\ (forall e w1,
           search_and_summarize_body E request w = (Raise e, w1) ->
           SearchResponse.success resp = false)
    /\ (forall agent t result,
           search_call E w = Some (agent, t) ->
           agent_execute E agent (search_prompt (SearchRequest.query request))
                         (Some true) t = Return result ->
           AgentResponse.success result = false ->
           SearchResponse.success resp = false).
Proof.
  unfold search_and_summarize, try_except, search_call.
  destruct (search_and_summarize_body E request w) as [r w1] eqn:Hbody.
  unfold search_and_summarize_body, get_search_agent in Hbody.
  unfold bind at 1 in Hbody.
  destruct (search_agent w) as [a | ] eqn:Hsa.
  - unfold bind at 1 in Hbody. unfold ret at 1 in Hbody.
    unfold bind at 1 in Hbody. unfold execute at 1 in Hbody. cbv zeta in Hbody.
    destruct (agent_execute E a _ (Some true) (ticks w)) as [result | e] eqn:Hexec.
    + destruct (AgentResponse.success result) eqn:Hsucc.
      * unfold bind at 1, lift at 1 in Hbody.
        destruct (validate_int E _) as [count | e]; injection Hbody as <- <-.
        -- eexists _, _. split; [reflexivity | ]. split; [reflexivity | ].
           split; [discriminate | ]. split; [discriminate | ].
           intros agent t result' [= <- <-]. rewrite Hexec. intros [= <-]. congruence.
        -- eexists _, _. split; [reflexivity | ]. split; [reflexivity | ].
           split; [auto | ]. split; [reflexivity | reflexivity].
      * injection Hbody as <- <-.
        eexists _, _. split; [reflexivity | ]. split; [reflexivity | ].
        split; [auto | ]. split; [discriminate | reflexivity].
    + injection Hbody as <- <-.
      eexists _, _. split; [reflexivity | ]. split; [reflexivity | ].
      split; [auto | ]. split; [reflexivity | reflexivity].
  - unfold bind at 1 in Hbody. unfold bind at 1 in Hbody. unfold bind at 1 in Hbody.
    unfold construct at 1 in Hbody. cbv zeta in Hbody.
    destruct (agent_init E SearchAgent (ticks w)) as [e | ] eqn:Hinit.
    + injection Hbody as <- <-.
      eexists _, _. split; [reflexivity | ]. split; [reflexivity | ].
      split; [auto | ]. split; [reflexivity | discriminate].
    + unfold set_search_agent at 1, ret at 1 in Hbody.
      unfold bind at 1 in Hbody. unfold execute at 1 in Hbody. cbv zeta in Hbody.
      cbn [ticks tick record_agent with_search_agent] in Hbody.
      destruct (agent_execute E (mkAgent SearchAgent (ticks w)) _ (Some true) (S (ticks w)))
        as [result | e] eqn:Hexec.
      * destruct (AgentResponse.success result) eqn:Hsucc.
        -- unfold bind at 1, lift at 1 in Hbody.
           destruct (validate_int E _) as [count | e]; injection Hbody as <- <-.
           ++ eexists _, _. split; [reflexivity | ]. split; [reflexivity | ].
              split; [discriminate | ]. split; [discriminate | ].
              intros agent t result' [= <- <-]. rewrite Hexec. intros [= <-]. congruence.
           ++ eexists _, _. split; [reflexivity | ]. split; [reflexivity | ].
              split; [auto | ]. split; [reflexivity | reflexivity].
        -- injection Hbody as <- <-.
           eexists _, _. split; [reflexivity | ]. split; [reflexivity | ].
           split; [auto | ]. split; [discriminate | reflexivity].
      * injection Hbody as <- <-.
        eexists _, _. split; [reflexivity | ]. split; [reflexivity | ].
        split; [auto | ]. split; [reflexivity | reflexivity].
Qed.

(** * Further properties of the handlers *)

(** ** What a handler leaves alone *)

Lemma keeps_bind {A B X} (f : World -> X) (c : M A) (k : A -> M B) :
  keeps f c -> (forall a, keeps f (k a)) -> keeps f (bind c k).
Proof.
  intros Hc Hk w. unfold bind. specialize (Hc w).
  destruct (c w) as [[a | e] w1]; simpl in *; [ | exact Hc].
  rewrite (Hk a w1). exact Hc.
Qed.

Lemma keeps_try_except {A X} (f : World -> X) (body : M A) (handler : exn -> M A) :
  keeps f body -> (forall e, keeps f (handler e)) -> keeps f (try_except body handler).
Proof.
  intros Hb Hh w. unfold try_except. specialize (Hb w).
  destruct (body w) as [[a | e] w1]; simpl in *; [exact Hb | ].
  rewrite (Hh e w1). exact Hb.
Qed.

Lemma keeps_cars_to_insert {X} (E : Env) (f : World -> X) (ds : list CarCreate.t) :
  (forall w, f (tick w) = f w) -> keeps f (cars_to_insert E ds).
Proof.
  intros Htick w. rewrite cars_to_insert_run. cbn [snd].
  generalize (2 * length ds)%nat. intros k. revert w.
  induction k as [ | k IH]; intros w; [reflexivity | ].
  cbn [ticked]. rewrite IH. apply Htick.
Qed.

(** A primitive keeps an observation that none of its world updates
    touches. *)
Ltac keeps_primitive :=
  let w := fresh "w" in
  intros w;
  cbv [db_call construct execute get_capabilities logger_error fresh_uuid now
       get_search_agent get_chat_agent set_search_agent set_chat_agent
       ret raise lift];
  repeat match goal with
         | |- context [match ?x with _ => _ end] => destruct x
         end;
  reflexivity.

Ltac keeps_step :=
  first
    [ apply keeps_try_except
    | apply keeps_bind
    | apply keeps_cars_to_insert; intros ?; reflexivity
    | progress intros
    | match goal with
      | |- keeps _ (match ?x with _ => _ end) => destruct x
      end
    | keeps_primitive ].

Ltac keeps_auto := repeat keeps_step.

(** X1.  The four car routes never touch the agents: whatever they
    answer, the two global agent slots and the trace of agent calls are
    as they were before the request. *)
Theorem car_handlers_leave_agents (E : Env) :
  keeps agent_side (get_random_car E)
  /\ (forall car_id vote_request, keeps agent_side (vote_for_car E car_id vote_request))
  /\ (forall car_data, keeps agent_side (create_car E car_data))
  /\ keeps agent_side (initialize_cars E).
Proof.
  split; [ | split; [ | split]].
  - unfold get_random_car, aggregate_sample, new_CarResponse. keeps_auto.
  - intros car_id vote_request.
    unfold vote_for_car, vote_for_car_body, find_one, update_one, new_CarResponse.
    keeps_auto.
  - intros car_data. unfold create_car, new_Car, insert_one, new_CarResponse. keeps_auto.
  - unfold initialize_cars, count_documents, insert_many. keeps_auto.
Qed.

(** X2.  The three agent routes never touch the car collection:
    whatever they answer, the stored cars and the trace of store accesses
    are as they were before the request. *)
Theorem agent_handlers_leave_store (E : Env) :
  (forall request, keeps store_side (chat_with_agent E request))
  /\ (forall request, keeps store_side (search_and_summarize E request))
  /\ keeps store_side (get_agent_capabilities E).
Proof.
  split; [ | split].
  - intros request. unfold chat_with_agent, chat_with_agent_body. keeps_auto.
  - intros request. unfold search_and_summarize, search_and_summarize_body. keeps_auto.
  - unfold get_agent_capabilities. keeps_auto.
Qed.

(** ** The random car of a store that holds cars *)

Lemma nth_lookup_nonempty (cs : list Car.t) (c0 : Car.t) (i : nat) :
  (i < length cs)%nat -> cs !! i = Some (nth i cs c0).
Proof.
  revert i. induction cs as [ | c cs IH]; intros i Hi; simpl in Hi; [lia | ].
  destruct i as [ | i]; [reflexivity | ]. simpl. apply IH. lia.
Qed.

Lemma get_random_car_drawn_run (E : Env) (w : World) (c : Car.t) :
  db_fault E (ticks w) = None ->
  cars w !! drawn_position E w = Some c ->
  get_random_car E w
  = match validate_float (Car.hot_percentage c) with
    | Return f =>
        (Return (view_of c f),
         with_cars (cars w) (tick (record_db Aggregate_sample None w)))
    | Raise e =>
        (Raise (HTTPException 500 "Failed to get random car"),
         record_log ("Error getting random car: " +:+ str_exn E e)
                    (with_cars (cars w) (tick (record_db Aggregate_sample None w))))
    end.
Proof.
  intros Hf Hc. unfold get_random_car, try_except.
  unfold bind at 1. unfold aggregate_sample. rewrite db_call_ok by assumption.
  cbn [fst snd]. unfold drawn_position in Hc.
  destruct (cars w) as [ | c0 cs] eqn:Hcars.
  { rewrite lookup_nil in Hc. discriminate. }
  set (i := (sample_draw E (ticks w) mod length (c0 :: cs))%nat) in *.
  assert (Hn : nth i (c0 :: cs) c0 = c).
  { assert (Hi : (i < length (c0 :: cs))%nat)
      by (apply Nat.mod_upper_bound; simpl; lia).
    rewrite (nth_lookup_nonempty (c0 :: cs) c0 i Hi) in Hc. congruence. }
  rewrite Hn.
  unfold new_CarResponse. unfold bind at 1. unfold lift at 1.
  destruct (validate_float (Car.hot_percentage c)) as [f | e]; reflexivity.
Qed.

Lemma drawn_position_lookup (E : Env) (w : World) :
  cars w <> [] -> exists c, cars w !! drawn_position E w = Some c /\ In c (cars w).
Proof.
  intros Hne.
  assert (Hlt : (drawn_position E w < length (cars w))%nat).
  { unfold drawn_position. apply Nat.mod_upper_bound.
    destruct (cars w); [congruence | simpl; lia]. }
  destruct (lookup_lt_is_Some_2 (cars w) _ Hlt) as [c Hc].
  exists c. split; [exact Hc | ].
  apply list_elem_of_In. eapply list_elem_of_lookup_2. exact Hc.
Qed.

(** X3.  On a collection that holds cars, with a store that answers,
    [get_random_car] makes one store access (the sample), leaves the
    collection as it was and answers the view of a stored car, the one at
    the drawn position, with that car's id, make, model, year, image_url
    and tallies, when the stored [hot_percentage] validates as a float;
    when it does not validate, the answer is HTTP 500. *)
Theorem get_random_car_answers_stored_car (E : Env) (w : World) :
  cars w <> [] ->
  db_fault E (ticks w) = None ->
  exists c,
    cars w !! drawn_position E w = Some c
    /\ In c (cars w)
    /\ cars (snd (get_random_car E w)) = cars w
    /\ db_trace (snd (get_random_car E w)) = (Aggregate_sample, None) :: db_trace w
    /\ (forall f, validate_float (Car.hot_percentage c) = Return f ->
                  fst (get_random_car E w) = Return (view_of c f))
    /\ (forall e, validate_float (Car.hot_percentage c) = Raise e ->
                  http_status (fst (get_random_car E w)) = 500).
Proof.
  intros Hne Hf.
  destruct (drawn_position_lookup E w Hne) as (c & Hc & Hin).
  exists c. split; [exact Hc | ]. split; [exact Hin | ].
  rewrite (get_random_car_drawn_run E w c Hf Hc).
  destruct (validate_float (Car.hot_percentage c)) as [f | e]; cbn [fst snd].
  - repeat split; try reflexivity; [ | discriminate]. intros f' [= <-]. reflexivity.
  - repeat split; try reflexivity; discriminate.
Qed.

Lemma get_random_car_answers_stored_car_witness :
  fst (get_random_car Demo.env (Demo.world_of [Demo.fresh_car]))
  = Return (view_of Demo.fresh_car (S754_zero false)).
Proof.
  destruct (get_random_car_answers_stored_car Demo.env (Demo.world_of [Demo.fresh_car]))
    as (c & Hc & _ & _ & _ & Hret & _).
  - simpl. discriminate.
  - reflexivity.
  - vm_compute in Hc. injection Hc as <-. apply Hret. reflexivity.
Defined.

(** ** Creating, seeding and then using the cars *)

Lemma first_match_app_fresh (car_id : string) (cs : list Car.t) (c : Car.t) :
  (forall c', In c' cs -> Car.id c' <> car_id) ->
  Car.id c = car_id ->
  first_match car_id (cs ++ [c])%list = Some (length cs, c).
Proof.
  intros Hfresh Hid. unfold first_match. apply list_find_Some.
  split; [ | split]; [ | exact Hid | ].
  - rewrite lookup_app_r by lia. rewrite Nat.sub_diag. reflexivity.
  - intros j y Hj Hlt. rewrite lookup_app_l in Hj by lia.
    apply Hfresh. apply list_elem_of_In. eapply list_elem_of_lookup_2. exact Hj.
Qed.

(** X4.  A car created by [create_car] can be voted on under the id the
    creation answered.  When no stored car has the new id and the store
    answers, a "hot" vote on the answered id returns that car with its
    make, model, year and image_url as given and the tallies
    (1, 0, 1, 100.0); the collection has grown by one car and the cars
    stored before are untouched. *)
Theorem create_car_then_vote (E : Env) (car_data : CarCreate.t)
        (vote_request : VoteRequest.t) (w : World) :
  (forall c, In c (cars w) -> Car.id c <> uuid4 E (ticks w)) ->
  VoteRequest.vote_type vote_request = "hot" ->
  (forall k, (2 <= k <= 4)%nat -> db_fault E (k + ticks w) = None) ->
  exists created w1 resp w2,
    create_car E car_data w = (Return created, w1)
    /\ CarResponse.id created = uuid4 E (ticks w)
    /\ CarResponse.make created = CarCreate.make car_data
    /\ CarResponse.model created = CarCreate.model car_data
    /\ CarResponse.year created = CarCreate.year car_data
    /\ CarResponse.image_url created = CarCreate.image_url car_data
    /\ vote_for_car E (CarResponse.id created) vote_request w1 = (Return resp, w2)
    /\ VoteResponse.car resp
       = CarResponse.mk (CarResponse.id created) (CarCreate.make car_data)
                        (CarCreate.model car_data) (CarCreate.year car_data)
                        (CarCreate.image_url car_data) 1 0 1 (Binary64.of_int 100)
    /\ length (cars w2) = S (length (cars w))
    /\ forall j, (j < length (cars w))%nat -> cars w2 !! j = cars w !! j.
Proof.
  intros Hfresh Hhot Hf.
  pose proof (create_car_ok_run E car_data w (Hf 2%nat ltac:(lia))) as Hcreate.
  cbv zeta in Hcreate.
  set (c := built_Car E car_data (ticks w)) in *.
  set (w1 := with_cars (cars w ++ [c])%list _) in *.
  assert (Hfound : first_match (uuid4 E (ticks w)) (cars w1)
                   = Some (length (cars w), c)).
  { subst w1. cbn [cars with_cars]. apply first_match_app_fresh; [exact Hfresh | reflexivity]. }
  pose proof (vote_for_car_run E (uuid4 E (ticks w)) vote_request w1
                (length (cars w)) c
                (PyFloat (Binary64.of_int 100)) (Binary64.of_int 100)) as Hvote.
  cbv zeta in Hvote. rewrite Hhot in Hvote.
  specialize (Hvote ltac:(simpl; auto) Hfound (Hf 3%nat ltac:(lia)) (Hf 4%nat ltac:(lia))
                    ltac:(vm_compute; reflexivity) ltac:(vm_compute; reflexivity)).
  exists (created_response c), w1. eexists. eexists.
  split; [exact Hcreate | ]. do 5 (split; [reflexivity | ]).
  split; [exact Hvote | ]. split; [reflexivity | ].
  unfold after_vote. cbn [cars with_cars].
  split.
  - rewrite length_insert. subst w1. cbn [cars with_cars].
    rewrite length_app. simpl. lia.
  - intros j Hj. rewrite list_lookup_insert_ne by lia.
    subst w1. cbn [cars with_cars]. apply lookup_app_l. exact Hj.
Qed.

Lemma create_car_then_vote_witness :
  exists created w1 resp w2,
    create_car Demo.env (CarCreate.mk "Ferrari" "488 GTB" 2020 "https://example.org/488.jpg")
               Demo.empty_world = (Return created, w1)
    /\ vote_for_car Demo.env (CarResponse.id created) (Demo.vote "hot") w1
       = (Return resp, w2)
    /\ tallies_of (VoteResponse.car resp) = (1, 0, 1, Demo.f100_0).
Proof.
  destruct (create_car_then_vote Demo.env
              (CarCreate.mk "Ferrari" "488 GTB" 2020 "https://example.org/488.jpg")
              (Demo.vote "hot") Demo.empty_world)
    as (created & w1 & resp & w2 & Hc & _ & _ & _ & _ & _ & Hv & Hresp & _).
  - intros c [].
  - reflexivity.
  - intros k _. reflexivity.
  - exists created, w1, resp, w2. split; [exact Hc | ]. split; [exact Hv | ].
    rewrite Hresp. reflexivity.
Defined.

(** ** Ids *)

Lemma first_match_unique (cs : list Car.t) (j : nat) (c : Car.t) :
  NoDup (map Car.id cs) -> cs !! j = Some c ->
  first_match (Car.id c) cs = Some (j, c).
Proof.
  intros Hnd Hj. unfold first_match. apply list_find_Some.
  split; [exact Hj | ]. split; [reflexivity | ].
  intros j' y Hj' Hlt Hid.
  assert (H1 : map Car.id cs !! j = Some (Car.id c)).
  { change (map Car.id cs) with (Car.id <$> cs). rewrite list_lookup_fmap, Hj. reflexivity. }
  assert (H2 : map Car.id cs !! j' = Some (Car.id c)).
  { change (map Car.id cs) with (Car.id <$> cs).
    rewrite list_lookup_fmap, Hj'. simpl. congruence. }
  pose proof (NoDup_lookup _ _ _ _ Hnd H1 H2). lia.
Qed.

Lemma ids_after_vote (cs : list Car.t) (i : nat) (car : Car.t) (h n t : Z) (p : pynum) :
  cs !! i = Some car ->
  map Car.id (<[i := set_tallies h n t p car]> cs) = map Car.id cs.
Proof.
  intros Hi. change (Car.id <$> <[i := set_tallies h n t p car]> cs = Car.id <$> cs).
  rewrite list_fmap_insert. cbn [set_tallies Car.id].
  apply list_insert_id. rewrite list_lookup_fmap, Hi. reflexivity.
Qed.

Lemma vote_for_car_ids (E : Env) (car_id : string) (vote_request : VoteRequest.t)
      (w : World) :
  map Car.id (cars (snd (vote_for_car E car_id vote_request w))) = map Car.id (cars w).
Proof.
  destruct (vote_for_car_cases E car_id vote_request w)
    as [(e & w1 & -> & Hsame) | (i & car & p & f & _ & Hfound & _ & _ & _ & _ & ->)].
  - simpl. rewrite Hsame. reflexivity.
  - simpl. apply ids_after_vote. apply (first_match_lookup _ _ _ _ Hfound).
Qed.

Lemma get_random_car_keeps_cars (E : Env) : keeps cars (get_random_car E).
Proof. unfold get_random_car, aggregate_sample, new_CarResponse. keeps_auto. Qed.

(** X5.  The car routes keep the ids of the stored cars pairwise
    distinct: a vote and a random draw never change the ids, a creation
    keeps them distinct when the new uuid is not yet the id of a stored
    car, and a seeding when the ids it draws are distinct. *)
Theorem unique_ids_preserved (E : Env) (w : World) :
  unique_ids w ->
  (forall car_id vote_request,
      unique_ids (snd (vote_for_car E car_id vote_request w)))
  /\ (forall car_data,
         (forall c, In c (cars w) -> Car.id c <> uuid4 E (ticks w)) ->
         unique_ids (snd (create_car E car_data w)))
  /\ (NoDup (map Car.id (seed_docs E w)) ->
      unique_ids (snd (initialize_cars E w)))
  /\ unique_ids (snd (get_random_car E w)).
Proof.
  unfold unique_ids. intros Hu. split; [ | split; [ | split]].
  - intros car_id vote_request. rewrite vote_for_car_ids. exact Hu.
  - intros car_data Hfresh.
    destruct (create_car_cases E car_data w)
      as [(e & w1 & -> & Hsame) | (c & w1 & Hrun & _ & Happ)].
    + simpl. rewrite Hsame. exact Hu.
    + destruct (db_fault E (S (S (ticks w)))) as [msg | ] eqn:Hf.
      { rewrite (create_car_fault_run E car_data w msg Hf) in Hrun. discriminate. }
      rewrite (create_car_ok_run E car_data w Hf). cbn [snd cars with_cars].
      rewrite map_app. apply NoDup_app. split; [exact Hu | ].
      split; [ | apply NoDup_singleton].
      intros x Hx Hx'. apply list_elem_of_In in Hx.
      apply in_map_iff in Hx as (c' & <- & Hc').
      simpl in Hx'. apply list_elem_of_singleton in Hx'.
      apply (Hfresh c' Hc'). exact Hx'.
  - intros Hnew.
    destruct (initialize_cars_cases E w)
      as [(r & w1 & -> & Hsame & _) | (Hempty & w1 & -> & Hseed)]; simpl.
    + rewrite Hsame. exact Hu.
    + rewrite Hseed. exact Hnew.
  - rewrite (get_random_car_keeps_cars E w). exact Hu.
Qed.

Lemma unique_ids_preserved_witness :
  unique_ids (snd (initialize_cars Demo.env Demo.empty_world)).
Proof.
  apply (unique_ids_preserved Demo.env Demo.empty_world).
  - constructor.
  - apply (bool_decide_unpack _). vm_compute. reflexivity.
Defined.

(** ** Votes, one after the other *)

Lemma new_counters_bounds (vt : string) (car : Car.t) :
  let h := fst (new_counters vt car) in
  let n := snd (new_counters vt car) in
  Car.hot_votes car <= h <= Car.hot_votes car + 1
  /\ Car.not_votes car <= n <= Car.not_votes car + 1
  /\ h + n = Car.hot_votes car + Car.not_votes car + 1.
Proof.
  unfold new_counters. destruct (String.eqb vt "hot"); simpl; lia.
Qed.

(** X6.  Whatever a vote answers, no stored car loses a vote or changes
    its identity: every car keeps its position, id, make, model, year,
    image_url and created_at, neither counter decreases, each grows by at
    most one and their sum by at most one. *)
Theorem vote_never_decreases (E : Env) (car_id : string) (vote_request : VoteRequest.t)
        (w : World) (j : nat) (c : Car.t) :
  cars w !! j = Some c ->
  exists c',
    cars (snd (vote_for_car E car_id vote_request w)) !! j = Some c'
    /\ Car.id c' = Car.id c /\ Car.make c' = Car.make c
    /\ Car.model c' = Car.model c /\ Car.year c' = Car.year c
    /\ Car.image_url c' = Car.image_url c /\ Car.created_at c' = Car.created_at c
    /\ Car.hot_votes c <= Car.hot_votes c' <= Car.hot_votes c + 1
    /\ Car.not_votes c <= Car.not_votes c' <= Car.not_votes c + 1
    /\ Car.hot_votes c' + Car.not_votes c'
       <= Car.hot_votes c + Car.not_votes c + 1.
Proof.
  intros Hj.
  destruct (vote_for_car_cases E car_id vote_request w)
    as [(e & w1 & -> & Hsame) | (i & car & p & f & _ & Hfound & _ & _ & _ & _ & ->)].
  - exists c. simpl. rewrite Hsame. repeat split; try assumption; lia.
  - cbn [snd after_vote cars with_cars].
    destruct (first_match_lookup _ _ _ _ Hfound) as [Hi _].
    destruct (Nat.eq_dec j i) as [-> | Hne].
    + rewrite Hi in Hj. injection Hj as <-.
      eexists. split.
      { apply list_lookup_insert_eq. eapply lookup_lt_Some; eauto. }
      pose proof (new_counters_bounds (VoteRequest.vote_type vote_request) car) as Hb.
      cbv zeta in Hb. cbn [set_tallies Car.id Car.make Car.model Car.year Car.image_url
                                       Car.created_at Car.hot_votes Car.not_votes].
      repeat split; try reflexivity; lia.
    + exists c. rewrite list_lookup_insert_ne by auto.
      repeat split; try assumption; lia.
Qed.

Lemma vote_never_decreases_witness :
  exists c',
    cars (snd (vote_for_car Demo.env "car-1" (Demo.vote "not")
                            (Demo.world_of [Demo.fresh_car]))) !! 0%nat = Some c'
    /\ Car.hot_votes c' = 0 /\ Car.not_votes c' = 1.
Proof.
  destruct (vote_never_decreases Demo.env "car-1" (Demo.vote "not")
              (Demo.world_of [Demo.fresh_car]) 0%nat Demo.fresh_car eq_refl)
    as (c' & Hc' & _).
  exists c'. split; [exact Hc' | ].
  vm_compute in Hc'. injection Hc' as <-. split; reflexivity.
Defined.

(** X7.  A vote that is answered with an error has written nothing: the
    collection is as before, and the only store access of the request
    that succeeded, if any, is the lookup [find_one] of [car_id]. *)
Theorem vote_error_writes_nothing (E : Env) (car_id : string)
        (vote_request : VoteRequest.t) (w : World) (e : exn) (w' : World) :
  vote_for_car E car_id vote_request w = (Raise e, w') ->
  cars w' = cars w
  /\ forall op, In (op, None) (firstn (length (db_trace w') - length (db_trace w))
                                      (db_trace w')) ->
                op = Find_one car_id.
Proof.
  intros Hrun.
  destruct (existsb (String.eqb (VoteRequest.vote_type vote_request)) ["hot"; "not"]) eqn:Hc.
  2: { unfold vote_for_car, try_except, vote_for_car_body in Hrun. rewrite Hc in Hrun.
       simpl in Hrun. injection Hrun as _ <-. rewrite Nat.sub_diag. simpl.
       split; [reflexivity | intros op []]. }
  assert (Hv : In (VoteRequest.vote_type vote_request) ["hot"; "not"]).
  { apply vote_type_check in Hc. simpl. intuition. }
  destruct (db_fault E (ticks w)) as [msg | ] eqn:Hf1.
  { rewrite (vote_for_car_lookup_fault_run E car_id vote_request w msg Hv Hf1) in Hrun.
    injection Hrun as _ <-. cbn [cars db_trace record_log tick record_db length].
    replace (S (length (db_trace w)) - length (db_trace w))%nat with 1%nat by lia.
    split; [reflexivity | ]. intros op [[=] | []]. }
  destruct (first_match car_id (cars w)) as [[i car] | ] eqn:Hfound.
  2: { rewrite (vote_for_car_absent_run E car_id vote_request w Hv Hfound Hf1) in Hrun.
       injection Hrun as _ <-. cbn [cars db_trace tick record_db length].
       replace (S (length (db_trace w)) - length (db_trace w))%nat with 1%nat by lia.
       split; [reflexivity | ]. intros op [[= <-] | []]. reflexivity. }
  destruct (hot_percentage_of (fst (new_counters (VoteRequest.vote_type vote_request) car))
              (fst (new_counters (VoteRequest.vote_type vote_request) car)
               + snd (new_counters (VoteRequest.vote_type vote_request) car)))
    as [p | e0] eqn:Hp.
  2: { revert Hrun. vote_prefix Hv Hfound Hf1.
       destruct (new_counters _ car) as [h' n'] eqn:Hnc. cbn [fst snd] in *.
       unfold bind at 1. unfold lift at 1. rewrite Hp.
       destruct e0; simpl; intros [= _ <-];
         cbn [cars db_trace record_log with_cars tick record_db length];
         replace (S (length (db_trace w)) - length (db_trace w))%nat with 1%nat by lia;
         (split; [reflexivity | intros op [[= <-] | []]; reflexivity]). }
  destruct (db_fault E (S (ticks w))) as [msg | ] eqn:Hf2.
  { rewrite (vote_for_car_update_fault_run E car_id vote_request w i car p msg
               Hv Hfound Hf1 Hf2 Hp) in Hrun.
    injection Hrun as _ <-.
    cbn [cars db_trace record_log with_cars tick record_db length].
    replace (S (S (length (db_trace w))) - length (db_trace w))%nat with 2%nat by lia.
    split; [reflexivity | ].
    intros op [[=] | [[= <-] | []]]. reflexivity. }
  destruct (validate_stored_percentage _ _ _ Hp) as (f & Hfl & _).
  rewrite (vote_for_car_run E car_id vote_request w i car p f Hv Hfound Hf1 Hf2 Hp Hfl)
    in Hrun.
  discriminate.
Qed.

Lemma vote_error_writes_nothing_witness :
  cars (snd (vote_for_car Demo.env_store_down "car-1" (Demo.vote "hot")
                          (Demo.world_of [Demo.fresh_car])))
  = [Demo.fresh_car].
Proof.
  destruct (vote_for_car Demo.env_store_down "car-1" (Demo.vote "hot")
                         (Demo.world_of [Demo.fresh_car])) as [r w'] eqn:Hrun.
  assert (Hr : exists e, r = Raise e).
  { vm_compute in Hrun. injection Hrun as <- _. eauto. }
  destruct Hr as (e & ->).
  apply (vote_error_writes_nothing _ _ _ _ _ _ Hrun).
Defined.

Lemma votes_of_type_cons (vt : string) (v : VoteRequest.t) (votes : list VoteRequest.t) :
  votes_of_type vt (v :: votes)
  = (if String.eqb (VoteRequest.vote_type v) vt then 1 else 0) + votes_of_type vt votes.
Proof.
  unfold votes_of_type. rewrite filter_cons.
  destruct (String.eqb_spec (VoteRequest.vote_type v) vt) as [Heq | Hne].
  - rewrite decide_True by exact Heq. simpl length. lia.
  - rewrite decide_False by exact Hne. lia.
Qed.

Lemma cast_votes_counted (E : Env) (votes : list VoteRequest.t) :
  store_answers E ->
  Forall (fun v => In (VoteRequest.vote_type v) ["hot"; "not"]) votes ->
  forall (w : World) (j : nat) (c : Car.t),
    unique_ids w ->
    cars w !! j = Some c ->
    0 <= Car.hot_votes c -> 0 <= Car.not_votes c ->
    exists c',
      cars (cast_votes E (Car.id c) votes w) !! j = Some c'
      /\ Car.id c' = Car.id c
      /\ Car.hot_votes c' = Car.hot_votes c + votes_of_type "hot" votes
      /\ Car.not_votes c' = Car.not_votes c + votes_of_type "not" votes
      /\ (votes <> [] -> Car.total_votes c' = Car.hot_votes c' + Car.not_votes c')
      /\ (forall k, k <> j -> cars (cast_votes E (Car.id c) votes w) !! k = cars w !! k).
Proof.
  intros Hstore Hvalid. induction Hvalid as [ | v votes Hv _ IH];
    intros w j c Hu Hj Hh Hn.
  - exists c. cbn [cast_votes]. unfold votes_of_type. simpl.
    repeat split; try assumption; try lia. congruence.
  - cbn [cast_votes].
    pose proof (first_match_unique (cars w) j c Hu Hj) as Hfound.
    destruct (vote_for_car_total E (Car.id c) v w j c Hv Hfound
                (Hstore _) (Hstore _) Hh Hn) as (resp & w1 & Hrun).
    destruct (vote_for_car_returns E (Car.id c) v w j c resp w1 Hfound Hrun)
      as (_ & Hspec & p & _ & Hcars).
    rewrite Hrun. cbn [snd].
    set (r := VoteResponse.car resp) in *.
    set (c1 := set_tallies (CarResponse.hot_votes r) (CarResponse.not_votes r)
                           (CarResponse.total_votes r) p c) in *.
    destruct Hspec as (Hhot & Hnot & Htot & _).
    assert (Hlt : (j < length (cars w))%nat) by (eapply lookup_lt_Some; eauto).
    assert (Hj1 : cars w1 !! j = Some c1).
    { rewrite Hcars. apply list_lookup_insert_eq. exact Hlt. }
    assert (Hu1 : unique_ids w1).
    { unfold unique_ids. rewrite Hcars. unfold c1. rewrite ids_after_vote; assumption. }
    assert (Hcount :
              CarResponse.hot_votes r
              = Car.hot_votes c + (if String.eqb (VoteRequest.vote_type v) "hot" then 1 else 0)
              /\ CarResponse.not_votes r
                 = Car.not_votes c
                   + (if String.eqb (VoteRequest.vote_type v) "not" then 1 else 0)).
    { simpl in Hv. destruct Hv as [Hvt | [Hvt | []]]; symmetry in Hvt.
      - destruct (Hhot Hvt) as [-> ->]. rewrite Hvt. simpl. lia.
      - destruct (Hnot Hvt) as [-> ->]. rewrite Hvt. simpl. lia. }
    destruct Hcount as [Hc1 Hc2].
    destruct (IH w1 j c1 Hu1 Hj1) as (c' & Hc' & Hid & Hh' & Hn' & Ht' & Hother).
    { unfold c1. cbn [set_tallies Car.hot_votes]. rewrite Hc1.
      destruct (String.eqb (VoteRequest.vote_type v) "hot"); lia. }
    { unfold c1. cbn [set_tallies Car.not_votes]. rewrite Hc2.
      destruct (String.eqb (VoteRequest.vote_type v) "not"); lia. }
    change (Car.id c1) with (Car.id c) in *.
    exists c'. split; [exact Hc' | ]. split; [exact Hid | ].
    rewrite !votes_of_type_cons.
    unfold c1 in Hh', Hn'. cbn [set_tallies Car.hot_votes Car.not_votes] in Hh', Hn'.
    split; [lia | ]. split; [lia | ]. split.
    + intros _. destruct votes as [ | v' votes'].
      * cbn [cast_votes] in Hc'. rewrite Hj1 in Hc'. injection Hc' as <-.
        unfold c1. cbn [set_tallies Car.total_votes Car.hot_votes Car.not_votes].
        exact Htot.
      * apply Ht'. discriminate.
    + intros k Hk. rewrite (Hother k Hk). rewrite Hcars.
      apply list_lookup_insert_ne. auto.
Qed.

(** X8.  Votes are counted.  With a store that answers and pairwise
    distinct ids, after any sequence of "hot" and "not" votes on the id
    of a stored car with counters that are not negative, that car's
    [hot_votes] has grown by the number of "hot" votes and its
    [not_votes] by the number of "not" votes, [total_votes] is their sum
    as soon as one vote was cast, and every other car is untouched. *)
Theorem votes_are_counted (E : Env) (votes : list VoteRequest.t)
        (w : World) (j : nat) (c : Car.t) :
  store_answers E ->
  Forall (fun v => In (VoteRequest.vote_type v) ["hot"; "not"]) votes ->
  unique_ids w ->
  cars w !! j = Some c ->
  0 <= Car.hot_votes c -> 0 <= Car.not_votes c ->
  exists c',
    cars (cast_votes E (Car.id c) votes w) !! j = Some c'
    /\ Car.id c' = Car.id c
    /\ Car.hot_votes c' = Car.hot_votes c + votes_of_type "hot" votes
    /\ Car.not_votes c' = Car.not_votes c + votes_of_type "not" votes
    /\ (votes <> [] -> Car.total_votes c' = Car.hot_votes c' + Car.not_votes c')
    /\ (forall k, k <> j -> cars (cast_votes E (Car.id c) votes w) !! k = cars w !! k).
Proof.
  intros Hstore Hvalid Hu Hj Hh Hn.
  apply cast_votes_counted; assumption.
Qed.

Lemma votes_are_counted_witness :
  exists c',
    cars (cast_votes Demo.env "car-1"
            [Demo.vote "hot"; Demo.vote "not"; Demo.vote "hot"]
            (Demo.world_of [Demo.fresh_car])) !! 0%nat = Some c'
    /\ Car.hot_votes c' = 2 /\ Car.not_votes c' = 1 /\ Car.total_votes c' = 3.
Proof.
  destruct (votes_are_counted Demo.env
              [Demo.vote "hot"; Demo.vote "not"; Demo.vote "hot"]
              (Demo.world_of [Demo.fresh_car]) 0%nat Demo.fresh_car)
    as (c' & Hc' & _ & Hh & Hn & Ht & _).
  - intros t. reflexivity.
  - repeat (constructor; [simpl; auto | ]). constructor.
  - apply (bool_decide_unpack _). vm_compute. reflexivity.
  - reflexivity.
  - simpl. lia.
  - simpl. lia.
  - exists c'. split; [exact Hc' | ]. split; [exact Hh | ]. split; [exact Hn | ].
    rewrite Ht by discriminate. rewrite Hh, Hn. reflexivity.
Defined.

(** X9.  After [initialize_cars] has seeded an empty collection,
    [get_random_car] answers one of the sample cars, with the make, model,
    year and image_url of the sample and the tallies (0, 0, 0, 0.0), and
    leaves the seeded collection as it is. *)
Theorem seed_then_random_car (E : Env) (w : World) :
  cars w = [] ->
  db_fault E (ticks w) = None ->
  db_fault E (25 + ticks w)%nat = None ->
  db_fault E (26 + ticks w)%nat = None ->
  exists r w1 resp w2 d,
    initialize_cars E w = (Return r, w1)
    /\ get_random_car E w1 = (Return resp, w2)
    /\ In d sample_cars
    /\ CarResponse.make resp = CarCreate.make d
    /\ CarResponse.model resp = CarCreate.model d
    /\ CarResponse.year resp = CarCreate.year d
    /\ CarResponse.image_url resp = CarCreate.image_url d
    /\ tallies_of resp = (0, 0, 0, S754_zero false)
    /\ cars w2 = cars w1.
Proof.
  intros Hempty Hf Hf2 Hf3.
  pose proof (initialize_cars_seed_run E w Hf Hempty Hf2) as Hrun.
  set (w1 := with_cars (seed_docs E w) _) in Hrun.
  assert (Hcars1 : cars w1 = seed_docs E w) by reflexivity.
  assert (Hticks1 : ticks w1 = (26 + ticks w)%nat) by reflexivity.
  destruct (drawn_position_lookup E w1) as (c & Hc & _).
  { rewrite Hcars1. apply seed_docs_nonempty. }
  assert (Hf3' : db_fault E (ticks w1) = None) by (rewrite Hticks1; exact Hf3).
  pose proof (get_random_car_drawn_run E w1 c Hf3' Hc) as Hrandom.
  rewrite Hcars1 in Hc.
  destruct (Forall2_lookup_r _ _ _ _ _ (seed_docs_seeded E w) Hc)
    as (d & Hd & Hmake & Hmodel & Hyear & Hurl & Hh & Hn & Ht & Hp).
  rewrite Hp in Hrandom. cbn [validate_float] in Hrandom.
  eexists _, w1, _, _, d. split; [exact Hrun | ]. split; [exact Hrandom | ].
  split; [apply list_elem_of_In; eapply list_elem_of_lookup_2; exact Hd | ].
  unfold view_of, tallies_of. simpl.
  rewrite Hh, Hn, Ht. auto 10.
Qed.

Lemma seed_then_random_car_witness :
  exists resp,
    fst (get_random_car Demo.env (snd (initialize_cars Demo.env Demo.empty_world)))
    = Return resp
    /\ tallies_of resp = (0, 0, 0, S754_zero false).
Proof.
  destruct (seed_then_random_car Demo.env Demo.empty_world eq_refl eq_refl eq_refl eq_refl)
    as (r & w1 & resp & w2 & d & Hinit & Hrandom & _ & _ & _ & _ & _ & Htallies & _).
  exists resp. rewrite Hinit. cbn [snd]. rewrite Hrandom. split; [reflexivity | exact Htallies].
Defined.

(** ** Agents: construction on first use, and reuse *)

Lemma try_except_bind {A B} (c : M A) (k : A -> M B) (h : exn -> M B) (w : World) :
  try_except (bind c k) h w
  = match c w with
    | (Return x, w1) => try_except (k x) h w1
    | (Raise e, w1) => h e w1
    end.
Proof. unfold try_except, bind. destruct (c w) as [[x | e] w1]; reflexivity. Qed.

Ltac step_try :=
  rewrite try_except_bind;
  cbn [get_search_agent get_chat_agent set_search_agent set_chat_agent ret].

Lemma chat_ready_run (E : Env) (request : ChatRequest.t) (w : World) (a : Agent) :
  selected_agent request w = Some a ->
  chat_with_agent E request w = relay_chat E request a w.
Proof.
  unfold selected_agent, chat_with_agent, chat_with_agent_body.
  do 2 step_try.
  destruct (String.eqb (ChatRequest.agent_type request) "search") eqn:Hs; intros Hsel.
  - apply String.eqb_eq in Hs. rewrite Hs, Hsel.
    cbn [String.eqb Ascii.eqb Bool.eqb is_none andb].
    do 2 step_try. rewrite Hsel.
    unfold relay_chat, chat_success, chat_failure. rewrite Hs. reflexivity.
  - cbn [andb].
    assert (Hguard : String.eqb (ChatRequest.agent_type request) "chat"
                     && is_none (chat_agent w) = false).
    { rewrite Hsel. cbn [is_none]. apply andb_false_r. }
    rewrite Hguard. do 2 step_try. rewrite Hsel. reflexivity.
Qed.

Lemma chat_construct_chat_run (E : Env) (request : ChatRequest.t) (w : World) :
  ChatRequest.agent_type request = "chat" ->
  chat_agent w = None ->
  chat_with_agent E request w
  = match agent_init E ChatAgent (ticks w) with
    | None =>
        relay_chat E request (mkAgent ChatAgent (ticks w))
                   (with_chat_agent (Some (mkAgent ChatAgent (ticks w)))
                                    (constructed ChatAgent w))
    | Some e =>
        (Return (chat_failure E request e),
         record_log ("Error in chat endpoint: " +:+ str_exn E e)
                    (tick (record_agent (Construct ChatAgent) (Some e) w)))
    end.
Proof.
  unfold chat_with_agent, chat_with_agent_body.
  intros Ht Hnone. do 2 step_try.
  rewrite Ht, Hnone. cbn [String.eqb Ascii.eqb Bool.eqb andb is_none].
  step_try. unfold bind at 1. unfold construct at 1. cbv zeta.
  unfold relay_chat, chat_success, chat_failure. rewrite Ht.
  destruct (agent_init E ChatAgent (ticks w)) as [e | ] eqn:Hinit.
  - reflexivity.
  - cbn [set_chat_agent]. step_try. reflexivity.
Qed.

Lemma chat_construct_search_run (E : Env) (request : ChatRequest.t) (w : World) :
  ChatRequest.agent_type request = "search" ->
  search_agent w = None ->
  chat_with_agent E request w
  = match agent_init E SearchAgent (ticks w) with
    | None =>
        relay_chat E request (mkAgent SearchAgent (ticks w))
                   (with_search_agent (Some (mkAgent SearchAgent (ticks w)))
                                      (constructed SearchAgent w))
    | Some e =>
        (Return (chat_failure E request e),
         record_log ("Error in chat endpoint: " +:+ str_exn E e)
                    (tick (record_agent (Construct SearchAgent) (Some e) w)))
    end.
Proof.
  unfold chat_with_agent, chat_with_agent_body.
  intros Ht Hnone. do 2 step_try.
  rewrite Ht, Hnone. cbn [String.eqb Ascii.eqb Bool.eqb andb is_none].
  step_try. unfold bind at 1. unfold construct at 1. cbv zeta.
  unfold relay_chat, chat_success, chat_failure. rewrite Ht.
  destruct (agent_init E SearchAgent (ticks w)) as [e | ] eqn:Hinit.
  - reflexivity.
  - cbn [set_search_agent]. step_try. reflexivity.
Qed.

Lemma search_run (E : Env) (request : SearchRequest.t) (w : World) :
  search_and_summarize E request w
  = match search_agent w with
    | Some a => relay_search E request a w
    | None =>
        match agent_init E SearchAgent (ticks w) with
        | None =>
            relay_search E request (mkAgent SearchAgent (ticks w))
                         (with_search_agent (Some (mkAgent SearchAgent (ticks w)))
                                            (constructed SearchAgent w))
        | Some e =>
            (Return (SearchResponse.mk false (SearchRequest.query request) EmptyString
                                       None 0 (Some (str_exn E e))),
             record_log ("Error in search endpoint: " +:+ str_exn E e)
                        (tick (record_agent (Construct SearchAgent) (Some e) w)))
        end
    end.
Proof.
  unfold search_and_summarize, search_and_summarize_body.
  step_try.
  destruct (search_agent w) as [a | ] eqn:Hsa.
  - step_try. reflexivity.
  - step_try. unfold bind at 1. unfold construct at 1. cbv zeta.
    destruct (agent_init E SearchAgent (ticks w)) as [e | ] eqn:Hinit.
    + reflexivity.
    + cbn [set_search_agent]. unfold bind at 1. cbn [ret]. reflexivity.
Qed.

Lemma relay_chat_spec (E : Env) (request : ChatRequest.t) (a : Agent) (w : World) :
  exists resp w' calls,
    relay_chat E request a w = (Return resp, w')
    /\ agent_trace w' = (calls ++ agent_trace w)%list
    /\ runs_on a (ChatRequest.message request) None calls
    /\ search_agent w' = search_agent w
    /\ chat_agent w' = chat_agent w
    /\ ChatResponse.agent_type resp = ChatRequest.agent_type request
    /\ (forall response capabilities,
           agent_execute E a (ChatRequest.message request) None (ticks w)
           = Return response ->
           agent_get_capabilities E a (S (ticks w)) = Return capabilities ->
           resp = chat_success request response capabilities)
    /\ (forall e,
           agent_execute E a (ChatRequest.message request) None (ticks w) = Raise e ->
           resp = chat_failure E request e)
    /\ (forall response e,
           agent_execute E a (ChatRequest.message request) None (ticks w)
           = Return response ->
           agent_get_capabilities E a (S (ticks w)) = Raise e ->
           resp = chat_failure E request e).
Proof.
  unfold relay_chat. rewrite try_except_bind. unfold execute at 1. cbv zeta.
  destruct (agent_execute E a (ChatRequest.message request) None (ticks w))
    as [response | e] eqn:Hexec.
  - rewrite try_except_bind. unfold get_capabilities at 1. cbv zeta.
    cbn [ticks tick record_agent].
    destruct (agent_get_capabilities E a (S (ticks w))) as [caps | e] eqn:Hcaps.
    + eexists _, _, [(Get_capabilities a, None); (Execute a _ None, None)].
      split; [reflexivity | ]. split; [reflexivity | ].
      split.
      { exists [(Get_capabilities a, None)], None. split; [reflexivity | ].
        intros call o [[= <- _] | []]. reflexivity. }
      do 3 (split; [reflexivity | ]).
      split; [intros ? ? [= <-] [= <-]; reflexivity | ].
      split; [intros ? [=] | intros ? ? _ [=]].
    + eexists _, _, [(Get_capabilities a, Some e); (Execute a _ None, None)].
      split; [reflexivity | ]. split; [reflexivity | ].
      split.
      { exists [(Get_capabilities a, Some e)], None. split; [reflexivity | ].
        intros call o [[= <- _] | []]. reflexivity. }
      do 3 (split; [reflexivity | ]).
      split; [intros ? ? _ [=] | ].
      split; [intros ? [=] | intros ? ? _ [= <-]; reflexivity].
  - eexists _, _, [(Execute a _ None, Some e)].
    split; [reflexivity | ]. split; [reflexivity | ].
    split.
    { exists [], (Some e). split; [reflexivity | intros ? ? []]. }
    do 3 (split; [reflexivity | ]).
    split; [intros ? ? [=] | ].
    split; [intros ? [= <-]; reflexivity | intros ? ? [=]].
Qed.

Lemma relay_search_spec (E : Env) (request : SearchRequest.t) (a : Agent) (w : World) :
  exists resp w',
    relay_search E request a w = (Return resp, w')
    /\ agent_trace w'
       = (Execute a (search_prompt (SearchRequest.query request)) (Some true),
          raised (agent_execute E a (search_prompt (SearchRequest.query request))
                                (Some true) (ticks w)))
           :: agent_trace w
    /\ search_agent w' = search_agent w
    /\ chat_agent w' = chat_agent w
    /\ (forall e,
           agent_execute E a (search_prompt (SearchRequest.query request))
                         (Some true) (ticks w) = Raise e ->
           resp = SearchResponse.mk false (SearchRequest.query request) EmptyString
                                    None 0 (Some (str_exn E e)))
    /\ (forall result,
           agent_execute E a (search_prompt (SearchRequest.query request))
                         (Some true) (ticks w) = Return result ->
           if AgentResponse.success result
           then match validate_int E (tools_used result) with
                | Return n =>
                    resp = SearchResponse.mk true (SearchRequest.query request)
                                             (AgentResponse.content result)
                                             (Some (AgentResponse.metadata result))
                                             n None
                | Raise e =>
                    resp = SearchResponse.mk false (SearchRequest.query request)
                                             EmptyString None 0 (Some (str_exn E e))
                end
           else resp = SearchResponse.mk false (SearchRequest.query request)
                                         EmptyString None 0
                                         (AgentResponse.error result)).
Proof.
  unfold relay_search. rewrite try_except_bind. unfold execute at 1. cbv zeta.
  destruct (agent_execute E a (search_prompt (SearchRequest.query request))
                          (Some true) (ticks w)) as [result | e] eqn:Hexec.
  - destruct (AgentResponse.success result) eqn:Hsucc.
    + rewrite try_except_bind. unfold lift at 1. fold (tools_used result).
      destruct (validate_int E (tools_used result)) as [n | e] eqn:Hn.
      * eexists _, _. split; [reflexivity | ]. do 3 (split; [reflexivity | ]).
        split; [intros ? [=] | ]. intros ? [= <-]. rewrite Hsucc, Hn. reflexivity.
      * eexists _, _. split; [reflexivity | ]. do 3 (split; [reflexivity | ]).
        split; [intros ? [=] | ]. intros ? [= <-]. rewrite Hsucc, Hn. reflexivity.
    + eexists _, _. split; [reflexivity | ]. do 3 (split; [reflexivity | ]).
      split; [intros ? [=] | ]. intros ? [= <-]. rewrite Hsucc. reflexivity.
  - eexists _, _. split; [reflexivity | ]. do 3 (split; [reflexivity | ]).
    split; [intros ? [= <-]; reflexivity | intros ? [=]].
Qed.

Lemma kind_of_selected (request : ChatRequest.t) (k : AgentKind) (w : World) :
  kind_of (ChatRequest.agent_type request) = Some k ->
  selected_agent request w = slot k w.
Proof.
  unfold kind_of, selected_agent.
  destruct (String.eqb (ChatRequest.agent_type request) "search").
  - intros [= <-]. reflexivity.
  - destruct (String.eqb (ChatRequest.agent_type request) "chat"); [ | discriminate].
    intros [= <-]. reflexivity.
Qed.

Lemma kind_of_cases (agent_type : string) (k : AgentKind) :
  kind_of agent_type = Some k ->
  (k = SearchAgent /\ agent_type = "search") \/ (k = ChatAgent /\ agent_type = "chat").
Proof.
  unfold kind_of.
  destruct (String.eqb_spec agent_type "search") as [-> | _].
  - intros [= <-]. auto.
  - destruct (String.eqb_spec agent_type "chat") as [-> | _]; [ | discriminate].
    intros [= <-]. auto.
Qed.

(** X10.  When the slot a chat request selects holds an agent,
    [chat_with_agent] constructs nothing: it executes the message on that
    agent, then asks only that agent for its capabilities, leaves both
    slots as they were, and answers the agent's response when the two
    calls return. *)
Theorem chat_reuses_agent (E : Env) (request : ChatRequest.t) (w : World) (a : Agent) :
  selected_agent request w = Some a ->
  exists resp w' calls,
    chat_with_agent E request w = (Return resp, w')
    /\ agent_trace w' = (calls ++ agent_trace w)%list
    /\ runs_on a (ChatRequest.message request) None calls
    /\ search_agent w' = search_agent w
    /\ chat_agent w' = chat_agent w
    /\ (forall response capabilities,
           agent_execute E a (ChatRequest.message request) None (ticks w)
           = Return response ->
           agent_get_capabilities E a (S (ticks w)) = Return capabilities ->
           resp = chat_success request response capabilities).
Proof.
  intros Hsel. rewrite (chat_ready_run E request w a Hsel).
  destruct (relay_chat_spec E request a w)
    as (resp & w' & calls & Hrun & Htrace & Hruns & Hs & Hc & _ & Hok & _).
  exists resp, w', calls. auto 10.
Qed.

Lemma chat_reuses_agent_witness :
  exists resp w',
    chat_with_agent Demo.env (ChatRequest.mk "hi" "chat" None)
                    (mkWorld [] None (Some (mkAgent ChatAgent 0)) 1 []
                             [(Construct ChatAgent, None)] [])
    = (Return resp, w')
    /\ ChatResponse.response resp = "echo: hi"
    /\ chat_agent w' = Some (mkAgent ChatAgent 0).
Proof.
  destruct (chat_reuses_agent Demo.env (ChatRequest.mk "hi" "chat" None)
              (mkWorld [] None (Some (mkAgent ChatAgent 0)) 1 []
                       [(Construct ChatAgent, None)] [])
              (mkAgent ChatAgent 0) eq_refl)
    as (resp & w' & calls & Hrun & _ & _ & _ & Hc & Hok).
  exists resp, w'. split; [exact Hrun | ].
  rewrite (Hok _ _ eq_refl eq_refl). split; [reflexivity | exact Hc].
Defined.

Lemma chat_first_use_run (E : Env) (request : ChatRequest.t) (k : AgentKind) (w : World) :
  kind_of (ChatRequest.agent_type request) = Some k ->
  slot k w = None ->
  agent_init E k (ticks w) = None ->
  exists resp w' calls,
    chat_with_agent E request w = (Return resp, w')
    /\ slot k w' = Some (mkAgent k (ticks w))
    /\ other_slot k w' = other_slot k w
    /\ agent_trace w' = (calls ++ (Construct k, None) :: agent_trace w)%list
    /\ runs_on (mkAgent k (ticks w)) (ChatRequest.message request) None calls.
Proof.
  intros Hk Hnone Hinit.
  destruct (kind_of_cases _ _ Hk) as [[-> Ht] | [-> Ht]]; cbn [slot other_slot] in *.
  - rewrite (chat_construct_search_run E request w Ht Hnone), Hinit.
    destruct (relay_chat_spec E request (mkAgent SearchAgent (ticks w))
                (with_search_agent (Some (mkAgent SearchAgent (ticks w)))
                                   (constructed SearchAgent w)))
      as (resp & w' & calls & Hrun & Htrace & Hruns & Hs & Hc & _).
    exists resp, w', calls. split; [exact Hrun | ].
    split; [exact Hs | ]. split; [exact Hc | ]. split; [exact Htrace | exact Hruns].
  - rewrite (chat_construct_chat_run E request w Ht Hnone), Hinit.
    destruct (relay_chat_spec E request (mkAgent ChatAgent (ticks w))
                (with_chat_agent (Some (mkAgent ChatAgent (ticks w)))
                                 (constructed ChatAgent w)))
      as (resp & w' & calls & Hrun & Htrace & Hruns & Hs & Hc & _).
    exists resp, w', calls. split; [exact Hrun | ].
    split; [exact Hc | ]. split; [exact Hs | ]. split; [exact Htrace | exact Hruns].
Qed.

(** X11.  The first chat request of type "search" or "chat" constructs
    the agent of that type.  With the slot of the type empty: when the
    construction succeeds the new agent is stored in the slot and the
    message is executed on it; when the construction raises [e], the
    answer is the failure response with [error = str(e)] and the slot
    stays empty.  The slot of the other type is untouched in both
    cases. *)
Theorem chat_constructs_on_first_use (E : Env) (request : ChatRequest.t)
        (k : AgentKind) (w : World) :
  kind_of (ChatRequest.agent_type request) = Some k ->
  slot k w = None ->
  (agent_init E k (ticks w) = None ->
   exists resp w' calls,
     chat_with_agent E request w = (Return resp, w')
     /\ slot k w' = Some (mkAgent k (ticks w))
     /\ other_slot k w' = other_slot k w
     /\ agent_trace w' = (calls ++ (Construct k, None) :: agent_trace w)%list
     /\ runs_on (mkAgent k (ticks w)) (ChatRequest.message request) None calls)
  /\ (forall e,
         agent_init E k (ticks w) = Some e ->
         exists w',
           chat_with_agent E request w = (Return (chat_failure E request e), w')
           /\ slot k w' = None
           /\ other_slot k w' = other_slot k w
           /\ agent_trace w' = (Construct k, Some e) :: agent_trace w).
Proof.
  intros Hk Hnone. split; [apply chat_first_use_run; assumption | ].
  destruct (kind_of_cases _ _ Hk) as [[-> Ht] | [-> Ht]]; cbn [slot other_slot] in *.
  - rewrite (chat_construct_search_run E request w Ht Hnone).
    intros e ->. eexists. split; [reflexivity | ].
    cbn [search_agent chat_agent agent_trace record_log tick record_agent]. auto.
  - rewrite (chat_construct_chat_run E request w Ht Hnone).
    intros e ->. eexists. split; [reflexivity | ].
    cbn [search_agent chat_agent agent_trace record_log tick record_agent]. auto.
Qed.

Lemma chat_constructs_on_first_use_witness :
  exists resp w',
    chat_with_agent Demo.env (ChatRequest.mk "hi" "search" None) Demo.empty_world
    = (Return resp, w')
    /\ search_agent w' = Some (mkAgent SearchAgent 0)
    /\ chat_agent w' = None.
Proof.
  destruct (chat_constructs_on_first_use Demo.env (ChatRequest.mk "hi" "search" None)
              SearchAgent Demo.empty_world eq_refl eq_refl) as (Hok & _).
  destruct (Hok eq_refl) as (resp & w' & calls & Hrun & Hslot & Hother & _).
  exists resp, w'. split; [exact Hrun | ]. split; [exact Hslot | exact Hother].
Defined.

(** X12.  Two chat requests of the same type ("search" or "chat") on a
    fresh slot share one agent: the first constructs it, the second
    constructs nothing and executes its message on the agent of the
    first, which is still in the slot afterwards. *)
Theorem chat_second_request_reuses (E : Env) (first second : ChatRequest.t)
        (k : AgentKind) (w : World) :
  kind_of (ChatRequest.agent_type first) = Some k ->
  kind_of (ChatRequest.agent_type second) = Some k ->
  slot k w = None ->
  agent_init E k (ticks w) = None ->
  exists resp1 w1 resp2 w2 calls,
    chat_with_agent E first w = (Return resp1, w1)
    /\ chat_with_agent E second w1 = (Return resp2, w2)
    /\ agent_trace w2 = (calls ++ agent_trace w1)%list
    /\ runs_on (mkAgent k (ticks w)) (ChatRequest.message second) None calls
    /\ slot k w2 = Some (mkAgent k (ticks w)).
Proof.
  intros Hk1 Hk2 Hnone Hinit.
  destruct (chat_first_use_run E first k w Hk1 Hnone Hinit)
    as (resp1 & w1 & calls1 & Hrun1 & Hslot & _).
  assert (Hsel : selected_agent second w1 = Some (mkAgent k (ticks w))).
  { rewrite (kind_of_selected second k w1 Hk2). exact Hslot. }
  pose proof (chat_ready_run E second w1 _ Hsel) as Hready.
  destruct (relay_chat_spec E second (mkAgent k (ticks w)) w1)
    as (resp2 & w2 & calls & Hrun2 & Htrace & Hruns & Hs & Hc & _).
  exists resp1, w1, resp2, w2, calls.
  split; [exact Hrun1 | ]. split; [rewrite Hready; exact Hrun2 | ].
  split; [exact Htrace | ]. split; [exact Hruns | ].
  destruct k; cbn [slot] in *; congruence.
Qed.

Lemma chat_second_request_reuses_witness :
  exists resp1 w1 resp2 w2,
    chat_with_agent Demo.env (ChatRequest.mk "one" "chat" None) Demo.empty_world
    = (Return resp1, w1)
    /\ chat_with_agent Demo.env (ChatRequest.mk "two" "chat" None) w1 = (Return resp2, w2)
    /\ chat_agent w2 = Some (mkAgent ChatAgent 0).
Proof.
  destruct (chat_second_request_reuses Demo.env (ChatRequest.mk "one" "chat" None)
              (ChatRequest.mk "two" "chat" None) ChatAgent Demo.empty_world
              eq_refl eq_refl eq_refl eq_refl)
    as (resp1 & w1 & resp2 & w2 & calls & H1 & H2 & _ & _ & Hslot).
  exists resp1, w1, resp2, w2. auto.
Defined.

(** ** The search route and its agent *)

(** X13.  [search_and_summarize] and the search agent.  A search agent
    in the slot is reused, the only agent call being the [execute] of the
    search prompt with tools; with an empty slot the agent is constructed
    first and stored; when that construction raises [e] the answer is the
    failure response with [error = str(e)] and nothing is executed.  The
    chat agent slot is never touched. *)
Theorem search_agent_lifecycle (E : Env) (request : SearchRequest.t) (w : World) :
  (forall a,
      search_agent w = Some a ->
      exists resp w',
        search_and_summarize E request w = (Return resp, w')
        /\ search_agent w' = Some a
        /\ agent_trace w'
           = (Execute a (search_prompt (SearchRequest.query request)) (Some true),
              raised (agent_execute E a (search_prompt (SearchRequest.query request))
                                    (Some true) (ticks w)))
               :: agent_trace w)
  /\ (search_agent w = None ->
      agent_init E SearchAgent (ticks w) = None ->
      exists resp w' outcome,
        search_and_summarize E request w = (Return resp, w')
        /\ search_agent w' = Some (mkAgent SearchAgent (ticks w))
        /\ agent_trace w'
           = (Execute (mkAgent SearchAgent (ticks w))
                      (search_prompt (SearchRequest.query request)) (Some true), outcome)
               :: (Construct SearchAgent, None) :: agent_trace w)
  /\ (forall e,
         search_agent w = None ->
         agent_init E SearchAgent (ticks w) = Some e ->
         exists w',
           search_and_summarize E request w
           = (Return (SearchResponse.mk false (SearchRequest.query request) EmptyString
                                        None 0 (Some (str_exn E e))), w')
           /\ search_agent w' = None
           /\ agent_trace w' = (Construct SearchAgent, Some e) :: agent_trace w)
  /\ chat_agent (snd (search_and_summarize E request w)) = chat_agent w.
Proof.
  rewrite (search_run E request w).
  split; [ | split; [ | split]].
  - intros a Ha. rewrite Ha.
    destruct (relay_search_spec E request a w) as (resp & w' & Hrun & Htrace & Hs & _).
    exists resp, w'. split; [exact Hrun | ]. split; [congruence | exact Htrace].
  - intros Hnone Hinit. rewrite Hnone, Hinit.
    destruct (relay_search_spec E request (mkAgent SearchAgent (ticks w))
                (with_search_agent (Some (mkAgent SearchAgent (ticks w)))
                                   (constructed SearchAgent w)))
      as (resp & w' & Hrun & Htrace & Hs & _).
    exists resp, w'. eexists. split; [exact Hrun | ]. split; [exact Hs | exact Htrace].
  - intros e Hnone He. rewrite Hnone, He. eexists. split; [reflexivity | ].
    split; [exact Hnone | reflexivity].
  - destruct (search_agent w) as [a | ].
    + destruct (relay_search_spec E request a w) as (resp & w' & -> & _ & _ & Hc & _).
      exact Hc.
    + destruct (agent_init E SearchAgent (ticks w)) as [e | ]; [reflexivity | ].
      destruct (relay_search_spec E request (mkAgent SearchAgent (ticks w))
                  (with_search_agent (Some (mkAgent SearchAgent (ticks w)))
                                     (constructed SearchAgent w)))
        as (resp & w' & -> & _ & _ & Hc & _).
      exact Hc.
Qed.

Lemma search_agent_lifecycle_witness :
  (exists resp w',
      search_and_summarize Demo.env (SearchRequest.mk "cars" 5) Demo.empty_world
      = (Return resp, w')
      /\ search_agent w' = Some (mkAgent SearchAgent 0))
  /\ (exists w',
         search_and_summarize Demo.env_agents_down (SearchRequest.mk "cars" 5)
                              Demo.empty_world
         = (Return (SearchResponse.mk false "cars" EmptyString None 0
                                      (Some "missing API key")), w')
         /\ search_agent w' = None).
Proof.
  split.
  - destruct (search_agent_lifecycle Demo.env (SearchRequest.mk "cars" 5)
                Demo.empty_world) as (_ & Hfirst & _).
    destruct (Hfirst eq_refl eq_refl) as (resp & w' & outcome & Hrun & Hslot & _).
    exists resp, w'. split; [exact Hrun | exact Hslot].
  - destruct (search_agent_lifecycle Demo.env_agents_down (SearchRequest.mk "cars" 5)
                Demo.empty_world) as (_ & _ & Hdown & _).
    destruct (Hdown (Exception "missing API key") eq_refl eq_refl)
      as (w' & Hrun & Hslot & _).
    exists w'. split; [exact Hrun | exact Hslot].
Defined.

(** X14.  The search route and the chat route share the search agent: a
    chat request of type "search" that follows a first search constructs
    nothing and executes its message on the agent that the search
    constructed. *)
Theorem search_then_chat_share_agent (E : Env) (search : SearchRequest.t)
        (chat : ChatRequest.t) (w : World) :
  search_agent w = None ->
  agent_init E SearchAgent (ticks w) = None ->
  ChatRequest.agent_type chat = "search" ->
  exists resp1 w1 resp2 w2 calls,
    search_and_summarize E search w = (Return resp1, w1)
    /\ chat_with_agent E chat w1 = (Return resp2, w2)
    /\ agent_trace w2 = (calls ++ agent_trace w1)%list
    /\ runs_on (mkAgent SearchAgent (ticks w)) (ChatRequest.message chat) None calls
    /\ search_agent w2 = Some (mkAgent SearchAgent (ticks w)).
Proof.
  intros Hnone Hinit Ht.
  pose proof (search_run E search w) as Hsearch. rewrite Hnone, Hinit in Hsearch.
  destruct (relay_search_spec E search (mkAgent SearchAgent (ticks w))
              (with_search_agent (Some (mkAgent SearchAgent (ticks w)))
                                 (constructed SearchAgent w)))
    as (resp1 & w1 & Hrelay & _ & Hslot & _).
  cbn [search_agent with_search_agent] in Hslot.
  assert (Hrun1 : search_and_summarize E search w = (Return resp1, w1))
    by (rewrite Hsearch; exact Hrelay).
  assert (Hsel : selected_agent chat w1 = Some (mkAgent SearchAgent (ticks w))).
  { unfold selected_agent. rewrite Ht. exact Hslot. }
  pose proof (chat_ready_run E chat w1 _ Hsel) as Hready.
  destruct (relay_chat_spec E chat (mkAgent SearchAgent (ticks w)) w1)
    as (resp2 & w2 & calls & Hrun2 & Htrace & Hruns & Hs & _).
  exists resp1, w1, resp2, w2, calls.
  split; [exact Hrun1 | ]. split; [rewrite Hready; exact Hrun2 | ].
  split; [exact Htrace | ]. split; [exact Hruns | congruence].
Qed.

Lemma search_then_chat_share_agent_witness :
  exists resp1 w1 resp2 w2,
    search_and_summarize Demo.env (SearchRequest.mk "cars" 5) Demo.empty_world
    = (Return resp1, w1)
    /\ chat_with_agent Demo.env (ChatRequest.mk "more" "search" None) w1
       = (Return resp2, w2)
    /\ search_agent w2 = Some (mkAgent SearchAgent 0).
Proof.
  destruct (search_then_chat_share_agent Demo.env (SearchRequest.mk "cars" 5)
              (ChatRequest.mk "more" "search" None) Demo.empty_world
              eq_refl eq_refl eq_refl)
    as (resp1 & w1 & resp2 & w2 & calls & H1 & H2 & _ & _ & Hslot).
  exists resp1, w1, resp2, w2. auto.
Defined.

(** X15.  [sources_count] of a successful search.  When the agent's
    result has [success], the response carries the result's content and
    metadata, and [sources_count] is 0 when the metadata has no
    "tools_used", the integer stored there when it is one; when the
    value stored there does not validate as an integer, the answer is the
    failure response with the validation error as [error]. *)
Theorem search_sources_count (E : Env) (request : SearchRequest.t) (w : World)
        (a : Agent) (t : nat) (result : AgentResponse.t) :
  search_call E w = Some (a, t) ->
  agent_execute E a (search_prompt (SearchRequest.query request)) (Some true) t
  = Return result ->
  AgentResponse.success result = true ->
  let answer n :=
    Return (SearchResponse.mk true (SearchRequest.query request)
                              (AgentResponse.content result)
                              (Some (AgentResponse.metadata result)) n None) in
  (AgentResponse.metadata result !! "tools_used" = None ->
   fst (search_and_summarize E request w) = answer 0)
  /\ (forall n,
         AgentResponse.metadata result !! "tools_used" = Some (PyNum (PyInt n)) ->
         fst (search_and_summarize E request w) = answer n)
  /\ (forall v e,
         AgentResponse.metadata result !! "tools_used" = Some v ->
         validate_int E v = Raise e ->
         fst (search_and_summarize E request w)
         = Return (SearchResponse.mk false (SearchRequest.query request) EmptyString
                                     None 0 (Some (str_exn E e)))).
Proof.
  intros Hcall Hexec Hsucc answer. subst answer.
  assert (Hrelay : exists w0,
             search_and_summarize E request w = relay_search E request a w0
             /\ ticks w0 = t).
  { rewrite (search_run E request w). unfold search_call in Hcall.
    destruct (search_agent w) as [a0 | ].
    - injection Hcall as -> <-. eauto.
    - destruct (agent_init E SearchAgent (ticks w)) as [e | ]; [discriminate | ].
      injection Hcall as <- <-. eexists. split; reflexivity. }
  destruct Hrelay as (w0 & -> & Hticks).
  destruct (relay_search_spec E request a w0) as (resp & w' & -> & _ & _ & _ & _ & Hres).
  rewrite Hticks in Hres. specialize (Hres result Hexec). rewrite Hsucc in Hres.
  unfold tools_used in Hres. cbn [fst].
  split; [ | split].
  - intros Hmissing. rewrite Hmissing in Hres. simpl in Hres. congruence.
  - intros n Hn. rewrite Hn in Hres. simpl in Hres. congruence.
  - intros v e Hv He. rewrite Hv in Hres. simpl in Hres. rewrite He in Hres. congruence.
Qed.

Lemma search_sources_count_witness :
  fst (search_and_summarize Demo.env (SearchRequest.mk "cars" 5) Demo.empty_world)
  = Return (SearchResponse.mk
              true "cars"
              "echo: Search for information about: cars. Provide a comprehensive summary with key findings."
              (Some {[ "tools_used" := PyNum (PyInt 2) ]}) 2 None).
Proof.
  destruct (search_sources_count Demo.env (SearchRequest.mk "cars" 5) Demo.empty_world
              (mkAgent SearchAgent 0) 1%nat
              (Demo.answer (mkAgent SearchAgent 0)
                           (search_prompt "cars")) eq_refl eq_refl eq_refl)
    as (_ & Hint & _).
  apply (Hint 2). reflexivity.
Defined.

Lemma chat_unknown_type_empty_run (E : Env) (request : ChatRequest.t) (w : World) :
  kind_of (ChatRequest.agent_type request) = None ->
  chat_agent w = None ->
  chat_with_agent E request w
  = (Return (chat_failure E request (HTTPException 500 "Failed to initialize agent")),
     record_log ("Error in chat endpoint: "
                   +:+ str_exn E (HTTPException 500 "Failed to initialize agent")) w).
Proof.
  unfold kind_of, chat_with_agent, chat_with_agent_body.
  destruct (String.eqb (ChatRequest.agent_type request) "search") eqn:Hs; [discriminate | ].
  destruct (String.eqb (ChatRequest.agent_type request) "chat") eqn:Hc; [discriminate | ].
  intros _ Hnone. do 2 step_try. cbn [andb]. do 2 step_try. rewrite Hnone. reflexivity.
Qed.

Lemma relay_chat_shape (E : Env) (request : ChatRequest.t) (a : Agent) (w : World) :
  exists resp w',
    relay_chat E request a w = (Return resp, w')
    /\ ((exists response capabilities,
            resp = chat_success request response capabilities)
        \/ exists e, resp = chat_failure E request e).
Proof.
  destruct (relay_chat_spec E request a w)
    as (resp & w' & calls & Hrun & _ & _ & _ & _ & _ & Hok & Hexec & Hcaps).
  exists resp, w'. split; [exact Hrun | ].
  destruct (agent_execute E a (ChatRequest.message request) None (ticks w))
    as [response | e].
  - destruct (agent_get_capabilities E a (S (ticks w))) as [caps | e].
    + left. exists response, caps. apply Hok; reflexivity.
    + right. exists e. apply (Hcaps response); reflexivity.
  - right. exists e. apply Hexec. reflexivity.
Qed.

(** Every run of the chat route answers, names the agent type that was
    asked for, and either relays an agent's answer and capabilities or is
    the failure response of an exception. *)
(** X16.  [chat_with_agent] always returns a response, whose
    [agent_type] echoes the request's (recognised or not).  The response
    is either built from what the agent answered, or it is the failure
    response: [success = False], empty [response], no capabilities, and
    [error = str(e)] for the exception caught. *)
Theorem chat_response_shape (E : Env) (request : ChatRequest.t) (w : World) :
  exists resp w',
    chat_with_agent E request w = (Return resp, w')
    /\ ChatResponse.agent_type resp = ChatRequest.agent_type request
    /\ ((exists response capabilities,
            resp = chat_success request response capabilities)
        \/ (exists e,
               resp = chat_failure E request e
               /\ ChatResponse.success resp = false
               /\ ChatResponse.response resp = EmptyString
               /\ ChatResponse.capabilities resp = []
               /\ ChatResponse.error resp = Some (str_exn E e))).
Proof.
  assert (Hshape : exists resp w',
             chat_with_agent E request w = (Return resp, w')
             /\ ((exists response capabilities,
                     resp = chat_success request response capabilities)
                 \/ exists e, resp = chat_failure E request e)).
  { destruct (selected_agent request w) as [a | ] eqn:Hsel.
    - rewrite (chat_ready_run E request w a Hsel). apply relay_chat_shape.
    - destruct (kind_of (ChatRequest.agent_type request)) as [k | ] eqn:Hk.
      + rewrite (kind_of_selected request k w Hk) in Hsel.
        destruct (kind_of_cases _ _ Hk) as [[-> Ht] | [-> Ht]]; cbn [slot] in Hsel.
        * rewrite (chat_construct_search_run E request w Ht Hsel).
          destruct (agent_init E SearchAgent (ticks w)) as [e | ].
          -- eexists _, _. split; [reflexivity | ]. right. eauto.
          -- apply relay_chat_shape.
        * rewrite (chat_construct_chat_run E request w Ht Hsel).
          destruct (agent_init E ChatAgent (ticks w)) as [e | ].
          -- eexists _, _. split; [reflexivity | ]. right. eauto.
          -- apply relay_chat_shape.
      + assert (Hnone : chat_agent w = None).
        { unfold selected_agent, kind_of in *.
          destruct (String.eqb (ChatRequest.agent_type request) "search");
            [discriminate | exact Hsel]. }
        rewrite (chat_unknown_type_empty_run E request w Hk Hnone).
        eexists _, _. split; [reflexivity | ]. right. eauto. }
  destruct Hshape as (resp & w' & Hrun & [(response & caps & ->) | (e & ->)]).
  - eexists _, w'. split; [exact Hrun | ]. split; [reflexivity | ]. left. eauto.
  - eexists _, w'. split; [exact Hrun | ]. split; [reflexivity | ].
    right. exists e. repeat split.
Qed.

(** ** The capability route *)

(** X17.  [get_agent_capabilities] always returns a dict and never
    uses the global agents: each call begins by constructing a new
    [SearchAgent], and both slots are left as they were.  Any agent call
    that raises [e] makes the answer [success = False] with
    [error = str(e)]; when the construction of the [SearchAgent] raises,
    no [ChatAgent] is constructed.  A [success = True] answer carries the
    capabilities of the two agents constructed for this call, the search
    agent's asked for before the chat agent is constructed. *)
Theorem capabilities_use_fresh_agents (E : Env) (w : World) :
  let sa := mkAgent SearchAgent (ticks w) in
  let ca := mkAgent ChatAgent (S (S (ticks w))) in
  exists r w' calls,
    get_agent_capabilities E w = (Return r, w')
    /\ search_agent w' = search_agent w
    /\ chat_agent w' = chat_agent w
    /\ agent_trace w' = (calls ++ agent_trace w)%list
    /\ (exists later outcome, calls = (later ++ [(Construct SearchAgent, outcome)])%list)
    /\ (forall call e, In (call, Some e) calls -> r = capabilities_failure E e)
    /\ (forall e, agent_init E SearchAgent (ticks w) = Some e ->
                  calls = [(Construct SearchAgent, Some e)])
    /\ (CapabilitiesResult.success r = true ->
        exists search_capabilities chat_capabilities,
          agent_get_capabilities E sa (S (ticks w)) = Return search_capabilities
          /\ agent_get_capabilities E ca (S (S (S (ticks w)))) = Return chat_capabilities
          /\ r = CapabilitiesResult.mk
                   true (Some (Capabilities.mk search_capabilities chat_capabilities)) None
          /\ calls = [(Get_capabilities ca, None); (Construct ChatAgent, None);
                      (Get_capabilities sa, None); (Construct SearchAgent, None)]).
Proof.
  intros sa ca. unfold get_agent_capabilities.
  rewrite try_except_bind. unfold construct at 1. cbv zeta.
  destruct (agent_init E SearchAgent (ticks w)) as [e1 | ] eqn:H1.
  { eexists _, _, [(Construct SearchAgent, Some e1)].
    split; [reflexivity | ]. do 3 (split; [reflexivity | ]).
    split; [exists [], (Some e1); reflexivity | ].
    split; [intros call e [[= <- <-] | []]; reflexivity | ].
    split; [intros e [= <-]; reflexivity | discriminate]. }
  rewrite try_except_bind. unfold get_capabilities at 1. cbv zeta.
  cbn [ticks tick record_agent]. fold sa.
  destruct (agent_get_capabilities E sa (S (ticks w))) as [sc | e2] eqn:H2.
  2: { eexists _, _, [(Get_capabilities sa, Some e2); (Construct SearchAgent, None)].
       split; [reflexivity | ]. do 3 (split; [reflexivity | ]).
       split; [exists [(Get_capabilities sa, Some e2)], None; reflexivity | ].
       split; [intros call e [[= <- <-] | [[=] | []]]; reflexivity | ].
       split; [discriminate | discriminate]. }
  rewrite try_except_bind. unfold construct at 1. cbv zeta.
  cbn [ticks tick record_agent]. fold ca.
  destruct (agent_init E ChatAgent (S (S (ticks w)))) as [e3 | ] eqn:H3.
  { eexists _, _, [(Construct ChatAgent, Some e3); (Get_capabilities sa, None);
                   (Construct SearchAgent, None)].
    split; [reflexivity | ]. do 3 (split; [reflexivity | ]).
    split; [exists [(Construct ChatAgent, Some e3); (Get_capabilities sa, None)], None;
            reflexivity | ].
    split; [intros call e [[= <- <-] | [[=] | [[=] | []]]]; reflexivity | ].
    split; [discriminate | discriminate]. }
  rewrite try_except_bind. unfold get_capabilities at 1. cbv zeta.
  cbn [ticks tick record_agent].
  destruct (agent_get_capabilities E ca (S (S (S (ticks w))))) as [cc | e4] eqn:H4.
  2: { eexists _, _, [(Get_capabilities ca, Some e4); (Construct ChatAgent, None);
                      (Get_capabilities sa, None); (Construct SearchAgent, None)].
       split; [reflexivity | ]. do 3 (split; [reflexivity | ]).
       split; [exists [(Get_capabilities ca, Some e4); (Construct ChatAgent, None);
                       (Get_capabilities sa, None)], None; reflexivity | ].
       split; [intros call e [[= <- <-] | [[=] | [[=] | [[=] | []]]]]; reflexivity | ].
       split; [discriminate | discriminate]. }
  eexists _, _, [(Get_capabilities ca, None); (Construct ChatAgent, None);
                 (Get_capabilities sa, None); (Construct SearchAgent, None)].
  split; [reflexivity | ]. do 3 (split; [reflexivity | ]).
  split; [exists [(Get_capabilities ca, None); (Construct ChatAgent, None);
                  (Get_capabilities sa, None)], None; reflexivity | ].
  split; [intros call e [[=] | [[=] | [[=] | [[=] | []]]]] | ].
  split; [discriminate | ].
  intros _. exists sc, cc. auto.
Qed.

Lemma capabilities_use_fresh_agents_witness :
  exists r w',
    get_agent_capabilities Demo.env Demo.empty_world = (Return r, w')
    /\ CapabilitiesResult.success r = true
    /\ search_agent w' = None /\ chat_agent w' = None
    /\ agent_trace w'
       = [(Get_capabilities (mkAgent ChatAgent 2), None); (Construct ChatAgent, None);
          (Get_capabilities (mkAgent SearchAgent 0), None); (Construct SearchAgent, None)].
Proof.
  destruct (capabilities_use_fresh_agents Demo.env Demo.empty_world)
    as (r & w' & calls & Hrun & Hs & Hc & Htrace & _ & _ & _ & Hok).
  assert (Hsucc : CapabilitiesResult.success r = true).
  { replace r with (match fst (get_agent_capabilities Demo.env Demo.empty_world) with
                    | Return x => x
                    | Raise _ => r
                    end) by (rewrite Hrun; reflexivity).
    vm_compute. reflexivity. }
  destruct (Hok Hsucc) as (sc & cc & _ & _ & _ & Hcalls).
  exists r, w'. split; [exact Hrun | ]. split; [exact Hsucc | ].
  split; [exact Hs | ]. split; [exact Hc | ].
  rewrite Htrace, Hcalls. reflexivity.
Defined.

(** ** The status routes *)

Lemma create_status_check_run (E : Env) (bson : datetime -> datetime)
      (input : StatusCheckCreate.t) (s : Site) :
  let w := car_side s in
  let obj := built_StatusCheck E input s in
  let trace := (Status_insert_one obj, db_fault E (S (S (ticks w)))) :: status_trace s in
  create_status_check E bson input s
  = match db_fault E (S (S (ticks w))) with
    | Some msg =>
        (Raise (Exception msg), mkSite (tick (tick (tick w))) (status_checks s) trace)
    | None =>
        (Return obj,
         mkSite (tick (tick (tick w)))
                (status_checks s ++ [stored_StatusCheck bson obj])%list trace)
    end.
Proof.
  cbv zeta. unfold create_status_check, new_StatusCheck, bindS, on_car_side, retS,
              fresh_uuid, now, status_call, built_StatusCheck.
  cbn [car_side status_checks status_trace ticks tick fst snd].
  destruct (db_fault E (S (S (ticks (car_side s))))); reflexivity.
Qed.

Lemma get_status_checks_run (E : Env) (s : Site) :
  let w := car_side s in
  let trace := (Status_find 1000, db_fault E (ticks w)) :: status_trace s in
  get_status_checks E s
  = match db_fault E (ticks w) with
    | Some msg => (Raise (Exception msg), mkSite (tick w) (status_checks s) trace)
    | None => (Return (firstn 1000 (status_checks s)),
               mkSite (tick w) (status_checks s) trace)
    end.
Proof.
  cbv zeta. unfold get_status_checks, status_call.
  destruct (db_fault E (ticks (car_side s))); reflexivity.
Qed.

(** X18.  A status check that was created is listed.  On a collection
    of fewer than 1000 status checks, with a store that answers,
    [create_status_check] returns a record with the request's
    [client_name] and a fresh uuid as id, and [get_status_checks] called
    next lists the documents stored before followed by the new one, with
    the same id and client_name (its timestamp as the database keeps
    it). *)
Theorem status_check_round_trip (E : Env) (bson : datetime -> datetime)
        (input : StatusCheckCreate.t) (s : Site) :
  (length (status_checks s) < 1000)%nat ->
  db_fault E (2 + ticks (car_side s)) = None ->
  db_fault E (3 + ticks (car_side s)) = None ->
  exists obj s1 listed s2,
    create_status_check E bson input s = (Return obj, s1)
    /\ StatusCheck.client_name obj = StatusCheckCreate.client_name input
    /\ StatusCheck.id obj = uuid4 E (ticks (car_side s))
    /\ status_checks s1 = (status_checks s ++ [stored_StatusCheck bson obj])%list
    /\ get_status_checks E s1 = (Return listed, s2)
    /\ status_checks s2 = status_checks s1
    /\ listed = (status_checks s ++ [stored_StatusCheck bson obj])%list
    /\ last listed = Some (StatusCheck.mk (StatusCheck.id obj)
                                         (StatusCheckCreate.client_name input)
                                         (bson (StatusCheck.timestamp obj))).
Proof.
  intros Hlt Hf2 Hf3. simpl in Hf2, Hf3.
  pose proof (create_status_check_run E bson input s) as Hcreate.
  cbv zeta in Hcreate. rewrite Hf2 in Hcreate.
  set (obj := built_StatusCheck E input s) in *.
  set (s1 := mkSite _ _ _) in Hcreate.
  pose proof (get_status_checks_run E s1) as Hget. cbv zeta in Hget.
  assert (Ht : ticks (car_side s1) = S (S (S (ticks (car_side s))))) by reflexivity.
  rewrite Ht, Hf3 in Hget.
  eexists obj, s1, _, _.
  split; [exact Hcreate | ]. do 3 (split; [reflexivity | ]).
  split; [exact Hget | ]. split; [reflexivity | ].
  subst s1. cbn [status_checks].
  rewrite firstn_all2 by (rewrite length_app; simpl; lia).
  split; [reflexivity | ]. rewrite last_snoc. reflexivity.
Qed.

Lemma status_check_round_trip_witness :
  exists obj s1 listed s2,
    create_status_check Demo.env (fun t => t) (StatusCheckCreate.mk "probe") empty_site
    = (Return obj, s1)
    /\ get_status_checks Demo.env s1 = (Return listed, s2)
    /\ listed = [obj].
Proof.
  destruct (status_check_round_trip Demo.env (fun t => t) (StatusCheckCreate.mk "probe")
              empty_site ltac:(simpl; lia) eq_refl eq_refl)
    as (obj & s1 & listed & s2 & Hc & _ & _ & _ & Hg & _ & Hl & _).
  exists obj, s1, listed, s2. split; [exact Hc | ]. split; [exact Hg | ].
  rewrite Hl. vm_compute in Hc. injection Hc as <- _. reflexivity.
Defined.

(** X19.  Beyond 1000 status checks, new ones are stored but never
    listed: when the collection already holds 1000 documents or more,
    [get_status_checks] answers the same list, the first 1000 documents,
    before and after a successful [create_status_check]. *)
Theorem status_check_beyond_limit (E : Env) (bson : datetime -> datetime)
        (input : StatusCheckCreate.t) (s : Site) :
  (1000 <= length (status_checks s))%nat ->
  db_fault E (ticks (car_side s)) = None ->
  db_fault E (3 + ticks (car_side s)) = None ->
  db_fault E (4 + ticks (car_side s)) = None ->
  exists before s0 obj s1 after s2,
    get_status_checks E s = (Return before, s0)
    /\ create_status_check E bson input s0 = (Return obj, s1)
    /\ get_status_checks E s1 = (Return after, s2)
    /\ after = before
    /\ status_checks s2 !! length (status_checks s) = Some (stored_StatusCheck bson obj)
    /\ forall j, (j < 1000)%nat -> after !! j = status_checks s !! j.
Proof.
  intros Hlen Hf0 Hf3 Hf4. simpl in Hf3, Hf4.
  pose proof (get_status_checks_run E s) as Hget0. cbv zeta in Hget0.
  rewrite Hf0 in Hget0. set (s0 := mkSite _ _ _) in Hget0.
  pose proof (create_status_check_run E bson input s0) as Hcreate.
  cbv zeta in Hcreate.
  assert (Ht0 : ticks (car_side s0) = S (ticks (car_side s))) by reflexivity.
  rewrite Ht0, Hf3 in Hcreate.
  set (obj := built_StatusCheck E input s0) in *.
  set (s1 := mkSite _ _ _) in Hcreate.
  pose proof (get_status_checks_run E s1) as Hget. cbv zeta in Hget.
  assert (Ht : ticks (car_side s1) = S (S (S (S (ticks (car_side s)))))) by reflexivity.
  rewrite Ht, Hf4 in Hget.
  eexists _, s0, obj, s1, _, _.
  split; [exact Hget0 | ]. split; [exact Hcreate | ]. split; [exact Hget | ].
  subst s1 s0. cbn [status_checks car_side]. split; [ | split].
  - rewrite firstn_app.
    replace (1000 - length (status_checks s))%nat with 0%nat by lia.
    rewrite firstn_O, app_nil_r. reflexivity.
  - rewrite lookup_app_r by lia. rewrite Nat.sub_diag. reflexivity.
  - intros j Hj. rewrite firstn_app.
    replace (1000 - length (status_checks s))%nat with 0%nat by lia.
    rewrite firstn_O, app_nil_r. apply lookup_take_lt. exact Hj.
Qed.

Lemma status_check_beyond_limit_witness :
  exists before s0 obj s1 after s2,
    get_status_checks Demo.env (full_site 1000) = (Return before, s0)
    /\ create_status_check Demo.env (fun t => t) (StatusCheckCreate.mk "probe") s0
       = (Return obj, s1)
    /\ get_status_checks Demo.env s1 = (Return after, s2)
    /\ after = before.
Proof.
  destruct (status_check_beyond_limit Demo.env (fun t => t) (StatusCheckCreate.mk "probe")
              (full_site 1000))
    as (before & s0 & obj & s1 & after & s2 & Hb & Hc & Ha & Hsame & _).
  - unfold full_site. cbn [status_checks]. rewrite repeat_length. lia.
  - reflexivity.
  - reflexivity.
  - reflexivity.
  - exists before, s0, obj, s1, after, s2.
    split; [exact Hb | ]. split; [exact Hc | ]. split; [exact Ha | ].
    exact Hsame.
Defined.

(** X20.  [create_status_check] catches nothing.  If it raises, the
    exception is the one the driver raised on [insert_one], unchanged (no
    [HTTPException] is made of it), nothing was logged, and neither
    collection has changed. *)
Theorem create_status_check_uncaught (E : Env) (bson : datetime -> datetime)
        (input : StatusCheckCreate.t) (s : Site) (e : exn) (s' : Site) :
  create_status_check E bson input s = (Raise e, s') ->
  exists msg,
    db_fault E (2 + ticks (car_side s)) = Some msg
    /\ e = Exception msg
    /\ status_checks s' = status_checks s
    /\ logged (car_side s') = logged (car_side s)
    /\ cars (car_side s') = cars (car_side s)
    /\ status_trace s'
       = (Status_insert_one (built_StatusCheck E input s), Some msg) :: status_trace s.
Proof.
  intros Hrun. rewrite create_status_check_run in Hrun. cbv zeta in Hrun.
  change (2 + ticks (car_side s))%nat with (S (S (ticks (car_side s)))).
  destruct (db_fault E (S (S (ticks (car_side s))))) as [msg | ]; [ | discriminate].
  injection Hrun as <- <-. exists msg. repeat split; reflexivity.
Qed.

Lemma create_status_check_uncaught_witness :
  fst (create_status_check Demo.env_store_down (fun t => t) (StatusCheckCreate.mk "probe")
                           empty_site)
  = Raise (Exception "connection refused")
  /\ status_checks (snd (create_status_check Demo.env_store_down (fun t => t)
                                              (StatusCheckCreate.mk "probe") empty_site))
     = [].
Proof.
  destruct (create_status_check Demo.env_store_down (fun t => t)
                                (StatusCheckCreate.mk "probe") empty_site)
    as [r s'] eqn:Hrun.
  assert (Hr : exists e, r = Raise e).
  { vm_compute in Hrun. injection Hrun as <- _. eauto. }
  destruct Hr as (e & ->).
  destruct (create_status_check_uncaught _ _ _ _ _ _ Hrun) as (msg & Hm & -> & Hs & _).
  vm_compute in Hm. injection Hm as <-. split; [reflexivity | exact Hs].
Defined.

(** X21.  [get_status_checks] only reads.  Both collections and the log
    are as before; a list it returns has at most 1000 entries and is a
    prefix of the collection, in stored order, the whole collection when
    fewer than 1000 entries come back; if it raises, the exception is the
    driver's own. *)
Theorem get_status_checks_read_only (E : Env) (s : Site) :
  status_checks (snd (get_status_checks E s)) = status_checks s
  /\ cars (car_side (snd (get_status_checks E s))) = cars (car_side s)
  /\ logged (car_side (snd (get_status_checks E s))) = logged (car_side s)
  /\ (forall listed, fst (get_status_checks E s) = Return listed ->
        (length listed <= 1000)%nat
        /\ (exists unlisted, status_checks s = (listed ++ unlisted)%list)
        /\ (length listed < 1000 -> listed = status_checks s)%nat)
  /\ (forall e, fst (get_status_checks E s) = Raise e ->
        exists msg, e = Exception msg /\ db_fault E (ticks (car_side s)) = Some msg).
Proof.
  rewrite get_status_checks_run. cbv zeta.
  destruct (db_fault E (ticks (car_side s))) as [msg | ]; cbn [fst snd status_checks car_side].
  - do 3 (split; [reflexivity | ]). split; [discriminate | ].
    intros e [= <-]. exists msg. split; reflexivity.
  - do 3 (split; [reflexivity | ]). split; [ | discriminate].
    intros listed [= <-]. rewrite length_firstn.
    split; [lia | ]. split.
    + exists (skipn 1000 (status_checks s)). symmetry. apply firstn_skipn.
    + intros Hlt. apply firstn_all2. lia.
Qed.

Lemma get_status_checks_read_only_witness :
  exists listed,
    fst (get_status_checks Demo.env (full_site 1001)) = Return listed
    /\ length listed = 1000%nat
    /\ length (status_checks (snd (get_status_checks Demo.env (full_site 1001))))
       = 1001%nat.
Proof.
  destruct (get_status_checks_read_only Demo.env (full_site 1001))
    as (Hsame & _ & _ & Hlisted & _).
  assert (Hrun : fst (get_status_checks Demo.env (full_site 1001))
                 = Return (firstn 1000 (status_checks (full_site 1001))))
    by (rewrite get_status_checks_run; reflexivity).
  exists (firstn 1000 (status_checks (full_site 1001))).
  split; [exact Hrun | ].
  destruct (Hlisted _ Hrun) as (Hle & _ & _).
  split.
  - rewrite length_firstn. unfold full_site. cbn [status_checks].
    rewrite repeat_length. reflexivity.
  - rewrite Hsame. unfold full_site. cbn [status_checks]. apply repeat_length.
Defined.
